(** * libewf chunk group: EWF table entries and the chunks list

    A shallow embedding of [libewf/libewf_chunk_group.c]:
    [libewf_chunk_group_fill_v1], [libewf_chunk_group_fill_v2],
    [libewf_chunk_group_correct_v1] and
    [libewf_chunk_group_generate_table_entries_data], followed by the
    properties of the chunk group specification that were checked
    against them.

    C integers are [Z] with their wrap-around written out, buffers are
    lists of bytes, the chunks list is a list of elements, and a function
    that returns 1 or -1 with a libcerror code returns a [result]. *)

From Stdlib Require Import ZArith List Bool Lia.
From Stdlib Require Import Strings.Byte.
Import ListNotations.
Open Scope Z_scope.

(** ** Machine integers *)

Definition uint8 (z : Z) : Z := z mod 2 ^ 8.
Definition uint32 (z : Z) : Z := z mod 2 ^ 32.
Definition uint64 (z : Z) : Z := z mod 2 ^ 64.

(** [int] and [off64_t]: two's complement, the value kept modulo the
    width.  A signed sum that leaves the range is undefined in C; it is
    given the value every supported compiler target produces. *)
Definition int32 (z : Z) : Z := (z + 2 ^ 31) mod 2 ^ 32 - 2 ^ 31.
Definition int64 (z : Z) : Z := (z + 2 ^ 63) mod 2 ^ 64 - 2 ^ 63.

Definition INT32_MAX : Z := 2 ^ 31 - 1.
Definition INT_MAX : Z := 2 ^ 31 - 1.
Definition UINT32_MAX : Z := 2 ^ 32 - 1.
Definition INT64_MAX : Z := 2 ^ 63 - 1.
(** [size_t] is 64 bits wide. *)
Definition SSIZE_MAX : Z := 2 ^ 63 - 1.

(** ** Errors *)

(** The libcerror codes the four functions set, and [OUT_OF_BUFFER] for
    an access outside the buffer a pointer argument designates, which C
    leaves undefined. *)
Inductive error : Set :=
| ARGUMENT_ERROR_VALUE_ZERO_OR_LESS
| ARGUMENT_ERROR_VALUE_EXCEEDS_MAXIMUM
| ARGUMENT_ERROR_UNSUPPORTED_VALUE
| RUNTIME_ERROR_APPEND_FAILED
| RUNTIME_ERROR_GET_FAILED
| RUNTIME_ERROR_SET_FAILED
| RUNTIME_ERROR_VALUE_EXCEEDS_MAXIMUM
| RUNTIME_ERROR_VALUE_OUT_OF_BOUNDS
| OUT_OF_BUFFER.

Inductive result (A : Type) : Type :=
| Ok (a : A)
| Err (e : error).

Arguments Ok {A} a.
Arguments Err {A} e.

Definition bind {A B : Type} (r : result A) (k : A -> result B) : result B :=
  match r with
  | Ok a => k a
  | Err e => Err e
  end.

Notation "x <- r ;; k" := (bind r (fun x => k))
  (at level 61, r at next level, right associativity).

(** A library call that failed, reported with the caller's code. *)
Definition or_fail {A : Type} (e : error) (o : option A) : result A :=
  match o with
  | Some a => Ok a
  | None => Err e
  end.

(** ** Byte streams *)

Definition byte_to_Z (b : byte) : Z := Z.of_N (Byte.to_N b).

Definition Z_to_byte (z : Z) : byte :=
  match Byte.of_N (Z.to_N (z mod 256)) with
  | Some b => b
  | None => x00
  end.

(** Modelled from the spec: the macros of byte_stream.h (not under src/),
    the little-endian 32 and 64 bit reads and writes of section 4.1.  A
    read or write that needs more bytes than the buffer holds is
    [OUT_OF_BUFFER]. *)
Definition byte_stream_copy_to_uint32_little_endian (byte_stream : list byte)
  : result Z :=
  match byte_stream with
  | b0 :: b1 :: b2 :: b3 :: _ =>
      let value := byte_to_Z b3 in
      let value := Z.lor (Z.shiftl value 8) (byte_to_Z b2) in
      let value := Z.lor (Z.shiftl value 8) (byte_to_Z b1) in
      let value := Z.lor (Z.shiftl value 8) (byte_to_Z b0) in
      Ok value
  | _ => Err OUT_OF_BUFFER
  end.

Definition byte_stream_copy_to_uint64_little_endian (byte_stream : list byte)
  : result Z :=
  match byte_stream with
  | b0 :: b1 :: b2 :: b3 :: b4 :: b5 :: b6 :: b7 :: _ =>
      let value := byte_to_Z b7 in
      let value := Z.lor (Z.shiftl value 8) (byte_to_Z b6) in
      let value := Z.lor (Z.shiftl value 8) (byte_to_Z b5) in
      let value := Z.lor (Z.shiftl value 8) (byte_to_Z b4) in
      let value := Z.lor (Z.shiftl value 8) (byte_to_Z b3) in
      let value := Z.lor (Z.shiftl value 8) (byte_to_Z b2) in
      let value := Z.lor (Z.shiftl value 8) (byte_to_Z b1) in
      let value := Z.lor (Z.shiftl value 8) (byte_to_Z b0) in
      Ok value
  | _ => Err OUT_OF_BUFFER
  end.

(** The bytes a write stores, least significant first. *)
Definition byte_stream_copy_from_uint32_little_endian (value : Z) : list byte :=
  [ Z_to_byte (Z.land value 255);
    Z_to_byte (Z.land (Z.shiftr value 8) 255);
    Z_to_byte (Z.land (Z.shiftr value 16) 255);
    Z_to_byte (Z.land (Z.shiftr value 24) 255) ].

Definition byte_stream_copy_from_uint64_little_endian (value : Z) : list byte :=
  [ Z_to_byte (Z.land value 255);
    Z_to_byte (Z.land (Z.shiftr value 8) 255);
    Z_to_byte (Z.land (Z.shiftr value 16) 255);
    Z_to_byte (Z.land (Z.shiftr value 24) 255);
    Z_to_byte (Z.land (Z.shiftr value 32) 255);
    Z_to_byte (Z.land (Z.shiftr value 40) 255);
    Z_to_byte (Z.land (Z.shiftr value 48) 255);
    Z_to_byte (Z.land (Z.shiftr value 56) 255) ].

(** Storing [bytes] through a pointer at the start of [buffer]: the bytes
    replace the first bytes of the buffer, which must be there. *)
Definition store_bytes (bytes buffer : list byte) : result (list byte) :=
  if (length buffer <? length bytes)%nat then Err OUT_OF_BUFFER
  else Ok (bytes ++ skipn (length bytes) buffer).

(** ** On-disk table entries *)

(** Modelled from the spec: the table entry structs of ewf_table.h (not
    under src/), laid out as in section 6.1: 4 bytes for version 1, and
    for version 2 an 8 byte offset, a 4 byte size and 4 bytes of flags. *)
Definition sizeof_ewf_table_entry_v1_t : Z := 4.
Definition sizeof_ewf_table_entry_v2_t : Z := 16.

(** [((ewf_table_entry_v1_t * ) table_entries_data)[ index ].chunk_data_offset]
    read as a little-endian 32 bit value. *)
Definition table_entry_v1 (table_entries_data : list byte) (index : Z)
  : result Z :=
  byte_stream_copy_to_uint32_little_endian
    (skipn (Z.to_nat (sizeof_ewf_table_entry_v1_t * index)) table_entries_data).

(** Modelled from the spec: the chunk data flags of libewf_definitions.h
    (not under src/), the three on-disk bits of section 4.2. *)
Definition LIBEWF_CHUNK_DATA_FLAG_IS_COMPRESSED : Z := 0x1.
Definition LIBEWF_CHUNK_DATA_FLAG_HAS_CHECKSUM : Z := 0x2.
Definition LIBEWF_CHUNK_DATA_FLAG_USES_PATTERN_FILL : Z := 0x4.

(** Modelled from the spec: the range flags of libewf_definitions.h (not
    under src/), five distinct bits. *)
Definition LIBEWF_RANGE_FLAG_IS_COMPRESSED : Z := 0x2.
Definition LIBEWF_RANGE_FLAG_HAS_CHECKSUM : Z := 0x100.
Definition LIBEWF_RANGE_FLAG_IS_TAINTED : Z := 0x400.
Definition LIBEWF_RANGE_FLAG_IS_CORRUPTED : Z := 0x800.
Definition LIBEWF_RANGE_FLAG_USES_PATTERN_FILL : Z := 0x1000.

(** [( flags & flag ) != 0] *)
Definition has_flag (flags flag : Z) : bool := negb (Z.land flags flag =? 0).

(** ** The section and the chunks list *)

(** The fields of [libewf_section_t] the chunk group reads. *)
Record libewf_section_t : Set := {
  start_offset : Z;   (* off64_t *)
  end_offset : Z;     (* off64_t *)
  size : Z            (* size64_t *)
}.

(** One element of the chunks list: the data range and its flags, and the
    range of the storage media it is mapped to, once that has been set. *)
Record element : Set := {
  element_file_index : Z;
  element_offset : Z;
  element_size : Z;
  element_flags : Z;
  mapped_range : option (Z * Z)
}.

Definition libfdata_list_t : Set := list element.

(** Modelled from the spec: the chunks list of libfdata (not under src/),
    the growable vector keyed by position of section 4.3, with append,
    set_mapped_range, get and set.  Element indexes are C [int]s, as in
    [int element_index] of the callers: an index outside [0, length) fails
    and so does an append to a list that already has [INT_MAX] elements. *)
Definition libfdata_list_append_element (chunks_list : libfdata_list_t)
    (file_index offset size flags : Z) : option (Z * libfdata_list_t) :=
  if INT_MAX <=? Z.of_nat (length chunks_list) then None
  else Some (Z.of_nat (length chunks_list),
             chunks_list
             ++ [ {| element_file_index := file_index;
                     element_offset := offset;
                     element_size := size;
                     element_flags := flags;
                     mapped_range := None |} ]).

(** The list with the element at position [n] replaced. *)
Fixpoint replace_nth (n : nat) (x : element) (l : libfdata_list_t)
  : libfdata_list_t :=
  match l, n with
  | [], _ => []
  | _ :: l', O => x :: l'
  | y :: l', S n' => y :: replace_nth n' x l'
  end.

(** Modelled from the spec: get of section 4.3. *)
Definition libfdata_list_get_element_by_index (chunks_list : libfdata_list_t)
    (element_index : Z) : option element :=
  if element_index <? 0 then None
  else nth_error chunks_list (Z.to_nat element_index).

(** Modelled from the spec: set_mapped_range of section 4.3. *)
Definition libfdata_list_set_mapped_range_by_index
    (chunks_list : libfdata_list_t)
    (element_index mapped_offset mapped_size : Z) : option libfdata_list_t :=
  match libfdata_list_get_element_by_index chunks_list element_index with
  | None => None
  | Some e =>
      Some (replace_nth (Z.to_nat element_index)
              {| element_file_index := element_file_index e;
                 element_offset := element_offset e;
                 element_size := element_size e;
                 element_flags := element_flags e;
                 mapped_range := Some (mapped_offset, mapped_size) |}
              chunks_list)
  end.

(** Modelled from the spec: set of section 4.3; the mapped range of the
    element stays. *)
Definition libfdata_list_set_element_by_index (chunks_list : libfdata_list_t)
    (element_index file_index offset size flags : Z)
  : option libfdata_list_t :=
  match libfdata_list_get_element_by_index chunks_list element_index with
  | None => None
  | Some e =>
      Some (replace_nth (Z.to_nat element_index)
              {| element_file_index := file_index;
                 element_offset := offset;
                 element_size := size;
                 element_flags := flags;
                 mapped_range := mapped_range e |} chunks_list)
  end.

(** ** Version 1 tables: what both passes share *)

(** The local variables of a version 1 pass that live across table
    entries. *)
Record v1_locals : Set := {
  stored_offset : Z;          (* uint32_t *)
  is_compressed : Z;          (* uint8_t *)
  overflow : Z;               (* uint8_t *)
  chunk_data_size : Z;        (* uint32_t *)
  storage_media_offset : Z;   (* off64_t *)
  chunks : libfdata_list_t
}.

(** [is_compressed] after the test on [overflow] at the head of an
    entry. *)
Definition v1_is_compressed (st : v1_locals) : Z :=
  if overflow st =? 0 then uint8 (Z.shiftr (stored_offset st) 31)
  else is_compressed st.

(** [current_offset] after the same test. *)
Definition v1_current_offset (st : v1_locals) : Z :=
  if overflow st =? 0 then Z.land (stored_offset st) 0x7fffffff
  else stored_offset st.

(** [next_offset], from the stored offset of the next entry. *)
Definition v1_next_offset (st : v1_locals) (stored : Z) : Z :=
  if overflow st =? 0 then Z.land stored 0x7fffffff else stored.

(** The size of a chunk that has a successor, and whether the entry is
    corrupted: the same statements in the fill and in the correct pass. *)
Definition v1_chunk_data_size (current_offset next_offset stored : Z)
  : Z * Z :=
  let corrupted := 0 in
  let '(corrupted, size) :=
    if next_offset <? current_offset then
      ((if stored <? current_offset then 1 else corrupted),
       uint32 (stored - current_offset))
    else (corrupted, uint32 (next_offset - current_offset)) in
  let corrupted := if size =? 0 then 1 else corrupted in
  let corrupted := if size >? INT32_MAX then 1 else corrupted in
  (corrupted, size).

(** [( overflow == 0 ) && ( ( current_offset + chunk_data_size ) > INT32_MAX )],
    the sum being a [uint32_t] sum. *)
Definition v1_overflows (st : v1_locals) (current_offset size : Z) : bool :=
  (overflow st =? 0) && (uint32 (current_offset + size) >? INT32_MAX).

(** The size of the last chunk, from the offsets of the table section. *)
Definition v1_last_chunk_data_size (table_section : libewf_section_t)
    (last_chunk_data_offset : Z) : Z :=
  if last_chunk_data_offset <? start_offset table_section then
    int64 (start_offset table_section - last_chunk_data_offset)
  else if last_chunk_data_offset <? end_offset table_section then
    int64 (end_offset table_section - last_chunk_data_offset)
  else 0.

Definition v1_last_corrupted (last_chunk_data_size : Z) : Z :=
  let corrupted := 0 in
  let corrupted := if last_chunk_data_size <=? 0 then 1 else corrupted in
  let corrupted := if last_chunk_data_size >? INT32_MAX then 1 else corrupted in
  corrupted.

(** ** libewf_chunk_group_fill_v1 *)

Definition fill_v1_range_flags (is_compressed corrupted tainted : Z) : Z :=
  let range_flags :=
    if negb (is_compressed =? 0) then LIBEWF_RANGE_FLAG_IS_COMPRESSED
    else LIBEWF_RANGE_FLAG_HAS_CHECKSUM in
  let range_flags :=
    if negb (corrupted =? 0)
    then Z.lor range_flags LIBEWF_RANGE_FLAG_IS_CORRUPTED else range_flags in
  let range_flags :=
    if negb (tainted =? 0)
    then Z.lor range_flags LIBEWF_RANGE_FLAG_IS_TAINTED else range_flags in
  range_flags.

(** Append an element and set its mapped range, as both the loop and the
    last entry do; either call failing is reported as APPEND_FAILED. *)
Definition append_chunk (chunks_list : libfdata_list_t)
    (file_io_pool_entry offset size range_flags : Z)
    (storage_media_offset chunk_size : Z) : result libfdata_list_t :=
  r <- or_fail RUNTIME_ERROR_APPEND_FAILED
         (libfdata_list_append_element chunks_list file_io_pool_entry offset
            size range_flags) ;;
  or_fail RUNTIME_ERROR_APPEND_FAILED
    (libfdata_list_set_mapped_range_by_index (snd r) (fst r)
       storage_media_offset chunk_size).

(** The body of the [while] loop, for the entry at [table_entry_index]. *)
Definition fill_v1_entry (chunk_size file_io_pool_entry base_offset : Z)
    (table_entries_data : list byte) (tainted : Z)
    (table_entry_index : Z) (st : v1_locals) : result v1_locals :=
  let is_compressed := v1_is_compressed st in
  let current_offset := v1_current_offset st in
  stored <- table_entry_v1 table_entries_data (table_entry_index + 1) ;;
  let next_offset := v1_next_offset st stored in
  let '(corrupted, size) :=
    v1_chunk_data_size current_offset next_offset stored in
  let range_flags := fill_v1_range_flags is_compressed corrupted tainted in
  chunks_list <- append_chunk (chunks st) file_io_pool_entry
            (int64 (base_offset + current_offset)) size range_flags
            (storage_media_offset st) chunk_size ;;
  let latch := v1_overflows st current_offset size in
  Ok {| stored_offset := stored;
        is_compressed := if latch then 0 else is_compressed;
        overflow := if latch then 1 else overflow st;
        chunk_data_size := size;
        storage_media_offset := int64 (storage_media_offset st + chunk_size);
        chunks := chunks_list |}.

(** [n] turns of the loop from [table_entry_index] on. *)
Fixpoint fill_v1_loop (chunk_size file_io_pool_entry base_offset : Z)
    (table_entries_data : list byte) (tainted : Z)
    (n : nat) (table_entry_index : Z) (st : v1_locals) : result v1_locals :=
  match n with
  | O => Ok st
  | S n' =>
      st' <- fill_v1_entry chunk_size file_io_pool_entry base_offset
               table_entries_data tainted table_entry_index st ;;
      fill_v1_loop chunk_size file_io_pool_entry base_offset
        table_entries_data tainted n' (table_entry_index + 1) st'
  end.

(** The last entry, after the loop. *)
Definition fill_v1_last (chunk_size file_io_pool_entry : Z)
    (table_section : libewf_section_t) (base_offset tainted : Z)
    (st : v1_locals) : result libfdata_list_t :=
  let is_compressed := v1_is_compressed st in
  let current_offset := v1_current_offset st in
  let last_chunk_data_offset := int64 (base_offset + current_offset) in
  if last_chunk_data_offset >? INT64_MAX
  then Err RUNTIME_ERROR_VALUE_EXCEEDS_MAXIMUM
  else
    let last_chunk_data_size :=
      v1_last_chunk_data_size table_section last_chunk_data_offset in
    let corrupted := v1_last_corrupted last_chunk_data_size in
    let range_flags := fill_v1_range_flags is_compressed corrupted tainted in
    append_chunk (chunks st) file_io_pool_entry last_chunk_data_offset
      (uint64 last_chunk_data_size) range_flags
      (storage_media_offset st) chunk_size.

(** The locals when the loop is entered, the first stored offset read. *)
Definition v1_initial (chunks_list : libfdata_list_t) (stored : Z)
  : v1_locals :=
  {| stored_offset := stored;
     is_compressed := 0;
     overflow := 0;
     chunk_data_size := 0;
     storage_media_offset := 0;
     chunks := chunks_list |}.

(** The loop [while( table_entry_index < ( number_of_entries - 1 ) )]
    starts at index 0 and adds 1 each turn, the bound being a [uint32_t]:
    it makes [uint32 (number_of_entries - 1)] turns and leaves the index at
    that value for the last entry.  The pointer arguments are values here,
    so the tests for NULL have no counterpart. *)
Definition libewf_chunk_group_fill_v1 (chunks_list : libfdata_list_t)
    (chunk_size file_io_pool_entry : Z) (table_section : libewf_section_t)
    (base_offset number_of_entries : Z) (table_entries_data : list byte)
    (table_entries_data_size tainted : Z) : result libfdata_list_t :=
  if base_offset <? 0 then Err ARGUMENT_ERROR_VALUE_ZERO_OR_LESS
  else if table_entries_data_size >? SSIZE_MAX
  then Err ARGUMENT_ERROR_VALUE_EXCEEDS_MAXIMUM
  else
    stored <- table_entry_v1 table_entries_data 0 ;;
    st <- fill_v1_loop chunk_size file_io_pool_entry base_offset
            table_entries_data tainted
            (Z.to_nat (uint32 (number_of_entries - 1))) 0
            (v1_initial chunks_list stored) ;;
    fill_v1_last chunk_size file_io_pool_entry table_section base_offset
      tainted st.

(** ** libewf_chunk_group_fill_v2 *)

(** The local variables of the version 2 fill that live across table
    entries; [v2_table_entries_data] is the pointer, which moves on. *)
Record v2_locals : Set := {
  v2_table_entries_data : list byte;
  v2_table_entries_data_size : Z;   (* size_t *)
  table_entry_offset : Z;           (* off64_t *)
  v2_storage_media_offset : Z;      (* off64_t *)
  v2_chunks : libfdata_list_t
}.

Definition fill_v2_range_flags (chunk_data_flags tainted : Z) : Z :=
  let range_flags := 0 in
  let range_flags :=
    if has_flag chunk_data_flags LIBEWF_CHUNK_DATA_FLAG_IS_COMPRESSED then
      let range_flags := Z.lor range_flags LIBEWF_RANGE_FLAG_IS_COMPRESSED in
      if has_flag chunk_data_flags LIBEWF_CHUNK_DATA_FLAG_USES_PATTERN_FILL
      then Z.lor range_flags LIBEWF_RANGE_FLAG_USES_PATTERN_FILL
      else range_flags
    else range_flags in
  let range_flags :=
    if has_flag chunk_data_flags LIBEWF_CHUNK_DATA_FLAG_HAS_CHECKSUM
    then Z.lor range_flags LIBEWF_RANGE_FLAG_HAS_CHECKSUM else range_flags in
  let range_flags :=
    if negb (tainted =? 0)
    then Z.lor range_flags LIBEWF_RANGE_FLAG_IS_TAINTED else range_flags in
  range_flags.

(** The data range of the element: the one the entry stores, or the
    pattern inside the table entry itself. *)
Definition fill_v2_data_range (range_flags table_entry_offset
    chunk_data_offset chunk_data_size : Z) : Z * Z :=
  if has_flag range_flags LIBEWF_RANGE_FLAG_USES_PATTERN_FILL
  then (uint64 table_entry_offset, 8)
  else (chunk_data_offset, chunk_data_size).

(** The body of the [while] loop.  [chunk_data_offset] is a [uint64_t]
    handed to the list as an [off64_t]. *)
Definition fill_v2_entry (chunk_size file_io_pool_entry tainted : Z)
    (st : v2_locals) : result v2_locals :=
  let data := v2_table_entries_data st in
  chunk_data_offset <- byte_stream_copy_to_uint64_little_endian data ;;
  chunk_data_size <- byte_stream_copy_to_uint32_little_endian (skipn 8 data) ;;
  chunk_data_flags <-
    byte_stream_copy_to_uint32_little_endian (skipn 12 data) ;;
  let range_flags := fill_v2_range_flags chunk_data_flags tainted in
  let range :=
    fill_v2_data_range range_flags (table_entry_offset st)
      chunk_data_offset chunk_data_size in
  chunks_list <- append_chunk (v2_chunks st) file_io_pool_entry
                   (int64 (fst range)) (snd range) range_flags
                   (v2_storage_media_offset st) chunk_size ;;
  Ok {| v2_table_entries_data :=
          skipn (Z.to_nat sizeof_ewf_table_entry_v2_t) data;
        v2_table_entries_data_size :=
          v2_table_entries_data_size st - sizeof_ewf_table_entry_v2_t;
        table_entry_offset :=
          int64 (table_entry_offset st + sizeof_ewf_table_entry_v2_t);
        v2_storage_media_offset :=
          int64 (v2_storage_media_offset st + chunk_size);
        v2_chunks := chunks_list |}.

Fixpoint fill_v2_loop (chunk_size file_io_pool_entry tainted : Z)
    (n : nat) (st : v2_locals) : result v2_locals :=
  match n with
  | O => Ok st
  | S n' =>
      st' <- fill_v2_entry chunk_size file_io_pool_entry tainted st ;;
      fill_v2_loop chunk_size file_io_pool_entry tainted n' st'
  end.

(** The loop
    [while( table_entries_data_size >= sizeof( ewf_table_entry_v2_t ) )]
    takes 16 off the size each turn: it makes
    [table_entries_data_size / 16] turns.  [number_of_offsets] is an
    argument of the C function and is kept.  The size of the version 2
    table header, [sizeof( ewf_table_header_v2_t )], comes from ewf_table.h,
    which is not under src/: it is the first argument. *)
Definition libewf_chunk_group_fill_v2 (sizeof_ewf_table_header_v2_t : Z)
    (chunks_list : libfdata_list_t)
    (chunk_size file_io_pool_entry : Z) (table_section : libewf_section_t)
    (number_of_offsets : Z) (table_entries_data : list byte)
    (table_entries_data_size tainted : Z) : result libfdata_list_t :=
  if table_entries_data_size >? SSIZE_MAX
  then Err ARGUMENT_ERROR_VALUE_EXCEEDS_MAXIMUM
  else
    st <- fill_v2_loop chunk_size file_io_pool_entry tainted
            (Z.to_nat (table_entries_data_size / sizeof_ewf_table_entry_v2_t))
            {| v2_table_entries_data := table_entries_data;
               v2_table_entries_data_size := table_entries_data_size;
               table_entry_offset :=
                 int64 (start_offset table_section
                        + sizeof_ewf_table_header_v2_t);
               v2_storage_media_offset := 0;
               v2_chunks := chunks_list |} ;;
    Ok (v2_chunks st).

(** ** libewf_chunk_group_correct_v1 *)

Definition correct_v1_range_flags (is_compressed corrupted tainted : Z) : Z :=
  let range_flags := LIBEWF_RANGE_FLAG_HAS_CHECKSUM in
  let range_flags :=
    if negb (is_compressed =? 0)
    then Z.lor range_flags LIBEWF_RANGE_FLAG_IS_COMPRESSED else range_flags in
  let range_flags :=
    if negb (corrupted =? 0)
    then Z.lor range_flags LIBEWF_RANGE_FLAG_IS_CORRUPTED else range_flags in
  let range_flags :=
    if negb (tainted =? 0)
    then Z.lor range_flags LIBEWF_RANGE_FLAG_IS_TAINTED else range_flags in
  range_flags.

(** [mismatch != 0] after the three comparisons with the element the list
    holds. *)
Definition v1_mismatch (offset size range_flags : Z) (previous : element)
  : bool :=
  if negb (offset =? element_offset previous) then true
  else if negb (size =? element_size previous) then true
  else if negb (Z.land range_flags LIBEWF_RANGE_FLAG_IS_COMPRESSED
                =? Z.land (element_flags previous)
                     LIBEWF_RANGE_FLAG_IS_COMPRESSED) then true
  else false.

(** [update_data_range != 0] *)
Definition v1_update_data_range (mismatch : bool)
    (corrupted tainted previous_range_flags : Z) : bool :=
  if mismatch then
    if (corrupted =? 0) && (tainted =? 0) then true
    else if has_flag previous_range_flags LIBEWF_RANGE_FLAG_IS_CORRUPTED
            && (corrupted =? 0) then true
    else false
  else if has_flag previous_range_flags LIBEWF_RANGE_FLAG_IS_TAINTED then true
  else false.

(** Get the element at [table_entry_index], compare, and set it when
    asked to: the same statements in the loop and for the last entry.  The
    index is a [uint32_t] handed to the list as an [int]. *)
Definition correct_v1_element (chunks_list : libfdata_list_t)
    (table_entry_index file_io_pool_entry offset size range_flags : Z)
    (corrupted tainted : Z) : result libfdata_list_t :=
  previous <- or_fail RUNTIME_ERROR_GET_FAILED
                (libfdata_list_get_element_by_index chunks_list
                   (int32 table_entry_index)) ;;
  let mismatch := v1_mismatch offset size range_flags previous in
  if v1_update_data_range mismatch corrupted tainted (element_flags previous)
  then or_fail RUNTIME_ERROR_SET_FAILED
         (libfdata_list_set_element_by_index chunks_list
            (int32 table_entry_index) file_io_pool_entry offset size
            range_flags)
  else Ok chunks_list.

Definition correct_v1_entry (file_io_pool_entry base_offset : Z)
    (table_entries_data : list byte) (tainted : Z)
    (table_entry_index : Z) (st : v1_locals) : result v1_locals :=
  let is_compressed := v1_is_compressed st in
  let current_offset := v1_current_offset st in
  stored <- table_entry_v1 table_entries_data (table_entry_index + 1) ;;
  let next_offset := v1_next_offset st stored in
  let '(corrupted, size) :=
    v1_chunk_data_size current_offset next_offset stored in
  let range_flags := correct_v1_range_flags is_compressed corrupted tainted in
  chunks_list <- correct_v1_element (chunks st) table_entry_index
                   file_io_pool_entry (int64 (base_offset + current_offset))
                   size range_flags corrupted tainted ;;
  let latch := v1_overflows st current_offset size in
  Ok {| stored_offset := stored;
        is_compressed := if latch then 0 else is_compressed;
        overflow := if latch then 1 else overflow st;
        chunk_data_size := size;
        storage_media_offset := storage_media_offset st;
        chunks := chunks_list |}.

Fixpoint correct_v1_loop (file_io_pool_entry base_offset : Z)
    (table_entries_data : list byte) (tainted : Z)
    (n : nat) (table_entry_index : Z) (st : v1_locals) : result v1_locals :=
  match n with
  | O => Ok st
  | S n' =>
      st' <- correct_v1_entry file_io_pool_entry base_offset
               table_entries_data tainted table_entry_index st ;;
      correct_v1_loop file_io_pool_entry base_offset table_entries_data
        tainted n' (table_entry_index + 1) st'
  end.

(** The last entry.  Its size is computed into [last_chunk_data_size] and
    tested, and the element is compared and set with [chunk_data_size],
    the variable the loop left behind. *)
Definition correct_v1_last (file_io_pool_entry : Z)
    (table_section : libewf_section_t) (base_offset tainted : Z)
    (table_entry_index : Z) (st : v1_locals) : result libfdata_list_t :=
  let is_compressed := v1_is_compressed st in
  let current_offset := v1_current_offset st in
  let last_chunk_data_offset := int64 (base_offset + current_offset) in
  if last_chunk_data_offset >? INT64_MAX
  then Err RUNTIME_ERROR_VALUE_EXCEEDS_MAXIMUM
  else
    let last_chunk_data_size :=
      v1_last_chunk_data_size table_section last_chunk_data_offset in
    let last_chunk_data_size :=
      int64 (last_chunk_data_size - size table_section) in
    let corrupted := v1_last_corrupted last_chunk_data_size in
    let range_flags := correct_v1_range_flags is_compressed corrupted tainted in
    correct_v1_element (chunks st) table_entry_index file_io_pool_entry
      (int64 (base_offset + current_offset)) (chunk_data_size st)
      range_flags corrupted tainted.

Definition libewf_chunk_group_correct_v1 (chunks_list : libfdata_list_t)
    (chunk_size file_io_pool_entry : Z) (table_section : libewf_section_t)
    (base_offset number_of_entries : Z) (table_entries_data : list byte)
    (table_entries_data_size tainted : Z) : result libfdata_list_t :=
  if base_offset <? 0 then Err ARGUMENT_ERROR_VALUE_ZERO_OR_LESS
  else if table_entries_data_size >? SSIZE_MAX
  then Err ARGUMENT_ERROR_VALUE_EXCEEDS_MAXIMUM
  else
    stored <- table_entry_v1 table_entries_data 0 ;;
    st <- correct_v1_loop file_io_pool_entry base_offset table_entries_data
            tainted (Z.to_nat (uint32 (number_of_entries - 1))) 0
            (v1_initial chunks_list stored) ;;
    correct_v1_last file_io_pool_entry table_section base_offset tainted
      (uint32 (number_of_entries - 1)) st.

(** ** libewf_chunk_group_generate_table_entries_data *)

(** The bytes of one table entry, or the error of the range tests. *)
Definition generate_table_entry (format_version base_offset : Z) (e : element)
  : result (list byte) :=
  if format_version =? 1 then
    let chunk_data_offset := int64 (element_offset e - base_offset) in
    if (chunk_data_offset <? 0) || (chunk_data_offset >? INT32_MAX)
    then Err RUNTIME_ERROR_VALUE_OUT_OF_BOUNDS
    else
      let table_offset := uint32 chunk_data_offset in
      let table_offset :=
        if has_flag (element_flags e) LIBEWF_RANGE_FLAG_IS_COMPRESSED
        then Z.lor table_offset 0x80000000 else table_offset in
      Ok (byte_stream_copy_from_uint32_little_endian table_offset)
  else if format_version =? 2 then
    if element_size e >? UINT32_MAX
    then Err RUNTIME_ERROR_VALUE_OUT_OF_BOUNDS
    else
      let chunk_data_flags := 0 in
      let chunk_data_flags :=
        if has_flag (element_flags e) LIBEWF_RANGE_FLAG_IS_COMPRESSED
        then Z.lor chunk_data_flags LIBEWF_CHUNK_DATA_FLAG_IS_COMPRESSED
        else chunk_data_flags in
      let chunk_data_flags :=
        if has_flag (element_flags e) LIBEWF_RANGE_FLAG_HAS_CHECKSUM
        then Z.lor chunk_data_flags LIBEWF_CHUNK_DATA_FLAG_HAS_CHECKSUM
        else chunk_data_flags in
      let chunk_data_flags :=
        if has_flag (element_flags e) LIBEWF_RANGE_FLAG_USES_PATTERN_FILL
        then Z.lor chunk_data_flags LIBEWF_CHUNK_DATA_FLAG_USES_PATTERN_FILL
        else chunk_data_flags in
      Ok (byte_stream_copy_from_uint64_little_endian (element_offset e)
          ++ byte_stream_copy_from_uint32_little_endian
               (uint32 (element_size e))
          ++ byte_stream_copy_from_uint32_little_endian chunk_data_flags)
  else Ok [].

(** [n] turns of the [for] loop.  [written] is the part of the buffer the
    pointer has passed and [table_entries_data] the part it points to. *)
Fixpoint generate_loop (chunks_list : libfdata_list_t)
    (format_version base_offset table_entry_data_size : Z)
    (n : nat) (table_entry_index : Z) (written table_entries_data : list byte)
  : result (list byte) :=
  match n with
  | O => Ok (written ++ table_entries_data)
  | S n' =>
      e <- or_fail RUNTIME_ERROR_GET_FAILED
             (libfdata_list_get_element_by_index chunks_list
                (int32 table_entry_index)) ;;
      bytes <- generate_table_entry format_version base_offset e ;;
      data <- store_bytes bytes table_entries_data ;;
      generate_loop chunks_list format_version base_offset
        table_entry_data_size n' (table_entry_index + 1)
        (written ++ firstn (Z.to_nat table_entry_data_size) data)
        (skipn (Z.to_nat table_entry_data_size) data)
  end.

(** The result is the contents of the buffer after the call. *)
Definition libewf_chunk_group_generate_table_entries_data
    (chunks_list : libfdata_list_t) (format_version : Z)
    (table_entries_data : list byte)
    (table_entries_data_size number_of_entries base_offset : Z)
  : result (list byte) :=
  table_entry_data_size <-
    (if format_version =? 1 then Ok sizeof_ewf_table_entry_v1_t
     else if format_version =? 2 then Ok sizeof_ewf_table_entry_v2_t
     else Err ARGUMENT_ERROR_UNSUPPORTED_VALUE) ;;
  if table_entries_data_size >? SSIZE_MAX
  then Err ARGUMENT_ERROR_VALUE_EXCEEDS_MAXIMUM
  else if number_of_entries * table_entry_data_size >? table_entries_data_size
  then Err RUNTIME_ERROR_VALUE_OUT_OF_BOUNDS
  else if base_offset <? 0 then Err ARGUMENT_ERROR_VALUE_ZERO_OR_LESS
  else
    generate_loop chunks_list format_version base_offset
      table_entry_data_size (Z.to_nat number_of_entries) 0 []
      table_entries_data.


(** ** Vocabulary of the properties *)

(** The corrupted mark and the size of the entry a loop turn handles,
    given the stored offset of the next entry. *)
Definition v1_entry_size (st : v1_locals) (stored : Z) : Z * Z :=
  v1_chunk_data_size (v1_current_offset st) (v1_next_offset st stored) stored.

(** An element whose flags do not have IS_COMPRESSED. *)
Definition not_compressed (e : element) : Prop :=
  has_flag (element_flags e) LIBEWF_RANGE_FLAG_IS_COMPRESSED = false.

(** What a correct pass may do to a list once it has overflowed: every
    element is the one that was there or is not tagged as compressed. *)
Definition kept_or_not_compressed (l l' : libfdata_list_t) : Prop :=
  length l' = length l
  /\ forall (k : nat) (e' : element),
       nth_error l' k = Some e' ->
       nth_error l k = Some e' \/ not_compressed e'.

(** Exactly one of IS_COMPRESSED and HAS_CHECKSUM. *)
Definition compressed_xor_checksum (range_flags : Z) : Prop :=
  xorb (has_flag range_flags LIBEWF_RANGE_FLAG_IS_COMPRESSED)
       (has_flag range_flags LIBEWF_RANGE_FLAG_HAS_CHECKSUM) = true.

(** Once the flag is set, [is_compressed] has been cleared. *)
Definition v1_latched (st : v1_locals) : Prop :=
  overflow st <> 0 -> is_compressed st = 0.

(** The entry an element was made from, and the range it is mapped
    to. *)
Definition v1_element_of_entry (chunk_size file_io_pool_entry base_offset : Z)
    (data : list byte) (k : Z) (e : element) : Prop :=
  mapped_range e = Some (int64 (k * chunk_size), chunk_size)
  /\ element_file_index e = file_io_pool_entry
  /\ exists stored,
       table_entry_v1 data k = Ok stored
       /\ (element_offset e - (base_offset + stored)) mod 2 ^ 31 = 0.

(** ** Tables used as examples *)

(** Stored offsets 0x40000000, 0x80000000, 0x90000000: the second entry
    is past 2 GiB. *)
Definition table_past_2GiB : list byte :=
  [ x00; x00; x00; x40;  x00; x00; x00; x80;  x00; x00; x00; x90 ].

(** Stored offsets 0x10, 0x05, 0x20: the second offset is below the
    first. *)
Definition table_going_back : list byte :=
  [ x10; x00; x00; x00;  x05; x00; x00; x00;  x20; x00; x00; x00 ].

(** A table of one entry, stored offset 1. *)
Definition table_one_entry : list byte := [ x01; x00; x00; x00 ].

Definition section_0x1000_0x2000 : libewf_section_t :=
  {| start_offset := 0x1000; end_offset := 0x2000; size := 0x1000 |}.

(** Stored offsets 0x10, 0x10010, 0x20010, 0x30010: four chunks of
    0x10000 bytes, none compressed. *)
Definition table_four_chunks : list byte :=
  [ x10; x00; x00; x00;  x10; x00; x01; x00;
    x10; x00; x02; x00;  x10; x00; x03; x00 ].

Definition section_0x40110 : libewf_section_t :=
  {| start_offset := 0x40110; end_offset := 0x40134; size := 0x24 |}.

(** The three fields of the version 2 table entry at index [k], read
    from the start of the table entries data. *)
Definition table_entry_v2 (table_entries_data : list byte) (k : nat)
  : result (Z * Z * Z) :=
  let data := skipn (16 * k) table_entries_data in
  chunk_data_offset <- byte_stream_copy_to_uint64_little_endian data ;;
  chunk_data_size <- byte_stream_copy_to_uint32_little_endian (skipn 8 data) ;;
  chunk_data_flags <-
    byte_stream_copy_to_uint32_little_endian (skipn 12 data) ;;
  Ok (chunk_data_offset, chunk_data_size, chunk_data_flags).

(** The element the version 2 fill makes from table entry [k]. *)
Definition v2_element_of_entry (sizeof_ewf_table_header_v2_t : Z)
    (chunk_size file_io_pool_entry : Z) (table_section : libewf_section_t)
    (table_entries_data : list byte) (tainted : Z) (k : nat) (e : element)
  : Prop :=
  exists chunk_data_offset chunk_data_size chunk_data_flags,
    table_entry_v2 table_entries_data k
    = Ok (chunk_data_offset, chunk_data_size, chunk_data_flags)
    /\ let range_flags := fill_v2_range_flags chunk_data_flags tainted in
       let range :=
         fill_v2_data_range range_flags
           (int64 (start_offset table_section + sizeof_ewf_table_header_v2_t
                   + 16 * Z.of_nat k))
           chunk_data_offset chunk_data_size in
       e = {| element_file_index := file_io_pool_entry;
              element_offset := int64 (fst range);
              element_size := snd range;
              element_flags := range_flags;
              mapped_range :=
                Some (int64 (Z.of_nat k * chunk_size), chunk_size) |}.

(** A version 2 table of one entry: offset 0xdead, size 4096, and the
    flags the name tells. *)
Definition table_v2_pattern_fill_only : list byte :=
  [ xad; xde; x00; x00; x00; x00; x00; x00;
    x00; x10; x00; x00;  x04; x00; x00; x00 ].

Definition table_v2_compressed_pattern_fill : list byte :=
  [ xad; xde; x00; x00; x00; x00; x00; x00;
    x00; x10; x00; x00;  x05; x00; x00; x00 ].

(** Stored offsets 0x80000010 and 0x10010: two chunks, the first one
    compressed. *)
Definition table_first_compressed : list byte :=
  [ x10; x00; x00; x80;  x10; x00; x01; x00 ].

(** Stored offset 0x10: one chunk. *)
Definition table_one_chunk : list byte := [ x10; x00; x00; x00 ].

Definition section_0x2000_0x3000 : libewf_section_t :=
  {| start_offset := 0x2000; end_offset := 0x3000; size := 0x100 |}.

(** The locals of the fill pass over [table_past_2GiB] after one and
    after two turns of the loop. *)
Definition past_2GiB_after_1 : v1_locals := Eval vm_compute in
    match fill_v1_loop 0x10000 0 0 table_past_2GiB 0 1 0
            (v1_initial [] 0x40000000) with
    | Ok st => st
    | Err _ => v1_initial [] 0
    end.

Definition past_2GiB_after_2 : v1_locals := Eval vm_compute in
    match fill_v1_loop 0x10000 0 0 table_past_2GiB 0 1 1 past_2GiB_after_1
    with
    | Ok st => st
    | Err _ => v1_initial [] 0
    end.

(** The list the fill pass makes from [table_four_chunks]. *)
Definition four_chunks_filled : libfdata_list_t := Eval vm_compute in
    match libewf_chunk_group_fill_v1 [] 0x10000 0 section_0x40110 0x100 4
            table_four_chunks 16 0 with
    | Ok l => l
    | Err _ => []
    end.

(** The element of the chunk of [table_one_chunk] with base offset 0x100,
    [sz] bytes long, with a checksum, and a list that holds it. *)
Definition one_chunk (sz : Z) : element :=
  {| element_file_index := 0;
     element_offset := 0x110;
     element_size := sz;
     element_flags := LIBEWF_RANGE_FLAG_HAS_CHECKSUM;
     mapped_range := Some (0, 0x8000) |}.

Definition one_chunk_list : libfdata_list_t := [ one_chunk 0x1df0 ].

(** The version 1 table offset written for an element: its offset from
    the base offset with the top bit set when it is compressed. *)
Definition v1_table_offset (base_offset : Z) (e : element) : Z :=
  let table_offset := uint32 (int64 (element_offset e - base_offset)) in
  if has_flag (element_flags e) LIBEWF_RANGE_FLAG_IS_COMPRESSED
  then Z.lor table_offset 0x80000000 else table_offset.

(** The version 2 chunk data flags written for range flags. *)
Definition v2_chunk_data_flags (range_flags : Z) : Z :=
  let chunk_data_flags := 0 in
  let chunk_data_flags :=
    if has_flag range_flags LIBEWF_RANGE_FLAG_IS_COMPRESSED
    then Z.lor chunk_data_flags LIBEWF_CHUNK_DATA_FLAG_IS_COMPRESSED
    else chunk_data_flags in
  let chunk_data_flags :=
    if has_flag range_flags LIBEWF_RANGE_FLAG_HAS_CHECKSUM
    then Z.lor chunk_data_flags LIBEWF_CHUNK_DATA_FLAG_HAS_CHECKSUM
    else chunk_data_flags in
  let chunk_data_flags :=
    if has_flag range_flags LIBEWF_RANGE_FLAG_USES_PATTERN_FILL
    then Z.lor chunk_data_flags LIBEWF_CHUNK_DATA_FLAG_USES_PATTERN_FILL
    else chunk_data_flags in
  chunk_data_flags.

(** Two elements at the same offset that agree on IS_COMPRESSED. *)
Definition same_offset_and_compression (e e' : element) : Prop :=
  element_offset e = element_offset e'
  /\ has_flag (element_flags e) LIBEWF_RANGE_FLAG_IS_COMPRESSED
     = has_flag (element_flags e') LIBEWF_RANGE_FLAG_IS_COMPRESSED.

(** Locals of two version 1 passes that are at the same entry in the
    same regime, with lists that agree on offsets and compression. *)
Definition v1_same_locals (st st' : v1_locals) : Prop :=
  stored_offset st = stored_offset st'
  /\ is_compressed st = is_compressed st'
  /\ overflow st = overflow st'
  /\ Forall2 same_offset_and_compression (chunks st) (chunks st').

(** When the pass has overflowed, the stored offset at hand is above
    INT32_MAX. *)
Definition v1_overflowed_past (st : v1_locals) : Prop :=
  overflow st <> 0 -> stored_offset st > INT32_MAX.

(** An element whose offset from the base offset fits a version 1 table
    entry. *)
Definition v1_offset_fits (base_offset : Z) (e : element) : Prop :=
  0 <= int64 (element_offset e - base_offset) <= INT32_MAX.

(** A version 2 table of two entries and the list filled from it, and
    the buffers the two lists of the examples are written to. *)
Definition table_v2_two_entries : list byte :=
  table_v2_compressed_pattern_fill ++ table_v2_pattern_fill_only.

Definition two_entries_filled : libfdata_list_t := Eval vm_compute in
    match libewf_chunk_group_fill_v2 24 [] 0x8000 0 section_0x1000_0x2000 2
            table_v2_two_entries 32 0 with
    | Ok l => l
    | Err _ => []
    end.

Definition two_entries_generated : list byte := Eval vm_compute in
    match libewf_chunk_group_generate_table_entries_data two_entries_filled
            2 (repeat x00 32) 32 2 0 with
    | Ok b => b
    | Err _ => []
    end.

(** ** Vocabulary of the further properties *)

(** What the correct pass, given [file_io_pool_entry] and [tainted], may
    have done to a list: every element is in its place with the range it
    was mapped to, and is the one that was there or one the pass set. *)
Definition corrected_in_place (file_io_pool_entry tainted : Z)
    (l l' : libfdata_list_t) : Prop :=
  length l' = length l
  /\ forall (k : nat) (e' : element),
       nth_error l' k = Some e' ->
       exists e,
         nth_error l k = Some e
         /\ mapped_range e' = mapped_range e
         /\ (e' = e
             \/ (element_file_index e' = file_io_pool_entry
                 /\ has_flag (element_flags e') LIBEWF_RANGE_FLAG_HAS_CHECKSUM
                    = true
                 /\ has_flag (element_flags e') LIBEWF_RANGE_FLAG_IS_TAINTED
                    = negb (tainted =? 0))).

(** The size of a table entry of the format version, as the generate
    function picks it. *)
Definition table_entry_size_of (format_version : Z) : Z :=
  if format_version =? 1 then sizeof_ewf_table_entry_v1_t
  else sizeof_ewf_table_entry_v2_t.

(** An element a table entry of the format version can hold: for
    version 1 its offset from the base offset fits 31 bits, for version 2
    its size fits 32 bits. *)
Definition fits_table_entry (format_version base_offset : Z) (e : element)
  : Prop :=
  if format_version =? 1 then v1_offset_fits base_offset e
  else element_size e <= UINT32_MAX.

(** A list of four elements, the third one compressed, and a buffer of
    20 bytes 0xff.  The version 1 table and the version 2 table written
    for the first two elements of the list. *)
Definition four_elements : libfdata_list_t :=
  [ {| element_file_index := 1; element_offset := 0x110;
       element_size := 0x8000; element_flags := 0x100;
       mapped_range := Some (0, 0x8000) |};
    {| element_file_index := 1; element_offset := 0x8110;
       element_size := 0x8000; element_flags := 0xd00;
       mapped_range := Some (0x8000, 0x8000) |};
    {| element_file_index := 1; element_offset := 0x10110;
       element_size := 0x123; element_flags := 0x2;
       mapped_range := Some (0x10000, 0x8000) |};
    {| element_file_index := 1; element_offset := 0x10233;
       element_size := 0x8000; element_flags := 0x100;
       mapped_range := Some (0x18000, 0x8000) |} ].

Definition buffer_0xff (n : nat) : list byte := repeat xff n.

Definition four_elements_v1_table : list byte := Eval vm_compute in
    match libewf_chunk_group_generate_table_entries_data four_elements 1
            (buffer_0xff 20) 20 4 0x100 with
    | Ok b => b
    | Err _ => []
    end.

Definition two_elements_v2_table : list byte := Eval vm_compute in
    match libewf_chunk_group_generate_table_entries_data four_elements 2
            (buffer_0xff 40) 40 2 0x100 with
    | Ok b => b
    | Err _ => []
    end.

(** A variant of [four_elements]: other pool entries, sizes, mapped
    ranges and flags, the same offsets and compression. *)
Definition four_elements_variant : libfdata_list_t :=
  [ {| element_file_index := 7; element_offset := 0x110;
       element_size := 1; element_flags := 0x400;
       mapped_range := None |};
    {| element_file_index := 7; element_offset := 0x8110;
       element_size := 2; element_flags := 0x100;
       mapped_range := None |};
    {| element_file_index := 7; element_offset := 0x10110;
       element_size := 3; element_flags := 0x1102;
       mapped_range := None |};
    {| element_file_index := 7; element_offset := 0x10233;
       element_size := 4; element_flags := 0;
       mapped_range := None |} ].

(** What the version 1 fill sets in every element it appends. *)
Definition v1_filled (file_io_pool_entry tainted : Z) (e : element) : Prop :=
  element_file_index e = file_io_pool_entry
  /\ compressed_xor_checksum (element_flags e)
  /\ has_flag (element_flags e) LIBEWF_RANGE_FLAG_USES_PATTERN_FILL = false
  /\ has_flag (element_flags e) LIBEWF_RANGE_FLAG_IS_TAINTED
     = negb (tainted =? 0).

(** The offsets the first [n] entries of a version 1 table store, taken
    without their top bit, go up from each entry to the next. *)
Definition v1_offsets_increase (table_entries_data : list byte) (n : Z)
  : Prop :=
  forall k stored stored',
    0 <= k -> k + 1 < n ->
    table_entry_v1 table_entries_data k = Ok stored ->
    table_entry_v1 table_entries_data (k + 1) = Ok stored' ->
    Z.land stored 0x7fffffff < Z.land stored' 0x7fffffff.

(** The element of a chunk that lies between the offsets two
    consecutive table entries store, the first one being [stored]. *)
Definition v1_chunk_between (base_offset stored stored' : Z) (e : element)
  : Prop :=
  element_offset e = int64 (base_offset + Z.land stored 0x7fffffff)
  /\ element_size e = Z.land stored' 0x7fffffff - Z.land stored 0x7fffffff
  /\ has_flag (element_flags e) LIBEWF_RANGE_FLAG_IS_COMPRESSED
     = Z.testbit stored 31
  /\ has_flag (element_flags e) LIBEWF_RANGE_FLAG_HAS_CHECKSUM
     = negb (Z.testbit stored 31)
  /\ has_flag (element_flags e) LIBEWF_RANGE_FLAG_IS_CORRUPTED = false.

(** Locals of two version 1 passes that are at the same entry of the
    same table: they agree on all but the list. *)
Definition v1_same_scalars (st st' : v1_locals) : Prop :=
  stored_offset st = stored_offset st'
  /\ is_compressed st = is_compressed st'
  /\ overflow st = overflow st'
  /\ chunk_data_size st = chunk_data_size st'.

(** What a tainted correct pass leaves of a list: the elements that are
    neither corrupted nor tainted are where they were. *)
Definition sound_elements_kept (l l' : libfdata_list_t) : Prop :=
  forall (k : nat) (e : element),
    nth_error l k = Some e ->
    has_flag (element_flags e) LIBEWF_RANGE_FLAG_IS_CORRUPTED = false ->
    has_flag (element_flags e) LIBEWF_RANGE_FLAG_IS_TAINTED = false ->
    nth_error l' k = Some e.

(** [table_four_chunks] followed by four more bytes, and a list of two
    elements, the first one sound and the second one tainted. *)
Definition table_four_chunks_and_more : list byte :=
  table_four_chunks ++ [ xde; xad; xbe; xef ].

Definition sound_and_tainted : libfdata_list_t :=
  [ {| element_file_index := 0; element_offset := 0x999;
       element_size := 0x10; element_flags := 0x100;
       mapped_range := Some (0, 0x8000) |};
    {| element_file_index := 0; element_offset := 0x999;
       element_size := 0x10; element_flags := 0x500;
       mapped_range := Some (0x8000, 0x8000) |} ].

Definition sound_and_tainted_corrected : libfdata_list_t := Eval vm_compute in
    match libewf_chunk_group_correct_v1 sound_and_tainted 0x8000 0
            section_0x2000_0x3000 0x100 2 table_first_compressed 8 1 with
    | Ok l => l
    | Err _ => []
    end.

(** The list filled from the first two entries of [table_four_chunks]. *)
Definition two_of_four_chunks_filled : libfdata_list_t := Eval vm_compute in
    match libewf_chunk_group_fill_v1 [] 0x10000 0 section_0x40110 0x100 2
            table_four_chunks 8 0 with
    | Ok l => l
    | Err _ => []
    end.

(** The locals of the version 2 fill with the pointer at [data]. *)
Definition v2_at (st : v2_locals) (data : list byte) : v2_locals :=
  {| v2_table_entries_data := data;
     v2_table_entries_data_size := v2_table_entries_data_size st;
     table_entry_offset := table_entry_offset st;
     v2_storage_media_offset := v2_storage_media_offset st;
     v2_chunks := v2_chunks st |}.

(** [table_v2_two_entries] followed by bytes that are not an entry. *)
Definition table_v2_two_entries_and_more : list byte :=
  table_v2_two_entries ++ [ xde; xad; xbe; xef ].

(** What a version 2 table entry keeps of an element, read back. *)
Definition v2_kept (e e' : element) : Prop :=
  has_flag (element_flags e') LIBEWF_RANGE_FLAG_IS_COMPRESSED
  = has_flag (element_flags e) LIBEWF_RANGE_FLAG_IS_COMPRESSED
  /\ has_flag (element_flags e') LIBEWF_RANGE_FLAG_HAS_CHECKSUM
     = has_flag (element_flags e) LIBEWF_RANGE_FLAG_HAS_CHECKSUM
  /\ has_flag (element_flags e') LIBEWF_RANGE_FLAG_USES_PATTERN_FILL
     = has_flag (element_flags e) LIBEWF_RANGE_FLAG_IS_COMPRESSED
       && has_flag (element_flags e) LIBEWF_RANGE_FLAG_USES_PATTERN_FILL
  /\ has_flag (element_flags e') LIBEWF_RANGE_FLAG_IS_CORRUPTED = false
  /\ (has_flag (element_flags e) LIBEWF_RANGE_FLAG_IS_COMPRESSED
      && has_flag (element_flags e) LIBEWF_RANGE_FLAG_USES_PATTERN_FILL
      = false ->
      element_offset e' = int64 (element_offset e)
      /\ element_size e' = uint32 (element_size e)).

(** The list filled from [two_elements_v2_table]. *)
Definition two_elements_read_back : libfdata_list_t := Eval vm_compute in
    match libewf_chunk_group_fill_v2 24 [] 0x8000 0 section_0x1000_0x2000 2
            two_elements_v2_table 32 0 with
    | Ok l => l
    | Err _ => []
    end.

(** An element with the data range and the compression of the chunk
    between the offsets two consecutive table entries store: what the
    correct pass compares. *)
Definition v1_range_between (base_offset stored stored' : Z) (e : element)
  : Prop :=
  element_offset e = int64 (base_offset + Z.land stored 0x7fffffff)
  /\ element_size e = Z.land stored' 0x7fffffff - Z.land stored 0x7fffffff
  /\ has_flag (element_flags e) LIBEWF_RANGE_FLAG_IS_COMPRESSED
     = Z.testbit stored 31.


(** The offsets of the first [n] elements of a list, from the base
    offset, go up from each element to the next. *)
Definition offsets_increase (base_offset : Z) (l : libfdata_list_t) (n : Z)
  : Prop :=
  forall (k : nat) (e e' : element),
    Z.of_nat k + 1 < n ->
    nth_error l k = Some e ->
    nth_error l (S k) = Some e' ->
    int64 (element_offset e - base_offset)
    < int64 (element_offset e' - base_offset).

(** What a version 1 table keeps of an element that has a successor,
    read back: [e'] for [e], whose successor is [next]. *)
Definition v1_kept (base_offset : Z) (e next e' : element) : Prop :=
  element_offset e' = int64 (element_offset e)
  /\ element_size e'
     = int64 (element_offset next - base_offset)
       - int64 (element_offset e - base_offset)
  /\ has_flag (element_flags e') LIBEWF_RANGE_FLAG_IS_COMPRESSED
     = has_flag (element_flags e) LIBEWF_RANGE_FLAG_IS_COMPRESSED
  /\ has_flag (element_flags e') LIBEWF_RANGE_FLAG_HAS_CHECKSUM
     = negb (has_flag (element_flags e) LIBEWF_RANGE_FLAG_IS_COMPRESSED)
  /\ has_flag (element_flags e') LIBEWF_RANGE_FLAG_IS_CORRUPTED = false.

(** The list filled from [four_elements_v1_table], and a list that a
    correct pass over [table_four_chunks] has to correct. *)
Definition four_elements_read_back : libfdata_list_t := Eval vm_compute in
    match libewf_chunk_group_fill_v1 [] 0x8000 0 section_0x40110 0x100 4
            four_elements_v1_table 16 0 with
    | Ok l => l
    | Err _ => []
    end.

Definition four_elements_corrected : libfdata_list_t := Eval vm_compute in
    match libewf_chunk_group_correct_v1 four_elements 0x8000 0
            section_0x40110 0x100 4 table_four_chunks 16 0 with
    | Ok l => l
    | Err _ => []
    end.

(** The version 1 table written for [four_chunks_filled]. *)
Definition four_chunks_written_back : list byte := Eval vm_compute in
    match libewf_chunk_group_generate_table_entries_data four_chunks_filled
            1 (buffer_0xff 20) 20 4 0x100 with
    | Ok b => b
    | Err _ => []
    end.
(** * Properties *)

(** ** Machine integers and bytes *)

Lemma land_0x7fffffff (x : Z) : Z.land x 0x7fffffff = x mod 2 ^ 31.
Proof. exact (Z.land_ones x 31 ltac:(lia)). Qed.

Lemma land_255 (x : Z) : Z.land x 255 = x mod 2 ^ 8.
Proof. exact (Z.land_ones x 8 ltac:(lia)). Qed.

Lemma int64_small (z : Z) : - 2 ^ 63 <= z < 2 ^ 63 -> int64 z = z.
Proof.
  intros H. unfold int64.
  rewrite Z.mod_small by lia. lia.
Qed.

Lemma int64_range (z : Z) : - 2 ^ 63 <= int64 z < 2 ^ 63.
Proof.
  unfold int64.
  pose proof (Z.mod_pos_bound (z + 2 ^ 63) (2 ^ 64) ltac:(lia)). lia.
Qed.

Lemma int64_add_l (a b : Z) : int64 (int64 a + b) = int64 (a + b).
Proof.
  unfold int64.
  replace ((a + 2 ^ 63) mod 2 ^ 64 - 2 ^ 63 + b + 2 ^ 63)
    with ((a + 2 ^ 63) mod 2 ^ 64 + b) by lia.
  rewrite Z.add_mod_idemp_l by lia.
  f_equal. f_equal. lia.
Qed.

Lemma int64_sub_l (a b : Z) : int64 (int64 a - b) = int64 (a - b).
Proof.
  replace (int64 a - b) with (int64 a + - b) by lia.
  rewrite int64_add_l. reflexivity.
Qed.

Lemma int64_uint64 (z : Z) : int64 (uint64 z) = int64 z.
Proof.
  unfold int64, uint64.
  rewrite Z.add_mod_idemp_l by lia. reflexivity.
Qed.

Lemma uint32_range (z : Z) : 0 <= uint32 z < 2 ^ 32.
Proof. unfold uint32. apply Z.mod_pos_bound. lia. Qed.

Lemma uint32_small (z : Z) : 0 <= z < 2 ^ 32 -> uint32 z = z.
Proof. intros H. unfold uint32. apply Z.mod_small. lia. Qed.

Lemma byte_to_Z_range (b : byte) : 0 <= byte_to_Z b < 256.
Proof.
  unfold byte_to_Z. pose proof (Byte.to_N_bounded b). lia.
Qed.

Lemma byte_to_Z_to_byte (z : Z) : byte_to_Z (Z_to_byte z) = z mod 256.
Proof.
  unfold byte_to_Z, Z_to_byte.
  pose proof (Z.mod_pos_bound z 256 ltac:(lia)) as Hz.
  destruct (Byte.of_N (Z.to_N (z mod 256))) as [b|] eqn:E.
  - apply Byte.to_of_N in E. rewrite E. lia.
  - apply Byte.of_N_None_iff in E. lia.
Qed.

(** Shifting a value by a byte and putting a byte in with [|] is
    arithmetic on the base-256 digits. *)
Lemma shiftl_8_lor (x b : Z) :
  0 <= x -> 0 <= b < 256 -> Z.lor (Z.shiftl x 8) b = x * 256 + b.
Proof.
  intros Hx Hb.
  assert (Hland : Z.land (Z.shiftl x 8) b = 0).
  { apply Z.bits_inj'. intros n Hn.
    rewrite Z.land_spec, Z.bits_0.
    destruct (Z.ltb_spec n 8) as [Hlt|Hge].
    - rewrite Z.shiftl_spec_low by lia. reflexivity.
    - destruct (Z.eq_dec b 0) as [->|Hb0].
      + rewrite Z.bits_0. apply andb_false_r.
      + rewrite (Z.bits_above_log2 b n); [apply andb_false_r|lia|].
        assert (Z.log2 b < 8) by (apply Z.log2_lt_pow2; lia). lia. }
  rewrite <- Z.lxor_lor by exact Hland.
  rewrite <- Z.add_nocarry_lxor by exact Hland.
  rewrite Z.shiftl_mul_pow2 by lia. lia.
Qed.

Lemma copy_to_uint32_value (b0 b1 b2 b3 : byte) (rest : list byte) :
  byte_stream_copy_to_uint32_little_endian (b0 :: b1 :: b2 :: b3 :: rest)
  = Ok (byte_to_Z b0 + 256 * (byte_to_Z b1 + 256 * (byte_to_Z b2
        + 256 * byte_to_Z b3))).
Proof.
  pose proof (byte_to_Z_range b0). pose proof (byte_to_Z_range b1).
  pose proof (byte_to_Z_range b2). pose proof (byte_to_Z_range b3).
  unfold byte_stream_copy_to_uint32_little_endian.
  cbv zeta.
  rewrite (shiftl_8_lor (byte_to_Z b3)) by lia.
  rewrite (shiftl_8_lor (_ * 256 + byte_to_Z b2)) by lia.
  rewrite (shiftl_8_lor (_ * 256 + byte_to_Z b1)) by lia.
  f_equal. lia.
Qed.

Lemma Ok_inj {A : Type} (a b : A) : Ok a = Ok b -> a = b.
Proof. congruence. Qed.

Lemma copy_to_uint32_range (bs : list byte) (v : Z) :
  byte_stream_copy_to_uint32_little_endian bs = Ok v -> 0 <= v < 2 ^ 32.
Proof.
  destruct bs as [|b0 [|b1 [|b2 [|b3 rest]]]]; try discriminate.
  rewrite copy_to_uint32_value. intros H. apply Ok_inj in H. subst v.
  pose proof (byte_to_Z_range b0). pose proof (byte_to_Z_range b1).
  pose proof (byte_to_Z_range b2). pose proof (byte_to_Z_range b3).
  lia.
Qed.

Lemma table_entry_v1_range (data : list byte) (i v : Z) :
  table_entry_v1 data i = Ok v -> 0 <= v < 2 ^ 32.
Proof. apply copy_to_uint32_range. Qed.

(** A read of four bytes is inside the buffer exactly when it succeeds. *)
Lemma table_entry_v1_in_buffer (data : list byte) (i : Z) :
  0 <= i ->
  4 * i + 4 <= Z.of_nat (length data) ->
  exists v, table_entry_v1 data i = Ok v.
Proof.
  intros Hi Hlen. unfold table_entry_v1, sizeof_ewf_table_entry_v1_t.
  pose proof (length_skipn (Z.to_nat (4 * i)) data) as Hs.
  destruct (skipn (Z.to_nat (4 * i)) data) as [|b0 [|b1 [|b2 [|b3 rest]]]];
    cbn [length] in Hs; try lia.
  rewrite copy_to_uint32_value. eauto.
Qed.

Lemma table_entry_v1_outside (data : list byte) (i : Z) :
  0 <= i ->
  Z.of_nat (length data) < 4 * i + 4 ->
  table_entry_v1 data i = Err OUT_OF_BUFFER.
Proof.
  intros Hi Hlen. unfold table_entry_v1, sizeof_ewf_table_entry_v1_t.
  pose proof (length_skipn (Z.to_nat (4 * i)) data) as Hs.
  destruct (skipn (Z.to_nat (4 * i)) data) as [|b0 [|b1 [|b2 [|b3 rest]]]];
    cbn [length] in Hs; try reflexivity.
  lia.
Qed.

(** ** The result monad *)

Lemma bind_Ok {A B : Type} (r : result A) (k : A -> result B) (b : B) :
  bind r k = Ok b -> exists a, r = Ok a /\ k a = Ok b.
Proof. destruct r as [a|e]; simpl; [eauto|discriminate]. Qed.

Lemma or_fail_Ok {A : Type} (e : error) (o : option A) (a : A) :
  or_fail e o = Ok a -> o = Some a.
Proof. destruct o; simpl; congruence. Qed.

Ltac bind_inv H :=
  let a := fresh "a" in
  let Ha := fresh "Ha" in
  apply bind_Ok in H; destruct H as (a & Ha & H).

(** ** The chunks list *)

Lemma replace_nth_length (n : nat) (x : element) (l : libfdata_list_t) :
  length (replace_nth n x l) = length l.
Proof.
  revert n; induction l as [|y l IH]; intros [|n]; simpl; auto.
Qed.

Lemma replace_nth_app_end (l : libfdata_list_t) (x y : element) :
  replace_nth (length l) x (l ++ [y]) = l ++ [x].
Proof. induction l as [|z l IH]; simpl; [reflexivity|now rewrite IH]. Qed.

Lemma nth_error_replace_nth (n k : nat) (x : element) (l : libfdata_list_t) :
  nth_error (replace_nth n x l) k
  = if (k =? n)%nat then
      match nth_error l k with Some _ => Some x | None => None end
    else nth_error l k.
Proof.
  revert n k; induction l as [|y l IH]; intros [|n] [|k]; simpl; auto.
  destruct (k =? n)%nat; reflexivity.
Qed.

(** An append that succeeds adds one element at the end, with the mapped
    range it was given, to a list below [INT_MAX] elements. *)
Lemma append_chunk_Ok (l l' : libfdata_list_t)
    (file_io_pool_entry offset sz range_flags media_offset chunk_size : Z) :
  append_chunk l file_io_pool_entry offset sz range_flags media_offset
    chunk_size = Ok l' ->
  Z.of_nat (length l) < INT_MAX
  /\ l' = l ++ [ {| element_file_index := file_io_pool_entry;
                    element_offset := offset;
                    element_size := sz;
                    element_flags := range_flags;
                    mapped_range := Some (media_offset, chunk_size) |} ].
Proof.
  unfold append_chunk, libfdata_list_append_element. intros H.
  destruct (Z.leb_spec INT_MAX (Z.of_nat (length l))) as [Hfull|Hroom];
    [discriminate|].
  simpl in H.
  unfold libfdata_list_set_mapped_range_by_index,
    libfdata_list_get_element_by_index in H.
  destruct (Z.ltb_spec (Z.of_nat (length l)) 0) as [?|_]; [lia|].
  rewrite Nat2Z.id, nth_error_app2, Nat.sub_diag in H by lia.
  simpl in H. injection H as <-.
  split; [exact Hroom|]. apply replace_nth_app_end.
Qed.

Lemma append_chunk_room (l : libfdata_list_t)
    (file_io_pool_entry offset sz range_flags media_offset chunk_size : Z) :
  Z.of_nat (length l) < INT_MAX ->
  append_chunk l file_io_pool_entry offset sz range_flags media_offset
    chunk_size
  = Ok (l ++ [ {| element_file_index := file_io_pool_entry;
                  element_offset := offset;
                  element_size := sz;
                  element_flags := range_flags;
                  mapped_range := Some (media_offset, chunk_size) |} ]).
Proof.
  intros Hroom.
  unfold append_chunk, libfdata_list_append_element.
  destruct (Z.leb_spec INT_MAX (Z.of_nat (length l))) as [Hfull|_]; [lia|].
  simpl.
  unfold libfdata_list_set_mapped_range_by_index,
    libfdata_list_get_element_by_index.
  destruct (Z.ltb_spec (Z.of_nat (length l)) 0) as [?|_]; [lia|].
  rewrite Nat2Z.id, nth_error_app2, Nat.sub_diag by lia.
  simpl. now rewrite replace_nth_app_end.
Qed.

(** ** Range flags *)

Lemma fill_v1_range_flags_compressed (is_compressed corrupted tainted : Z) :
  has_flag (fill_v1_range_flags is_compressed corrupted tainted)
    LIBEWF_RANGE_FLAG_IS_COMPRESSED = negb (is_compressed =? 0).
Proof.
  unfold fill_v1_range_flags.
  destruct (is_compressed =? 0), (corrupted =? 0), (tainted =? 0);
    reflexivity.
Qed.

Lemma fill_v1_range_flags_checksum (is_compressed corrupted tainted : Z) :
  has_flag (fill_v1_range_flags is_compressed corrupted tainted)
    LIBEWF_RANGE_FLAG_HAS_CHECKSUM = (is_compressed =? 0).
Proof.
  unfold fill_v1_range_flags.
  destruct (is_compressed =? 0), (corrupted =? 0), (tainted =? 0);
    reflexivity.
Qed.

Lemma correct_v1_range_flags_compressed (is_compressed corrupted tainted : Z) :
  has_flag (correct_v1_range_flags is_compressed corrupted tainted)
    LIBEWF_RANGE_FLAG_IS_COMPRESSED = negb (is_compressed =? 0).
Proof.
  unfold correct_v1_range_flags.
  destruct (is_compressed =? 0), (corrupted =? 0), (tainted =? 0);
    reflexivity.
Qed.

Lemma correct_v1_range_flags_checksum (is_compressed corrupted tainted : Z) :
  has_flag (correct_v1_range_flags is_compressed corrupted tainted)
    LIBEWF_RANGE_FLAG_HAS_CHECKSUM = true.
Proof.
  unfold correct_v1_range_flags.
  destruct (is_compressed =? 0), (corrupted =? 0), (tainted =? 0);
    reflexivity.
Qed.

(** ** One turn of a version 1 loop *)

Lemma v1_current_offset_clear (st : v1_locals) :
  overflow st = 0 -> v1_current_offset st = stored_offset st mod 2 ^ 31.
Proof.
  intros H. unfold v1_current_offset. rewrite H. simpl (0 =? 0).
  cbv iota. apply land_0x7fffffff.
Qed.

Lemma v1_current_offset_set (st : v1_locals) :
  overflow st <> 0 -> v1_current_offset st = stored_offset st.
Proof.
  intros H. unfold v1_current_offset.
  destruct (Z.eqb_spec (overflow st) 0); [contradiction|reflexivity].
Qed.

Lemma v1_overflows_set (st : v1_locals) (current sz : Z) :
  overflow st <> 0 -> v1_overflows st current sz = false.
Proof.
  intros H. unfold v1_overflows.
  destruct (Z.eqb_spec (overflow st) 0); [contradiction|reflexivity].
Qed.

(** What a turn of the fill loop that returns has done. *)
Lemma fill_v1_entry_Ok (chunk_size file_io_pool_entry base_offset : Z)
    (data : list byte) (tainted i : Z) (st st' : v1_locals) :
  fill_v1_entry chunk_size file_io_pool_entry base_offset data tainted i st
  = Ok st' ->
  exists stored,
    table_entry_v1 data (i + 1) = Ok stored
    /\ Z.of_nat (length (chunks st)) < INT_MAX
    /\ stored_offset st' = stored
    /\ overflow st'
       = (if v1_overflows st (v1_current_offset st)
               (snd (v1_entry_size st stored)) then 1 else overflow st)
    /\ is_compressed st'
       = (if v1_overflows st (v1_current_offset st)
               (snd (v1_entry_size st stored)) then 0
          else v1_is_compressed st)
    /\ chunk_data_size st' = snd (v1_entry_size st stored)
    /\ storage_media_offset st'
       = int64 (storage_media_offset st + chunk_size)
    /\ chunks st'
       = chunks st
         ++ [ {| element_file_index := file_io_pool_entry;
                 element_offset :=
                   int64 (base_offset + v1_current_offset st);
                 element_size := snd (v1_entry_size st stored);
                 element_flags :=
                   fill_v1_range_flags (v1_is_compressed st)
                     (fst (v1_entry_size st stored)) tainted;
                 mapped_range :=
                   Some (storage_media_offset st, chunk_size) |} ].
Proof.
  unfold fill_v1_entry, v1_entry_size. intros H.
  bind_inv H. exists a. split; [exact Ha|].
  destruct (v1_chunk_data_size (v1_current_offset st) (v1_next_offset st a) a)
    as [corrupted sz].
  bind_inv H. apply append_chunk_Ok in Ha0. destruct Ha0 as [Hroom ->].
  apply Ok_inj in H. subst st'. simpl. auto 10.
Qed.

(** What a turn of the correct loop that returns has done. *)
Lemma correct_v1_entry_Ok (file_io_pool_entry base_offset : Z)
    (data : list byte) (tainted i : Z) (st st' : v1_locals) :
  correct_v1_entry file_io_pool_entry base_offset data tainted i st = Ok st' ->
  exists stored,
    table_entry_v1 data (i + 1) = Ok stored
    /\ stored_offset st' = stored
    /\ overflow st'
       = (if v1_overflows st (v1_current_offset st)
               (snd (v1_entry_size st stored)) then 1 else overflow st)
    /\ is_compressed st'
       = (if v1_overflows st (v1_current_offset st)
               (snd (v1_entry_size st stored)) then 0
          else v1_is_compressed st)
    /\ chunk_data_size st' = snd (v1_entry_size st stored)
    /\ correct_v1_element (chunks st) i file_io_pool_entry
         (int64 (base_offset + v1_current_offset st))
         (snd (v1_entry_size st stored))
         (correct_v1_range_flags (v1_is_compressed st)
            (fst (v1_entry_size st stored)) tainted)
         (fst (v1_entry_size st stored)) tainted
       = Ok (chunks st').
Proof.
  unfold correct_v1_entry, v1_entry_size. intros H.
  bind_inv H. exists a. split; [exact Ha|].
  destruct (v1_chunk_data_size (v1_current_offset st) (v1_next_offset st a) a)
    as [corrupted sz].
  bind_inv H. apply Ok_inj in H. subst st'. simpl. auto 10.
Qed.

(** The size of an entry and the [uint32_t] sum the overflow test
    makes. *)
Lemma v1_entry_size_sum (st : v1_locals) (stored : Z) :
  overflow st = 0 ->
  0 <= stored < 2 ^ 32 ->
  let current := v1_current_offset st in
  let sz := snd (v1_entry_size st stored) in
  0 <= current < 2 ^ 31
  /\ (current <= stored ->
      current + sz < 2 ^ 32
      /\ (current + sz > INT32_MAX -> stored > INT32_MAX))
  /\ (stored < current ->
      current + sz = stored + 2 ^ 32).
Proof.
  intros Hov Hst. cbv zeta.
  unfold v1_entry_size, v1_next_offset, v1_chunk_data_size.
  rewrite (v1_current_offset_clear st Hov), Hov. simpl (0 =? 0). cbv iota.
  rewrite land_0x7fffffff.
  set (current := stored_offset st mod 2 ^ 31).
  assert (Hc : 0 <= current < 2 ^ 31) by (apply Z.mod_pos_bound; lia).
  assert (Hn : 0 <= stored mod 2 ^ 31 < 2 ^ 31)
    by (apply Z.mod_pos_bound; lia).
  assert (Hs : stored = stored mod 2 ^ 31
               \/ stored = stored mod 2 ^ 31 + 2 ^ 31).
  { pose proof (Z.div_mod stored (2 ^ 31) ltac:(lia)) as E.
    assert (stored / 2 ^ 31 = 0 \/ stored / 2 ^ 31 = 1) as [D|D]; [|lia|lia].
    assert (0 <= stored / 2 ^ 31 < 2); [|lia].
    split; [apply Z.div_pos; lia|apply Z.div_lt_upper_bound; lia]. }
  unfold INT32_MAX.
  split; [exact Hc|].
  destruct (Z.ltb_spec (stored mod 2 ^ 31) current) as [Hlt|Hge]; simpl snd.
  - split; intros Hcmp.
    + rewrite uint32_small by lia. lia.
    + unfold uint32.
      replace (stored - current)
        with (stored - current + 2 ^ 32 + (-1) * 2 ^ 32) by lia.
      rewrite Z.mod_add by lia. rewrite Z.mod_small by lia. lia.
  - split; intros Hcmp.
    + rewrite uint32_small by lia. lia.
    + lia.
Qed.

(** ** The overflow test *)

Lemma v1_overflow_after (st : v1_locals) (current sz : Z) :
  overflow st = 0 ->
  (if v1_overflows st current sz then 1 else overflow st) <> 0
  <-> uint32 (current + sz) > INT32_MAX.
Proof.
  intros Hov. unfold v1_overflows. rewrite Hov. simpl (0 =? 0).
  cbv [andb].
  destruct (Z.gtb_spec (uint32 (current + sz)) INT32_MAX); split; intros;
    (lia || congruence || discriminate).
Qed.

(** C4 (amended): after a loop turn of the fill or of the correct pass
    that started with the overflow flag clear, the flag is set exactly
    when the sum current + size reduced modulo 2^32 exceeds INT32_MAX.
    The reduced sum is the exact sum when the next stored offset is not
    below current; when it is below, the size has wrapped, the exact sum
    is above INT32_MAX and the flag stays clear. *)
Theorem overflow_set_iff_uint32_sum_exceeds :
  forall (chunk_size file_io_pool_entry base_offset : Z) (data : list byte)
         (tainted i : Z) (st st' : v1_locals),
    overflow st = 0 ->
    fill_v1_entry chunk_size file_io_pool_entry base_offset data tainted i st
      = Ok st' \/
    correct_v1_entry file_io_pool_entry base_offset data tainted i st
      = Ok st' ->
    (overflow st' <> 0
     <-> uint32 (v1_current_offset st + chunk_data_size st') > INT32_MAX)
    /\ (v1_current_offset st <= stored_offset st' ->
        uint32 (v1_current_offset st + chunk_data_size st')
        = v1_current_offset st + chunk_data_size st')
    /\ (stored_offset st' < v1_current_offset st ->
        overflow st' = 0
        /\ v1_current_offset st + chunk_data_size st' > INT32_MAX).
Proof.
  intros chunk_size pool base data tainted i st st' Hov Hstep.
  assert (exists stored,
    table_entry_v1 data (i + 1) = Ok stored
    /\ stored_offset st' = stored
    /\ overflow st'
       = (if v1_overflows st (v1_current_offset st)
               (snd (v1_entry_size st stored)) then 1 else overflow st)
    /\ chunk_data_size st' = snd (v1_entry_size st stored))
    as (stored & Hread & Hs & Ho & Hsz).
  { destruct Hstep as [H|H].
    - apply fill_v1_entry_Ok in H.
      destruct H as (s & ? & ? & ? & ? & ? & ? & ?). exists s. auto.
    - apply correct_v1_entry_Ok in H.
      destruct H as (s & ? & ? & ? & ? & ? & ?). exists s. auto. }
  apply table_entry_v1_range in Hread.
  destruct (v1_entry_size_sum st stored Hov Hread) as (Hc & Hge & Hlt).
  rewrite Hs, Hsz.
  assert (Hiff : overflow st' <> 0
    <-> uint32 (v1_current_offset st + snd (v1_entry_size st stored))
        > INT32_MAX)
    by (rewrite Ho; apply v1_overflow_after; exact Hov).
  split; [exact Hiff|]. split.
  - intros Hle. apply uint32_small. specialize (Hge Hle).
    pose proof (uint32_range (snd (v1_entry_size st stored))).
    assert (0 <= snd (v1_entry_size st stored)).
    { unfold v1_entry_size, v1_chunk_data_size.
      destruct (_ <? _); simpl; apply uint32_range. }
    lia.
  - intros Hbelow. specialize (Hlt Hbelow).
    assert (Hsum : uint32 (v1_current_offset st
                           + snd (v1_entry_size st stored)) = stored).
    { rewrite Hlt. unfold uint32.
      replace (stored + 2 ^ 32) with (stored + 1 * 2 ^ 32) by lia.
      rewrite Z.mod_add by lia. apply Z.mod_small. lia. }
    split.
    + destruct (Z.eq_dec (overflow st') 0) as [E|E]; [exact E|].
      apply Hiff in E. rewrite Hsum in E. unfold INT32_MAX in E. lia.
    + unfold INT32_MAX. lia.
Qed.

Lemma overflow_set_iff_uint32_sum_exceeds_witness :
  overflow (v1_initial [] 0x40000000) = 0
  /\ exists st',
       fill_v1_entry 0x10000 0 0 table_past_2GiB 0 0
         (v1_initial [] 0x40000000) = Ok st'
       /\ overflow st' <> 0
       /\ uint32 (v1_current_offset (v1_initial [] 0x40000000)
                  + chunk_data_size st') > INT32_MAX.
Proof.
  split; [reflexivity|].
  eexists. split; [reflexivity|].
  refine ((fun H (P : _ <-> _) => conj (proj2 P H) H) _ _).
  - vm_compute. reflexivity.
  - refine (proj1 (overflow_set_iff_uint32_sum_exceeds 0x10000 0 0
              table_past_2GiB 0 0 (v1_initial [] 0x40000000) _ _ _)).
    + reflexivity.
    + left. reflexivity.
Defined.

(** C4, as the claim states it, fails on the table 0x10, 0x05: the turn
    for the first entry starts with the flag clear, the exact sum of
    current and the size it derives is above INT32_MAX, and the flag is
    still clear after it. *)
Lemma overflow_clear_though_exact_sum_exceeds :
  exists st',
    fill_v1_entry 0x10000 0 0 table_going_back 0 0 (v1_initial [] 0x10)
      = Ok st'
    /\ overflow (v1_initial [] 0x10) = 0
    /\ v1_current_offset (v1_initial [] 0x10) = 0x10
    /\ chunk_data_size st' = 0xfffffff5
    /\ v1_current_offset (v1_initial [] 0x10) + chunk_data_size st'
       > INT32_MAX
    /\ overflow st' = 0.
Proof.
  eexists. split; [reflexivity|]. vm_compute. intuition congruence.
Qed.

(** ** Loops *)

(** Induction over the turns of the fill loop: an invariant [I] of the
    locals, and a property [P] of the element each turn appends. *)
Section FillLoop.

Variables chunk_size file_io_pool_entry base_offset : Z.
Variable data : list byte.
Variable tainted : Z.
Variable I : Z -> v1_locals -> Prop.
Variable P : Z -> element -> Prop.

Hypothesis turn :
  forall i st st',
    I i st ->
    fill_v1_entry chunk_size file_io_pool_entry base_offset data tainted
      i st = Ok st' ->
    I (i + 1) st'
    /\ exists e, chunks st' = chunks st ++ [e] /\ P i e.

Lemma fill_v1_loop_ind :
  forall (n : nat) (i : Z) (st st' : v1_locals),
    I i st ->
    fill_v1_loop chunk_size file_io_pool_entry base_offset data tainted
      n i st = Ok st' ->
    I (i + Z.of_nat n) st'
    /\ exists added,
         chunks st' = chunks st ++ added
         /\ length added = n
         /\ forall (k : nat) (e : element),
              nth_error added k = Some e -> P (i + Z.of_nat k) e.
Proof.
  induction n as [|n IH]; intros i st st' Hi Hloop.
  - simpl in Hloop. apply Ok_inj in Hloop. subst st'.
    rewrite Z.add_0_r. split; [exact Hi|].
    exists []. rewrite app_nil_r. repeat split.
    intros [|k] e; discriminate.
  - simpl in Hloop. bind_inv Hloop.
    destruct (turn i st a Hi Ha) as (Hi1 & e & He & HP).
    destruct (IH (i + 1) a st' Hi1 Hloop)
      as (Hin & added & Hadd & Hlen & Hall).
    replace (i + Z.of_nat (S n)) with (i + 1 + Z.of_nat n) by lia.
    split; [exact Hin|].
    exists (e :: added). rewrite Hadd, He, <- app_assoc. simpl.
    repeat split; [now rewrite Hlen|].
    intros [|k] e' Hk; simpl in Hk.
    + apply (f_equal (fun o => match o with Some x => x | None => e end))
        in Hk.
      simpl in Hk. subst e'. rewrite Z.add_0_r. exact HP.
    + replace (i + Z.of_nat (S k)) with (i + 1 + Z.of_nat k) by lia.
      apply Hall. exact Hk.
Qed.

End FillLoop.

(** Induction over the turns of the correct loop: an invariant [I] of
  the locals, and a preorder [R] between the list before and after. *)
Section CorrectLoop.

Variables file_io_pool_entry base_offset : Z.
Variable data : list byte.
Variable tainted : Z.
Variable I : Z -> v1_locals -> Prop.
Variable R : libfdata_list_t -> libfdata_list_t -> Prop.

Hypothesis R_refl : forall l, R l l.
Hypothesis R_trans : forall l1 l2 l3, R l1 l2 -> R l2 l3 -> R l1 l3.
Hypothesis turn :
  forall i st st',
    I i st ->
    correct_v1_entry file_io_pool_entry base_offset data tainted i st
      = Ok st' ->
    I (i + 1) st' /\ R (chunks st) (chunks st').

Lemma correct_v1_loop_ind :
  forall (n : nat) (i : Z) (st st' : v1_locals),
    I i st ->
    correct_v1_loop file_io_pool_entry base_offset data tainted n i st
      = Ok st' ->
    I (i + Z.of_nat n) st' /\ R (chunks st) (chunks st').
Proof.
  induction n as [|n IH]; intros i st st' Hi Hloop.
  - simpl in Hloop. apply Ok_inj in Hloop. subst st'.
    rewrite Z.add_0_r. auto.
  - simpl in Hloop. bind_inv Hloop.
    destruct (turn i st a Hi Ha) as (Hi1 & HR).
    destruct (IH (i + 1) a st' Hi1 Hloop) as (Hin & HR').
    replace (i + Z.of_nat (S n)) with (i + 1 + Z.of_nat n) by lia.
    eauto.
Qed.

End CorrectLoop.

(** What a comparison with the list that returns has done. *)
Lemma correct_v1_element_Ok (l l' : libfdata_list_t)
    (i file_io_pool_entry offset sz range_flags corrupted tainted : Z) :
  correct_v1_element l i file_io_pool_entry offset sz range_flags corrupted
    tainted = Ok l' ->
  exists previous,
    0 <= int32 i
    /\ nth_error l (Z.to_nat (int32 i)) = Some previous
    /\ l' = if v1_update_data_range
                 (v1_mismatch offset sz range_flags previous) corrupted
                 tainted (element_flags previous)
            then replace_nth (Z.to_nat (int32 i))
                   {| element_file_index := file_io_pool_entry;
                      element_offset := offset;
                      element_size := sz;
                      element_flags := range_flags;
                      mapped_range := mapped_range previous |} l
            else l.
Proof.
  unfold correct_v1_element. intros H. bind_inv H.
  apply or_fail_Ok in Ha. exists a.
  unfold libfdata_list_set_element_by_index in H. rewrite Ha in H.
  unfold libfdata_list_get_element_by_index in Ha.
  destruct (Z.ltb_spec (int32 i) 0) as [?|Hpos]; [discriminate|].
  repeat split; [exact Hpos|exact Ha|].
  destruct (v1_update_data_range _ _ _ _); simpl in H; congruence.
Qed.

(** ** The overflow flag is a latch *)

Lemma kept_or_not_compressed_refl (l : libfdata_list_t) :
  kept_or_not_compressed l l.
Proof. split; auto. Qed.

Lemma kept_or_not_compressed_trans (l1 l2 l3 : libfdata_list_t) :
  kept_or_not_compressed l1 l2 -> kept_or_not_compressed l2 l3 ->
  kept_or_not_compressed l1 l3.
Proof.
  intros [Hlen12 H12] [Hlen23 H23]. split; [congruence|].
  intros k e' Hk. destruct (H23 k e' Hk) as [Hkept|Hnc]; auto.
Qed.

Lemma correct_v1_element_not_compressed (l l' : libfdata_list_t)
    (i file_io_pool_entry offset sz range_flags corrupted tainted : Z) :
  has_flag range_flags LIBEWF_RANGE_FLAG_IS_COMPRESSED = false ->
  correct_v1_element l i file_io_pool_entry offset sz range_flags corrupted
    tainted = Ok l' ->
  kept_or_not_compressed l l'.
Proof.
  intros Hflag H. apply correct_v1_element_Ok in H.
  destruct H as (previous & Hpos & Hnth & ->).
  destruct (v1_update_data_range _ _ _ _);
    [|apply kept_or_not_compressed_refl].
  split; [apply replace_nth_length|].
  intros k e' Hk. rewrite nth_error_replace_nth in Hk.
  destruct (k =? Z.to_nat (int32 i))%nat; [|auto].
  destruct (nth_error l k); [|discriminate].
  right. injection Hk as <-. exact Hflag.
Qed.

Lemma v1_latched_next (st st' : v1_locals) (current sz : Z) :
  v1_latched st ->
  overflow st' = (if v1_overflows st current sz then 1 else overflow st) ->
  is_compressed st'
  = (if v1_overflows st current sz then 0 else v1_is_compressed st) ->
  v1_latched st'
  /\ (overflow st <> 0 -> overflow st' <> 0).
Proof.
  unfold v1_latched, v1_is_compressed, v1_overflows.
  intros Hl Ho Hc. rewrite Ho, Hc.
  destruct (Z.eqb_spec (overflow st) 0) as [E|E]; simpl.
  - split; [|congruence].
    destruct (_ >? _); [reflexivity|congruence].
  - auto.
Qed.

Lemma v1_latched_is_compressed (st : v1_locals) :
  v1_latched st -> overflow st <> 0 -> v1_is_compressed st = 0.
Proof.
  unfold v1_latched, v1_is_compressed. intros Hl Ho.
  destruct (Z.eqb_spec (overflow st) 0); [contradiction|auto].
Qed.

Lemma fill_v1_entry_latched (chunk_size file_io_pool_entry base_offset : Z)
    (data : list byte) (tainted i : Z) (st st' : v1_locals) :
  v1_latched st ->
  fill_v1_entry chunk_size file_io_pool_entry base_offset data tainted i st
  = Ok st' ->
  v1_latched st'
  /\ (overflow st <> 0 ->
      overflow st' <> 0
      /\ exists e, chunks st' = chunks st ++ [e] /\ not_compressed e).
Proof.
  intros Hl H. apply fill_v1_entry_Ok in H.
  destruct H as (stored & _ & _ & _ & Ho & Hc & _ & _ & Hch).
  destruct (v1_latched_next st st' _ _ Hl Ho Hc) as [Hl' Hmono].
  split; [exact Hl'|]. intros Hset. split; [auto|].
  eexists. split; [exact Hch|].
  unfold not_compressed. simpl.
  rewrite fill_v1_range_flags_compressed,
    (v1_latched_is_compressed st Hl Hset). reflexivity.
Qed.

Lemma correct_v1_entry_latched (file_io_pool_entry base_offset : Z)
    (data : list byte) (tainted i : Z) (st st' : v1_locals) :
  v1_latched st ->
  correct_v1_entry file_io_pool_entry base_offset data tainted i st = Ok st' ->
  v1_latched st'
  /\ (overflow st <> 0 ->
      overflow st' <> 0 /\ kept_or_not_compressed (chunks st) (chunks st')).
Proof.
  intros Hl H. apply correct_v1_entry_Ok in H.
  destruct H as (stored & _ & _ & Ho & Hc & _ & Hel).
  destruct (v1_latched_next st st' _ _ Hl Ho Hc) as [Hl' Hmono].
  split; [exact Hl'|]. intros Hset. split; [auto|].
  eapply correct_v1_element_not_compressed; [|exact Hel].
  rewrite correct_v1_range_flags_compressed,
    (v1_latched_is_compressed st Hl Hset). reflexivity.
Qed.

Lemma fill_v1_last_Ok (chunk_size file_io_pool_entry : Z)
    (table_section : libewf_section_t) (base_offset tainted : Z)
    (st : v1_locals) (l' : libfdata_list_t) :
  fill_v1_last chunk_size file_io_pool_entry table_section base_offset
    tainted st = Ok l' ->
  let last_chunk_data_offset := int64 (base_offset + v1_current_offset st) in
  let last_chunk_data_size :=
    v1_last_chunk_data_size table_section last_chunk_data_offset in
  Z.of_nat (length (chunks st)) < INT_MAX
  /\ l' = chunks st
          ++ [ {| element_file_index := file_io_pool_entry;
                  element_offset := last_chunk_data_offset;
                  element_size := uint64 last_chunk_data_size;
                  element_flags :=
                    fill_v1_range_flags (v1_is_compressed st)
                      (v1_last_corrupted last_chunk_data_size) tainted;
                  mapped_range :=
                    Some (storage_media_offset st, chunk_size) |} ].
Proof.
  unfold fill_v1_last. intros H.
  destruct (_ >? INT64_MAX); [discriminate|].
  apply append_chunk_Ok in H. exact H.
Qed.

(** C3: in a version 1 fill or correct pass the overflow flag, once set,
    stays set, and no element appended (fill) or written (correct) by a
    later turn of the loop or for the last entry is tagged IS_COMPRESSED.
    [st1] is the state of a pass after any number of turns, [st2] the
    state any number of turns later. *)
Theorem overflow_is_a_latch :
  forall (chunk_size file_io_pool_entry base_offset : Z)
         (table_section : libewf_section_t) (data : list byte)
         (tainted stored last_index : Z) (l : libfdata_list_t)
         (n m : nat) (st1 st2 : v1_locals),
    (fill_v1_loop chunk_size file_io_pool_entry base_offset data tainted
       n 0 (v1_initial l stored) = Ok st1 ->
     overflow st1 <> 0 ->
     fill_v1_loop chunk_size file_io_pool_entry base_offset data tainted
       m (Z.of_nat n) st1 = Ok st2 ->
     overflow st2 <> 0
     /\ (exists added,
           chunks st2 = chunks st1 ++ added
           /\ length added = m
           /\ Forall not_compressed added)
     /\ forall l',
          fill_v1_last chunk_size file_io_pool_entry table_section
            base_offset tainted st2 = Ok l' ->
          exists e, l' = chunks st2 ++ [e] /\ not_compressed e)
    /\
    (correct_v1_loop file_io_pool_entry base_offset data tainted
       n 0 (v1_initial l stored) = Ok st1 ->
     overflow st1 <> 0 ->
     correct_v1_loop file_io_pool_entry base_offset data tainted
       m (Z.of_nat n) st1 = Ok st2 ->
     overflow st2 <> 0
     /\ kept_or_not_compressed (chunks st1) (chunks st2)
     /\ forall l',
          correct_v1_last file_io_pool_entry table_section base_offset
            tainted last_index st2 = Ok l' ->
          kept_or_not_compressed (chunks st2) l').
Proof.
  intros chunk_size pool base section data tainted stored last_index l n m
    st1 st2.
  assert (Hinit : v1_latched (v1_initial l stored))
    by (intros H; reflexivity).
  split; intros Hpre Hset Hpost.
  - (* fill *)
    assert (Hl1 : v1_latched st1).
    { eapply (fill_v1_loop_ind _ _ _ _ _ (fun _ st => v1_latched st)
                (fun _ _ => True)); [|exact Hinit|exact Hpre].
      intros i st st' Hl Hstep.
      destruct (fill_v1_entry_latched _ _ _ _ _ _ _ _ Hl Hstep) as [Hl' _].
      split; [exact Hl'|].
      apply fill_v1_entry_Ok in Hstep.
      destruct Hstep as (? & _ & _ & _ & _ & _ & _ & _ & Hch). eauto. }
    destruct (fill_v1_loop_ind chunk_size pool base data tainted
                (fun _ st => v1_latched st /\ overflow st <> 0)
                (fun _ e => not_compressed e)) with
      (n := m) (i := Z.of_nat n) (st := st1) (st' := st2)
      as ((Hl2 & Hset2) & added & Hadd & Hlen & Hall); auto.
    { intros i st st' [Hl Ho] Hstep.
      destruct (fill_v1_entry_latched _ _ _ _ _ _ _ _ Hl Hstep) as [Hl' Hn].
      destruct (Hn Ho) as (Ho' & e & He & Hnc). eauto. }
    split; [exact Hset2|]. split.
    + exists added. repeat split; auto.
      apply Forall_forall. intros e Hin.
      apply In_nth_error in Hin. destruct Hin as [k Hk]. eauto.
    + intros l' Hlast. apply fill_v1_last_Ok in Hlast.
      destruct Hlast as [_ ->]. eexists. split; [reflexivity|].
      unfold not_compressed. simpl.
      rewrite fill_v1_range_flags_compressed,
        (v1_latched_is_compressed st2 Hl2 Hset2). reflexivity.
  - (* correct *)
    assert (Hl1 : v1_latched st1).
    { eapply (correct_v1_loop_ind _ _ _ _ (fun _ st => v1_latched st)
                (fun _ _ => True)); [auto|auto| |exact Hinit|exact Hpre].
      intros i st st' Hl Hstep.
      destruct (correct_v1_entry_latched _ _ _ _ _ _ _ Hl Hstep) as [Hl' _].
      auto. }
    destruct (correct_v1_loop_ind pool base data tainted
                (fun _ st => v1_latched st /\ overflow st <> 0)
                kept_or_not_compressed
                kept_or_not_compressed_refl kept_or_not_compressed_trans)
      with (n := m) (i := Z.of_nat n) (st := st1) (st' := st2)
      as ((Hl2 & Hset2) & Hkept); auto.
    { intros i st st' [Hl Ho] Hstep.
      destruct (correct_v1_entry_latched _ _ _ _ _ _ _ Hl Hstep) as [Hl' Hn].
      destruct (Hn Ho) as (Ho' & Hk). auto. }
    split; [exact Hset2|]. split; [exact Hkept|].
    intros l' Hlast. unfold correct_v1_last in Hlast.
    destruct (_ >? INT64_MAX); [discriminate|].
    eapply correct_v1_element_not_compressed; [|exact Hlast].
    rewrite correct_v1_range_flags_compressed,
      (v1_latched_is_compressed st2 Hl2 Hset2). reflexivity.
Qed.

Lemma overflow_is_a_latch_witness :
  fill_v1_loop 0x10000 0 0 table_past_2GiB 0 1 0 (v1_initial [] 0x40000000)
  = Ok past_2GiB_after_1
  /\ overflow past_2GiB_after_1 <> 0
  /\ fill_v1_loop 0x10000 0 0 table_past_2GiB 0 1 1 past_2GiB_after_1
     = Ok past_2GiB_after_2
  /\ overflow past_2GiB_after_2 <> 0
  /\ exists added,
       chunks past_2GiB_after_2 = chunks past_2GiB_after_1 ++ added
       /\ length added = 1%nat
       /\ Forall not_compressed added.
Proof.
  split; [vm_compute; reflexivity|].
  split; [vm_compute; discriminate|].
  split; [vm_compute; reflexivity|].
  refine ((fun H => conj (proj1 H) (proj1 (proj2 H))) _).
  refine (proj1 (overflow_is_a_latch 0x10000 0 0
                   {| start_offset := 0; end_offset := 0; size := 0 |}
                   table_past_2GiB 0 0x40000000 2 [] 1 1
                   past_2GiB_after_1 past_2GiB_after_2) _ _ _).
  - vm_compute. reflexivity.
  - vm_compute. discriminate.
  - vm_compute. reflexivity.
Defined.

(** ** The errors a pass can return *)

Lemma bind_Err {A B : Type} (r : result A) (k : A -> result B) (e : error) :
  bind r k = Err e -> r = Err e \/ exists a, r = Ok a /\ k a = Err e.
Proof.
  destruct r as [a|e']; simpl; intros H; [right; eauto|left].
  injection H as ->. reflexivity.
Qed.

Lemma table_entry_v1_Err (data : list byte) (i : Z) (e : error) :
  table_entry_v1 data i = Err e -> e = OUT_OF_BUFFER.
Proof.
  unfold table_entry_v1, byte_stream_copy_to_uint32_little_endian.
  destruct (skipn _ data) as [|b0 [|b1 [|b2 [|b3 rest]]]]; congruence.
Qed.

Lemma append_chunk_Err (l : libfdata_list_t)
    (file_io_pool_entry offset sz range_flags media_offset chunk_size : Z)
    (e : error) :
  append_chunk l file_io_pool_entry offset sz range_flags media_offset
    chunk_size = Err e ->
  e = RUNTIME_ERROR_APPEND_FAILED.
Proof.
  unfold append_chunk. intros H.
  apply bind_Err in H. destruct H as [H|(a & _ & H)].
  - destruct (libfdata_list_append_element _ _ _ _ _); simpl in H; congruence.
  - destruct (libfdata_list_set_mapped_range_by_index _ _ _ _);
      simpl in H; congruence.
Qed.

Lemma correct_v1_element_Err (l : libfdata_list_t)
    (i file_io_pool_entry offset sz range_flags corrupted tainted : Z)
    (e : error) :
  correct_v1_element l i file_io_pool_entry offset sz range_flags corrupted
    tainted = Err e ->
  e = RUNTIME_ERROR_GET_FAILED \/ e = RUNTIME_ERROR_SET_FAILED.
Proof.
  unfold correct_v1_element. intros H.
  apply bind_Err in H. destruct H as [H|(a & _ & H)].
  - destruct (libfdata_list_get_element_by_index _ _); simpl in H;
      [discriminate|left; congruence].
  - destruct (v1_update_data_range _ _ _ _); [|discriminate].
    destruct (libfdata_list_set_element_by_index _ _ _ _ _ _); simpl in H;
      [discriminate|right; congruence].
Qed.

Lemma fill_v1_entry_Err (chunk_size file_io_pool_entry base_offset : Z)
    (data : list byte) (tainted i : Z) (st : v1_locals) (e : error) :
  fill_v1_entry chunk_size file_io_pool_entry base_offset data tainted i st
  = Err e ->
  e = OUT_OF_BUFFER \/ e = RUNTIME_ERROR_APPEND_FAILED.
Proof.
  unfold fill_v1_entry. intros H.
  apply bind_Err in H. destruct H as [H|(a & _ & H)].
  - left. eapply table_entry_v1_Err, H.
  - destruct (v1_chunk_data_size _ _ _) as [corrupted sz].
    apply bind_Err in H. destruct H as [H|(l & _ & H)]; [|discriminate].
    right. eapply append_chunk_Err, H.
Qed.

Lemma correct_v1_entry_Err (file_io_pool_entry base_offset : Z)
    (data : list byte) (tainted i : Z) (st : v1_locals) (e : error) :
  correct_v1_entry file_io_pool_entry base_offset data tainted i st = Err e ->
  e = OUT_OF_BUFFER \/ e = RUNTIME_ERROR_GET_FAILED
  \/ e = RUNTIME_ERROR_SET_FAILED.
Proof.
  unfold correct_v1_entry. intros H.
  apply bind_Err in H. destruct H as [H|(a & _ & H)].
  - left. eapply table_entry_v1_Err, H.
  - destruct (v1_chunk_data_size _ _ _) as [corrupted sz].
    apply bind_Err in H. destruct H as [H|(l & _ & H)]; [|discriminate].
    right. eapply correct_v1_element_Err, H.
Qed.

Lemma fill_v1_loop_Err (chunk_size file_io_pool_entry base_offset : Z)
    (data : list byte) (tainted : Z) (n : nat) (i : Z) (st : v1_locals)
    (e : error) :
  fill_v1_loop chunk_size file_io_pool_entry base_offset data tainted n i st
  = Err e ->
  e = OUT_OF_BUFFER \/ e = RUNTIME_ERROR_APPEND_FAILED.
Proof.
  revert i st. induction n as [|n IH]; intros i st H; [discriminate|].
  simpl in H. apply bind_Err in H. destruct H as [H|(a & _ & H)].
  - eapply fill_v1_entry_Err, H.
  - eapply IH, H.
Qed.

Lemma correct_v1_loop_Err (file_io_pool_entry base_offset : Z)
    (data : list byte) (tainted : Z) (n : nat) (i : Z) (st : v1_locals)
    (e : error) :
  correct_v1_loop file_io_pool_entry base_offset data tainted n i st = Err e ->
  e = OUT_OF_BUFFER \/ e = RUNTIME_ERROR_GET_FAILED
  \/ e = RUNTIME_ERROR_SET_FAILED.
Proof.
  revert i st. induction n as [|n IH]; intros i st H; [discriminate|].
  simpl in H. apply bind_Err in H. destruct H as [H|(a & _ & H)].
  - eapply correct_v1_entry_Err, H.
  - eapply IH, H.
Qed.

(** An [off64_t] is never above INT64_MAX: the test on the offset of the
    last chunk cannot succeed. *)
Lemma last_chunk_data_offset_test (z : Z) : (int64 z >? INT64_MAX) = false.
Proof.
  pose proof (int64_range z). unfold INT64_MAX.
  destruct (Z.gtb_spec (int64 z) (2 ^ 63 - 1)); [lia|reflexivity].
Qed.

(** Neither pass ever returns the error of that test. *)
Lemma last_chunk_offset_error_never_returned
    (l : libfdata_list_t) (chunk_size file_io_pool_entry : Z)
    (table_section : libewf_section_t) (base_offset number_of_entries : Z)
    (data : list byte) (data_size tainted : Z) :
  libewf_chunk_group_fill_v1 l chunk_size file_io_pool_entry table_section
    base_offset number_of_entries data data_size tainted
  <> Err RUNTIME_ERROR_VALUE_EXCEEDS_MAXIMUM
  /\ libewf_chunk_group_correct_v1 l chunk_size file_io_pool_entry
       table_section base_offset number_of_entries data data_size tainted
     <> Err RUNTIME_ERROR_VALUE_EXCEEDS_MAXIMUM.
Proof.
  split; intros H.
  - unfold libewf_chunk_group_fill_v1 in H.
    destruct (base_offset <? 0); [discriminate|].
    destruct (data_size >? SSIZE_MAX); [discriminate|].
    apply bind_Err in H. destruct H as [H|(stored & _ & H)].
    { apply table_entry_v1_Err in H. discriminate. }
    apply bind_Err in H. destruct H as [H|(st & _ & H)].
    { apply fill_v1_loop_Err in H. destruct H; discriminate. }
    unfold fill_v1_last in H. rewrite last_chunk_data_offset_test in H.
    apply append_chunk_Err in H. discriminate.
  - unfold libewf_chunk_group_correct_v1 in H.
    destruct (base_offset <? 0); [discriminate|].
    destruct (data_size >? SSIZE_MAX); [discriminate|].
    apply bind_Err in H. destruct H as [H|(stored & _ & H)].
    { apply table_entry_v1_Err in H. discriminate. }
    apply bind_Err in H. destruct H as [H|(st & _ & H)].
    { apply correct_v1_loop_Err in H. destruct H as [H|[H|H]]; discriminate. }
    unfold correct_v1_last in H. rewrite last_chunk_data_offset_test in H.
    apply correct_v1_element_Err in H. destruct H; discriminate.
Qed.

(** C5: with base offset INT64_MAX and a table of one entry whose stored
    offset is 1, the offset of the last chunk, base_offset + current, is
    above INT64_MAX as an exact integer, and neither pass returns the
    error of the test on it: the fill pass appends an element at the
    wrapped offset and returns success, and the correct pass compares,
    leaves the list as it is and returns success. *)
Theorem last_chunk_offset_above_INT64_MAX_not_reported :
  INT64_MAX + v1_current_offset (v1_initial [] 1) > INT64_MAX
  /\ libewf_chunk_group_fill_v1 [] 0x8000 0 section_0x1000_0x2000
       INT64_MAX 1 table_one_entry 4 0
     = Ok [ {| element_file_index := 0;
               element_offset := - 2 ^ 63;
               element_size := uint64 (int64 (0x1000 + 2 ^ 63));
               element_flags :=
                 Z.lor LIBEWF_RANGE_FLAG_HAS_CHECKSUM
                   LIBEWF_RANGE_FLAG_IS_CORRUPTED;
               mapped_range := Some (0, 0x8000) |} ]
  /\ libewf_chunk_group_correct_v1 one_chunk_list 0x8000 0
       section_0x1000_0x2000 INT64_MAX 1 table_one_entry 4 0
     = Ok one_chunk_list.
Proof.
  split; [vm_compute; reflexivity|].
  split; vm_compute; reflexivity.
Qed.

(** ** What the fill pass appends *)

Lemma int64_eqm (z : Z) : exists q, int64 z = z + q * 2 ^ 64.
Proof.
  unfold int64.
  exists (- ((z + 2 ^ 63) / 2 ^ 64)).
  pose proof (Z.div_mod (z + 2 ^ 63) (2 ^ 64) ltac:(lia)). lia.
Qed.

Lemma v1_current_offset_eqm (st : v1_locals) :
  exists q, v1_current_offset st = stored_offset st + q * 2 ^ 31.
Proof.
  unfold v1_current_offset. destruct (overflow st =? 0).
  - rewrite land_0x7fffffff. exists (- (stored_offset st / 2 ^ 31)).
    pose proof (Z.div_mod (stored_offset st) (2 ^ 31) ltac:(lia)). lia.
  - exists 0. lia.
Qed.

(** The offset of the element of an entry is the base offset plus the
    stored offset of the entry, up to the top bit and the wrap. *)
Lemma v1_element_offset_eqm (base_offset : Z) (st : v1_locals) :
  (int64 (base_offset + v1_current_offset st)
   - (base_offset + stored_offset st)) mod 2 ^ 31 = 0.
Proof.
  destruct (int64_eqm (base_offset + v1_current_offset st)) as [q ->].
  destruct (v1_current_offset_eqm st) as [q' ->].
  replace (base_offset + (stored_offset st + q' * 2 ^ 31) + q * 2 ^ 64
           - (base_offset + stored_offset st))
    with ((q' + q * 2 ^ 33) * 2 ^ 31) by lia.
  apply Z_mod_mult.
Qed.

Lemma fill_v1_loop_elements (chunk_size file_io_pool_entry base_offset : Z)
    (data : list byte) (tainted : Z) (n : nat) (l : libfdata_list_t)
    (stored0 : Z) (st : v1_locals) :
  table_entry_v1 data 0 = Ok stored0 ->
  fill_v1_loop chunk_size file_io_pool_entry base_offset data tainted
    n 0 (v1_initial l stored0) = Ok st ->
  table_entry_v1 data (Z.of_nat n) = Ok (stored_offset st)
  /\ storage_media_offset st = int64 (Z.of_nat n * chunk_size)
  /\ exists added,
       chunks st = l ++ added
       /\ length added = n
       /\ forall (k : nat) (e : element),
            nth_error added k = Some e ->
            v1_element_of_entry chunk_size file_io_pool_entry base_offset
              data (Z.of_nat k) e.
Proof.
  intros Hread Hloop.
  destruct (fill_v1_loop_ind chunk_size file_io_pool_entry base_offset data
              tainted
              (fun i st => table_entry_v1 data i = Ok (stored_offset st)
                           /\ storage_media_offset st
                              = int64 (i * chunk_size))
              (v1_element_of_entry chunk_size file_io_pool_entry base_offset
                 data))
    with (n := n) (i := 0) (st := v1_initial l stored0) (st' := st)
    as ((Hst & Hmedia) & added & Hadd & Hlen & Hall); auto.
  - intros i s s' [Hs Hm] Hstep. apply fill_v1_entry_Ok in Hstep.
    destruct Hstep as (stored & Hrd & _ & Hso & _ & _ & _ & Hmo & Hch).
    split; [split|].
    + rewrite Hso. exact Hrd.
    + rewrite Hmo, Hm, int64_add_l. f_equal. lia.
    + eexists. split; [exact Hch|].
      unfold v1_element_of_entry. simpl.
      split; [now rewrite Hm|]. split; [reflexivity|].
      exists (stored_offset s). split; [exact Hs|].
      apply v1_element_offset_eqm.
  - simpl in *. eauto 10.
Qed.

(** C6: a call of the fill pass over [number_of_entries] table entries
    that returns success has appended exactly that many elements, the
    k-th of them made from table entry k and mapped to the range of the
    storage media that starts at k * chunk_size and is chunk_size long. *)
Theorem fill_v1_appends_one_element_per_entry :
  forall (l l' : libfdata_list_t) (chunk_size file_io_pool_entry : Z)
         (table_section : libewf_section_t)
         (base_offset number_of_entries : Z) (data : list byte)
         (data_size tainted : Z),
    0 <= chunk_size < 2 ^ 32 ->
    0 <= number_of_entries < 2 ^ 32 ->
    libewf_chunk_group_fill_v1 l chunk_size file_io_pool_entry table_section
      base_offset number_of_entries data data_size tainted = Ok l' ->
    exists added,
      l' = l ++ added
      /\ Z.of_nat (length added) = number_of_entries
      /\ forall (k : nat) (e : element),
           nth_error added k = Some e ->
           mapped_range e = Some (Z.of_nat k * chunk_size, chunk_size)
           /\ element_file_index e = file_io_pool_entry
           /\ exists stored,
                table_entry_v1 data (Z.of_nat k) = Ok stored
                /\ (element_offset e - (base_offset + stored)) mod 2 ^ 31 = 0.
Proof.
  intros l l' chunk_size pool section base N data data_size tainted
    Hcs HN H.
  unfold libewf_chunk_group_fill_v1 in H.
  destruct (base <? 0); [discriminate|].
  destruct (data_size >? SSIZE_MAX); [discriminate|].
  bind_inv H. rename a into stored0. bind_inv H. rename a into st.
  destruct (fill_v1_loop_elements _ _ _ _ _ _ _ _ _ Ha Ha0)
    as (Hst & Hmedia & added & Hadd & Hlen & Hall).
  apply fill_v1_last_Ok in H. cbv zeta in H. destruct H as [Hroom ->].
  rewrite Hadd, length_app, Hlen in Hroom. unfold INT_MAX in Hroom.
  assert (HN1 : 1 <= N).
  { destruct (Z.eq_dec N 0) as [->|Hne]; [|lia].
    exfalso. change (uint32 (0 - 1)) with (2 ^ 32 - 1) in Hroom. lia. }
  rewrite (uint32_small (N - 1)) in * by lia.
  set (last := {| element_file_index := pool |}).
  assert (Hbound : forall k : nat,
            (k <= Z.to_nat (N - 1))%nat ->
            int64 (Z.of_nat k * chunk_size) = Z.of_nat k * chunk_size).
  { intros k Hk. apply int64_small. nia. }
  exists (added ++ [last]).
  rewrite Hadd, <- app_assoc. split; [reflexivity|].
  split; [rewrite length_app, Hlen; simpl; lia|].
  intros k e Hk.
  assert (Hke : v1_element_of_entry chunk_size pool base data (Z.of_nat k) e
                /\ (k <= Z.to_nat (N - 1))%nat).
  { destruct (Nat.lt_ge_cases k (length added)) as [Hlt|Hge].
    - rewrite nth_error_app1 in Hk by exact Hlt. split; [auto|lia].
    - rewrite nth_error_app2 in Hk by exact Hge.
      destruct (k - length added)%nat as [|j] eqn:Hj;
        [|destruct j; discriminate].
      simpl in Hk. apply (f_equal (fun o => match o with
                                            | Some x => x
                                            | None => last
                                            end)) in Hk.
      simpl in Hk. subst e.
      assert (k = Z.to_nat (N - 1)) as -> by lia.
      split; [|lia].
      unfold v1_element_of_entry, last. simpl.
      split; [now rewrite Hmedia|]. split; [reflexivity|].
      exists (stored_offset st). split; [exact Hst|].
      apply v1_element_offset_eqm. }
  destruct Hke as ((Hmap & Hpool & Hentry) & Hk').
  rewrite Hbound in Hmap by exact Hk'. auto.
Qed.

Lemma fill_v1_appends_one_element_per_entry_witness :
  libewf_chunk_group_fill_v1 [] 0x10000 0 section_0x40110 0x100 4
    table_four_chunks 16 0 = Ok four_chunks_filled
  /\ exists added,
       four_chunks_filled = [] ++ added
       /\ Z.of_nat (length added) = 4
       /\ forall (k : nat) (e : element),
            nth_error added k = Some e ->
            mapped_range e = Some (Z.of_nat k * 0x10000, 0x10000)
            /\ element_file_index e = 0
            /\ exists stored,
                 table_entry_v1 table_four_chunks (Z.of_nat k) = Ok stored
                 /\ (element_offset e - (0x100 + stored)) mod 2 ^ 31 = 0.
Proof.
  split; [vm_compute; reflexivity|].
  apply (fill_v1_appends_one_element_per_entry [] four_chunks_filled 0x10000
           0 section_0x40110 0x100 4 table_four_chunks 16 0).
  - lia.
  - lia.
  - vm_compute. reflexivity.
Defined.

(** ** Reads of the fill pass and the size of the buffer *)

Lemma fill_v1_loop_in_buffer (chunk_size file_io_pool_entry base_offset : Z)
    (data : list byte) (tainted : Z) (n : nat) (i : Z) (st : v1_locals) :
  0 <= i ->
  4 * (i + Z.of_nat n) + 4 <= Z.of_nat (length data) ->
  fill_v1_loop chunk_size file_io_pool_entry base_offset data tainted n i st
  <> Err OUT_OF_BUFFER.
Proof.
  revert i st. induction n as [|n IH]; intros i st Hi Hlen H;
    [discriminate|].
  simpl in H. apply bind_Err in H. destruct H as [H|(st' & _ & H)].
  - unfold fill_v1_entry in H.
    apply bind_Err in H. destruct H as [H|(stored & _ & H)].
    + destruct (table_entry_v1_in_buffer data (i + 1)) as [v Hv];
        [lia|lia|congruence].
    + destruct (v1_chunk_data_size _ _ _) as [corrupted sz].
      apply bind_Err in H. destruct H as [H|(l & _ & H)]; [|discriminate].
      apply append_chunk_Err in H. discriminate.
  - apply (IH (i + 1) st'); [lia|lia|exact H].
Qed.

(** C10: the fill pass does not compare the size of the table entries
    data with the number of entries: the size matters only through the
    test against SSIZE_MAX.  When there is at least one entry and the
    buffer holds at least 4 bytes per entry, no read of a table entry is
    outside the buffer.  With no entries the bound of the loop,
    number_of_entries - 1, is 2^32 - 1, and a pass over a buffer that
    holds one entry reads outside it. *)
Theorem fill_v1_reads_and_buffer_size :
  (forall (l : libfdata_list_t) (chunk_size file_io_pool_entry : Z)
          (table_section : libewf_section_t)
          (base_offset number_of_entries : Z) (data : list byte)
          (tainted size1 size2 : Z),
      size1 <= SSIZE_MAX -> size2 <= SSIZE_MAX ->
      libewf_chunk_group_fill_v1 l chunk_size file_io_pool_entry
        table_section base_offset number_of_entries data size1 tainted
      = libewf_chunk_group_fill_v1 l chunk_size file_io_pool_entry
          table_section base_offset number_of_entries data size2 tainted)
  /\
  (forall (l : libfdata_list_t) (chunk_size file_io_pool_entry : Z)
          (table_section : libewf_section_t)
          (base_offset number_of_entries : Z) (data : list byte)
          (data_size tainted : Z),
      1 <= number_of_entries < 2 ^ 32 ->
      4 * number_of_entries <= data_size ->
      data_size <= Z.of_nat (length data) ->
      libewf_chunk_group_fill_v1 l chunk_size file_io_pool_entry
        table_section base_offset number_of_entries data data_size tainted
      <> Err OUT_OF_BUFFER)
  /\
  (uint32 (0 - 1) = 2 ^ 32 - 1
   /\ 4 * 0 <= Z.of_nat (length table_one_entry)
   /\ libewf_chunk_group_fill_v1 [] 0x8000 0 section_0x1000_0x2000 0 0
        table_one_entry (Z.of_nat (length table_one_entry)) 0
      = Err OUT_OF_BUFFER).
Proof.
  split; [|split].
  - intros l chunk_size pool section base N data tainted size1 size2 H1 H2.
    unfold libewf_chunk_group_fill_v1.
    destruct (Z.gtb_spec size1 SSIZE_MAX); [lia|].
    destruct (Z.gtb_spec size2 SSIZE_MAX); [lia|].
    reflexivity.
  - intros l chunk_size pool section base N data data_size tainted
      HN Hsize Hlen H.
    unfold libewf_chunk_group_fill_v1 in H.
    destruct (base <? 0); [discriminate|].
    destruct (data_size >? SSIZE_MAX); [discriminate|].
    apply bind_Err in H. destruct H as [H|(stored & _ & H)].
    { destruct (table_entry_v1_in_buffer data 0) as [v Hv];
        [lia|lia|congruence]. }
    apply bind_Err in H. destruct H as [H|(st & _ & H)].
    { revert H. apply fill_v1_loop_in_buffer; [lia|].
      rewrite uint32_small by lia. lia. }
    unfold fill_v1_last in H. rewrite last_chunk_data_offset_test in H.
    apply append_chunk_Err in H. discriminate.
  - split; [reflexivity|]. split; [simpl; lia|].
    unfold libewf_chunk_group_fill_v1.
    change (0 <? 0) with false.
    change (Z.of_nat (length table_one_entry) >? SSIZE_MAX) with false.
    cbv iota.
    change (table_entry_v1 table_one_entry 0) with (Ok (A := Z) 1).
    unfold bind at 1.
    change (uint32 (0 - 1)) with 4294967295.
    destruct (Z.to_nat 4294967295) as [|n] eqn:En; [lia|].
    reflexivity.
Qed.

Lemma fill_v1_reads_and_buffer_size_witness :
  libewf_chunk_group_fill_v1 [] 0x10000 0 section_0x40110 0x100 4
    table_four_chunks 16 0
  = libewf_chunk_group_fill_v1 [] 0x10000 0 section_0x40110 0x100 4
      table_four_chunks 4096 0
  /\ libewf_chunk_group_fill_v1 [] 0x10000 0 section_0x40110 0x100 4
       table_four_chunks 16 0 <> Err OUT_OF_BUFFER.
Proof.
  split.
  - apply (proj1 fill_v1_reads_and_buffer_size); unfold SSIZE_MAX; lia.
  - apply (proj1 (proj2 fill_v1_reads_and_buffer_size)).
    + lia.
    + lia.
    + simpl. lia.
Defined.

(** ** The version 2 fill *)

Lemma fill_v2_range_flags_compressed (chunk_data_flags tainted : Z) :
  has_flag (fill_v2_range_flags chunk_data_flags tainted)
    LIBEWF_RANGE_FLAG_IS_COMPRESSED
  = has_flag chunk_data_flags LIBEWF_CHUNK_DATA_FLAG_IS_COMPRESSED.
Proof.
  unfold fill_v2_range_flags.
  destruct (has_flag chunk_data_flags LIBEWF_CHUNK_DATA_FLAG_IS_COMPRESSED),
    (has_flag chunk_data_flags LIBEWF_CHUNK_DATA_FLAG_USES_PATTERN_FILL),
    (has_flag chunk_data_flags LIBEWF_CHUNK_DATA_FLAG_HAS_CHECKSUM),
    (tainted =? 0); reflexivity.
Qed.

Lemma fill_v2_range_flags_checksum (chunk_data_flags tainted : Z) :
  has_flag (fill_v2_range_flags chunk_data_flags tainted)
    LIBEWF_RANGE_FLAG_HAS_CHECKSUM
  = has_flag chunk_data_flags LIBEWF_CHUNK_DATA_FLAG_HAS_CHECKSUM.
Proof.
  unfold fill_v2_range_flags.
  destruct (has_flag chunk_data_flags LIBEWF_CHUNK_DATA_FLAG_IS_COMPRESSED),
    (has_flag chunk_data_flags LIBEWF_CHUNK_DATA_FLAG_USES_PATTERN_FILL),
    (has_flag chunk_data_flags LIBEWF_CHUNK_DATA_FLAG_HAS_CHECKSUM),
    (tainted =? 0); reflexivity.
Qed.

Lemma fill_v2_range_flags_pattern_fill (chunk_data_flags tainted : Z) :
  has_flag (fill_v2_range_flags chunk_data_flags tainted)
    LIBEWF_RANGE_FLAG_USES_PATTERN_FILL
  = has_flag chunk_data_flags LIBEWF_CHUNK_DATA_FLAG_IS_COMPRESSED
    && has_flag chunk_data_flags LIBEWF_CHUNK_DATA_FLAG_USES_PATTERN_FILL.
Proof.
  unfold fill_v2_range_flags.
  destruct (has_flag chunk_data_flags LIBEWF_CHUNK_DATA_FLAG_IS_COMPRESSED),
    (has_flag chunk_data_flags LIBEWF_CHUNK_DATA_FLAG_USES_PATTERN_FILL),
    (has_flag chunk_data_flags LIBEWF_CHUNK_DATA_FLAG_HAS_CHECKSUM),
    (tainted =? 0); reflexivity.
Qed.

(** What a turn of the version 2 loop that returns has done. *)
Lemma fill_v2_entry_Ok (chunk_size file_io_pool_entry tainted : Z)
    (st st' : v2_locals) :
  fill_v2_entry chunk_size file_io_pool_entry tainted st = Ok st' ->
  exists chunk_data_offset chunk_data_size chunk_data_flags,
    table_entry_v2 (v2_table_entries_data st) 0
    = Ok (chunk_data_offset, chunk_data_size, chunk_data_flags)
    /\ Z.of_nat (length (v2_chunks st)) < INT_MAX
    /\ v2_table_entries_data st' = skipn 16 (v2_table_entries_data st)
    /\ v2_table_entries_data_size st' = v2_table_entries_data_size st - 16
    /\ table_entry_offset st' = int64 (table_entry_offset st + 16)
    /\ v2_storage_media_offset st'
       = int64 (v2_storage_media_offset st + chunk_size)
    /\ let range_flags := fill_v2_range_flags chunk_data_flags tainted in
       let range :=
         fill_v2_data_range range_flags (table_entry_offset st)
           chunk_data_offset chunk_data_size in
       v2_chunks st'
       = v2_chunks st
         ++ [ {| element_file_index := file_io_pool_entry;
                 element_offset := int64 (fst range);
                 element_size := snd range;
                 element_flags := range_flags;
                 mapped_range :=
                   Some (v2_storage_media_offset st, chunk_size) |} ].
Proof.
  unfold fill_v2_entry, table_entry_v2. intros H.
  change (skipn (16 * 0) (v2_table_entries_data st))
    with (v2_table_entries_data st).
  bind_inv H. rename a into off. bind_inv H. rename a into sz.
  bind_inv H. rename a into fl. bind_inv H.
  apply append_chunk_Ok in Ha2. destruct Ha2 as [Hroom ->].
  apply Ok_inj in H. subst st'.
  exists off, sz, fl. rewrite Ha, Ha0, Ha1. simpl. auto 10.
Qed.

Lemma fill_v2_loop_elements (header_size chunk_size file_io_pool_entry : Z)
    (table_section : libewf_section_t) (data : list byte) (tainted : Z)
    (n k0 : nat) (st st' : v2_locals) :
  v2_table_entries_data st = skipn (16 * k0) data ->
  table_entry_offset st
  = int64 (start_offset table_section + header_size + 16 * Z.of_nat k0) ->
  v2_storage_media_offset st = int64 (Z.of_nat k0 * chunk_size) ->
  fill_v2_loop chunk_size file_io_pool_entry tainted n st = Ok st' ->
  v2_table_entries_data_size st'
  = v2_table_entries_data_size st - 16 * Z.of_nat n
  /\ (n <> 0%nat ->
      Z.of_nat (length (v2_chunks st)) + Z.of_nat n <= INT_MAX)
  /\ exists added,
       v2_chunks st' = v2_chunks st ++ added
       /\ length added = n
       /\ forall (k : nat) (e : element),
            nth_error added k = Some e ->
            v2_element_of_entry header_size chunk_size file_io_pool_entry
              table_section data tainted (k0 + k) e.
Proof.
  revert k0 st. induction n as [|n IH]; intros k0 st Hdata Hteo Hmedia Hloop.
  - simpl in Hloop. apply Ok_inj in Hloop. subst st'.
    split; [lia|]. split; [congruence|].
    exists []. rewrite app_nil_r. repeat split.
    intros [|k] e; discriminate.
  - simpl in Hloop. bind_inv Hloop. rename a into st1.
    apply fill_v2_entry_Ok in Ha.
    destruct Ha as (off & sz & fl & Hread & Hroom & Hd1 & Hs1 & Ht1 & Hm1
                    & Hch).
    cbv zeta in Hch.
    destruct (IH (S k0) st1) as (Hsize & Hcap & added & Hadd & Hlen & Hall);
      auto.
    + rewrite Hd1, Hdata, skipn_skipn. f_equal. lia.
    + rewrite Ht1, Hteo, int64_add_l. f_equal. lia.
    + rewrite Hm1, Hmedia, int64_add_l. f_equal. lia.
    + split; [lia|]. split.
      { intros _. destruct n as [|n']; [lia|].
        specialize (Hcap ltac:(discriminate)).
        rewrite Hch, length_app in Hcap. simpl length in Hcap. lia. }
      eexists (_ :: added). rewrite Hadd, Hch, <- app_assoc. simpl.
      repeat split; [now rewrite Hlen|].
      intros [|k] e Hk; simpl in Hk.
      * injection Hk as <-. rewrite Nat.add_0_r.
        exists off, sz, fl. split.
        { unfold table_entry_v2 in *. simpl skipn in Hread.
          rewrite <- Hdata. exact Hread. }
        cbv zeta. rewrite Hteo, Hmedia. reflexivity.
      * replace (k0 + S k)%nat with (S k0 + k)%nat by lia. auto.
Qed.

Lemma fill_v2_elements (header_size : Z) (l l' : libfdata_list_t)
    (chunk_size file_io_pool_entry : Z) (table_section : libewf_section_t)
    (number_of_offsets : Z) (data : list byte) (data_size tainted : Z) :
  libewf_chunk_group_fill_v2 header_size l chunk_size file_io_pool_entry
    table_section number_of_offsets data data_size tainted = Ok l' ->
  exists added,
    l' = l ++ added
    /\ length added = Z.to_nat (data_size / 16)
    /\ (added <> [] -> Z.of_nat (length l') <= INT_MAX)
    /\ forall (k : nat) (e : element),
         nth_error added k = Some e ->
         v2_element_of_entry header_size chunk_size file_io_pool_entry
           table_section data tainted k e.
Proof.
  unfold libewf_chunk_group_fill_v2. intros H.
  destruct (data_size >? SSIZE_MAX); [discriminate|].
  bind_inv H. apply Ok_inj in H. subst l'.
  apply (fill_v2_loop_elements header_size chunk_size file_io_pool_entry
           table_section data tainted _ 0%nat) in Ha.
  - destruct Ha as (_ & Hcap & added & Hadd & Hlen & Hall).
    cbn [v2_chunks] in Hadd, Hcap.
    exists added. split; [exact Hadd|]. split; [exact Hlen|].
    split; [|exact Hall].
    intros Hne. rewrite Hadd, length_app, Hlen, Nat2Z.inj_add.
    apply Hcap. intros E. rewrite E in Hlen.
    destruct added; [congruence|discriminate].
  - reflexivity.
  - simpl. f_equal. lia.
  - reflexivity.
Qed.

(** C9: a call of the version 2 fill that returns success has appended
    floor(table_entries_data_size / 16) elements, and the argument
    number_of_offsets has no effect on the result. *)
Theorem fill_v2_consumes_whole_entries :
  (forall (header_size : Z) (l l' : libfdata_list_t)
          (chunk_size file_io_pool_entry : Z)
          (table_section : libewf_section_t) (number_of_offsets : Z)
          (data : list byte) (data_size tainted : Z),
      0 <= data_size ->
      libewf_chunk_group_fill_v2 header_size l chunk_size file_io_pool_entry
        table_section number_of_offsets data data_size tainted = Ok l' ->
      exists added,
        l' = l ++ added /\ Z.of_nat (length added) = data_size / 16)
  /\
  (forall (header_size : Z) (l : libfdata_list_t)
          (chunk_size file_io_pool_entry : Z)
          (table_section : libewf_section_t)
          (number_of_offsets number_of_offsets' : Z)
          (data : list byte) (data_size tainted : Z),
      libewf_chunk_group_fill_v2 header_size l chunk_size file_io_pool_entry
        table_section number_of_offsets data data_size tainted
      = libewf_chunk_group_fill_v2 header_size l chunk_size
          file_io_pool_entry table_section number_of_offsets' data data_size
          tainted).
Proof.
  split.
  - intros header_size l l' chunk_size pool section N data data_size tainted
      Hsize H.
    apply fill_v2_elements in H. destruct H as (added & -> & Hlen & _ & _).
    exists added. split; [reflexivity|].
    rewrite Hlen. apply Z2Nat.id. apply Z.div_pos; lia.
  - reflexivity.
Qed.

Lemma fill_v2_consumes_whole_entries_witness :
  exists l',
    libewf_chunk_group_fill_v2 24 [] 0x8000 0 section_0x1000_0x2000 0
      (table_v2_compressed_pattern_fill ++ table_v2_pattern_fill_only
       ++ table_one_entry) 36 0 = Ok l'
    /\ exists added, l' = [] ++ added /\ Z.of_nat (length added) = 36 / 16.
Proof.
  eexists. split; [reflexivity|].
  apply (proj1 fill_v2_consumes_whole_entries 24 [] _ 0x8000 0
           section_0x1000_0x2000 0
           (table_v2_compressed_pattern_fill ++ table_v2_pattern_fill_only
            ++ table_one_entry) 36 0).
  - lia.
  - reflexivity.
Defined.

(** C7 (amended): for every version 2 table entry i whose chunk data
    flags have both the is-compressed bit 0x1 and the pattern-fill bit
    0x4, a fill that returns success has appended, as its i-th element,
    one whose offset is the address of that table entry,
    start_offset + table header size + 16 * i as an [off64_t], whose size
    is 8 and whose flags have both USES_PATTERN_FILL and IS_COMPRESSED. *)
Theorem fill_v2_compressed_pattern_fill_entry :
  forall (header_size : Z) (l l' : libfdata_list_t)
         (chunk_size file_io_pool_entry : Z)
         (table_section : libewf_section_t) (number_of_offsets : Z)
         (data : list byte) (data_size tainted : Z) (i : nat)
         (chunk_data_offset chunk_data_size chunk_data_flags : Z),
    libewf_chunk_group_fill_v2 header_size l chunk_size file_io_pool_entry
      table_section number_of_offsets data data_size tainted = Ok l' ->
    Z.of_nat i < data_size / 16 ->
    table_entry_v2 data i
    = Ok (chunk_data_offset, chunk_data_size, chunk_data_flags) ->
    has_flag chunk_data_flags LIBEWF_CHUNK_DATA_FLAG_IS_COMPRESSED = true ->
    has_flag chunk_data_flags LIBEWF_CHUNK_DATA_FLAG_USES_PATTERN_FILL = true ->
    exists e,
      nth_error l' (length l + i) = Some e
      /\ element_offset e
         = int64 (start_offset table_section + header_size + 16 * Z.of_nat i)
      /\ (- 2 ^ 63 <= start_offset table_section + header_size
                      + 16 * Z.of_nat i < 2 ^ 63 ->
          element_offset e
          = start_offset table_section + header_size + 16 * Z.of_nat i)
      /\ element_size e = 8
      /\ has_flag (element_flags e) LIBEWF_RANGE_FLAG_USES_PATTERN_FILL = true
      /\ has_flag (element_flags e) LIBEWF_RANGE_FLAG_IS_COMPRESSED = true.
Proof.
  intros header_size l l' chunk_size pool section N data data_size tainted i
    off sz fl H Hi Hread Hc Hp.
  apply fill_v2_elements in H. destruct H as (added & -> & Hlen & _ & Hall).
  destruct (nth_error added i) as [e|] eqn:He.
  2:{ apply nth_error_None in He. lia. }
  exists e. split.
  { rewrite nth_error_app2 by lia.
    replace (length l + i - length l)%nat with i by lia. exact He. }
  destruct (Hall i e He) as (off' & sz' & fl' & Hread' & ->).
  rewrite Hread in Hread'. apply Ok_inj in Hread'.
  injection Hread' as <- <- <-.
  assert (Hpf : has_flag (fill_v2_range_flags fl tainted)
                  LIBEWF_RANGE_FLAG_USES_PATTERN_FILL = true)
    by (rewrite fill_v2_range_flags_pattern_fill, Hc, Hp; reflexivity).
  unfold fill_v2_data_range. rewrite Hpf.
  cbn [fst snd element_offset element_size element_flags].
  rewrite int64_uint64.
  assert (Hoff : int64 (int64 (start_offset section + header_size
                               + 16 * Z.of_nat i))
                 = int64 (start_offset section + header_size
                          + 16 * Z.of_nat i))
    by (apply int64_small, int64_range).
  rewrite Hoff. split; [reflexivity|].
  split; [intros Hr; apply int64_small; exact Hr|].
  split; [reflexivity|]. split; [exact Hpf|].
  rewrite fill_v2_range_flags_compressed. exact Hc.
Qed.

Lemma fill_v2_compressed_pattern_fill_entry_witness :
  exists e,
    nth_error
      [ {| element_file_index := 0;
           element_offset := 0x1018;
           element_size := 8;
           element_flags :=
             Z.lor LIBEWF_RANGE_FLAG_IS_COMPRESSED
               LIBEWF_RANGE_FLAG_USES_PATTERN_FILL;
           mapped_range := Some (0, 0x8000) |} ] 0 = Some e
    /\ element_offset e = int64 (0x1000 + 24 + 16 * 0)
    /\ (- 2 ^ 63 <= 0x1000 + 24 + 16 * 0 < 2 ^ 63 ->
        element_offset e = 0x1000 + 24 + 16 * 0)
    /\ element_size e = 8
    /\ has_flag (element_flags e) LIBEWF_RANGE_FLAG_USES_PATTERN_FILL = true
    /\ has_flag (element_flags e) LIBEWF_RANGE_FLAG_IS_COMPRESSED = true.
Proof.
  apply (fill_v2_compressed_pattern_fill_entry 24 [] _ 0x8000 0
           section_0x1000_0x2000 1 table_v2_compressed_pattern_fill 16 0
           0%nat 0xdead 4096 5).
  - reflexivity.
  - reflexivity.
  - reflexivity.
  - reflexivity.
  - reflexivity.
Defined.

(** C7, as the claim states it, fails on a table entry whose flags are
    0x4, the pattern-fill bit without the is-compressed bit: the element
    keeps the stored offset and size and has neither flag. *)
Lemma fill_v2_pattern_fill_bit_alone :
  table_entry_v2 table_v2_pattern_fill_only 0 = Ok (0xdead, 4096, 0x4)
  /\ has_flag 0x4 LIBEWF_CHUNK_DATA_FLAG_USES_PATTERN_FILL = true
  /\ libewf_chunk_group_fill_v2 24 [] 0x8000 0 section_0x1000_0x2000 1
       table_v2_pattern_fill_only 16 0
     = Ok [ {| element_file_index := 0;
               element_offset := 0xdead;
               element_size := 4096;
               element_flags := 0;
               mapped_range := Some (0, 0x8000) |} ]
  /\ 0xdead <> 0x1000 + 24 + 0 * 16
  /\ 4096 <> 8
  /\ has_flag 0 LIBEWF_RANGE_FLAG_USES_PATTERN_FILL = false
  /\ has_flag 0 LIBEWF_RANGE_FLAG_IS_COMPRESSED = false.
Proof.
  repeat split; try reflexivity; discriminate.
Qed.

(** ** Compressed or with a checksum *)

Lemma fill_v1_range_flags_exclusive (is_compressed corrupted tainted : Z) :
  compressed_xor_checksum
    (fill_v1_range_flags is_compressed corrupted tainted).
Proof.
  unfold compressed_xor_checksum.
  rewrite fill_v1_range_flags_compressed, fill_v1_range_flags_checksum.
  destruct (is_compressed =? 0); reflexivity.
Qed.

(** Every element the version 1 fill appends has exactly one of the two
    flags. *)
Lemma fill_v1_elements_exclusive (l l' : libfdata_list_t)
    (chunk_size file_io_pool_entry : Z) (table_section : libewf_section_t)
    (base_offset number_of_entries : Z) (data : list byte)
    (data_size tainted : Z) :
  libewf_chunk_group_fill_v1 l chunk_size file_io_pool_entry table_section
    base_offset number_of_entries data data_size tainted = Ok l' ->
  exists added,
    l' = l ++ added
    /\ Forall (fun e => compressed_xor_checksum (element_flags e)) added.
Proof.
  unfold libewf_chunk_group_fill_v1. intros H.
  destruct (base_offset <? 0); [discriminate|].
  destruct (data_size >? SSIZE_MAX); [discriminate|].
  bind_inv H. bind_inv H.
  destruct (fill_v1_loop_ind chunk_size file_io_pool_entry base_offset data
              tainted (fun _ _ => True)
              (fun _ e => compressed_xor_checksum (element_flags e)))
    with (n := Z.to_nat (uint32 (number_of_entries - 1))) (i := 0)
         (st := v1_initial l a) (st' := a0)
    as (_ & added & Hadd & _ & Hall); auto.
  { intros i st st' _ Hstep. split; [exact I|].
    apply fill_v1_entry_Ok in Hstep.
    destruct Hstep as (? & _ & _ & _ & _ & _ & _ & _ & Hch).
    eexists. split; [exact Hch|]. apply fill_v1_range_flags_exclusive. }
  apply fill_v1_last_Ok in H. destruct H as [_ ->].
  eexists (added ++ [_]). simpl in Hadd. rewrite Hadd, <- app_assoc.
  split; [reflexivity|].
  apply Forall_app. split.
  - apply Forall_forall. intros e Hin.
    apply In_nth_error in Hin. destruct Hin as [k Hk]. eauto.
  - constructor; [|constructor]. apply fill_v1_range_flags_exclusive.
Qed.

(** Every element the version 2 fill appends for an entry whose flags
    have exactly one of the bits 0x1 and 0x2 has exactly one of the two
    flags. *)
Lemma fill_v2_elements_exclusive (header_size : Z) (l l' : libfdata_list_t)
    (chunk_size file_io_pool_entry : Z) (table_section : libewf_section_t)
    (number_of_offsets : Z) (data : list byte) (data_size tainted : Z)
    (k : nat) (e : element) (chunk_data_offset chunk_data_size fl : Z) :
  libewf_chunk_group_fill_v2 header_size l chunk_size file_io_pool_entry
    table_section number_of_offsets data data_size tainted = Ok l' ->
  nth_error l' (length l + k) = Some e ->
  table_entry_v2 data k = Ok (chunk_data_offset, chunk_data_size, fl) ->
  xorb (has_flag fl LIBEWF_CHUNK_DATA_FLAG_IS_COMPRESSED)
       (has_flag fl LIBEWF_CHUNK_DATA_FLAG_HAS_CHECKSUM) = true ->
  compressed_xor_checksum (element_flags e).
Proof.
  intros H Hk Hread Hx.
  apply fill_v2_elements in H. destruct H as (added & -> & _ & _ & Hall).
  rewrite nth_error_app2 in Hk by lia.
  replace (length l + k - length l)%nat with k in Hk by lia.
  destruct (Hall k e Hk) as (off' & sz' & fl' & Hread' & ->).
  rewrite Hread in Hread'. apply Ok_inj in Hread'.
  injection Hread' as <- <- <-.
  unfold compressed_xor_checksum. simpl.
  rewrite fill_v2_range_flags_compressed, fill_v2_range_flags_checksum.
  exact Hx.
Qed.

(** The flags the correct pass composes always have HAS_CHECKSUM: for a
    compressed entry they have both flags. *)
Lemma correct_v1_range_flags_both (is_compressed corrupted tainted : Z) :
  is_compressed <> 0 ->
  ~ compressed_xor_checksum
      (correct_v1_range_flags is_compressed corrupted tainted).
Proof.
  intros Hc. unfold compressed_xor_checksum.
  rewrite correct_v1_range_flags_compressed, correct_v1_range_flags_checksum.
  destruct (Z.eqb_spec is_compressed 0); [contradiction|discriminate].
Qed.

(** C1: the table 0x80000010, 0x10010 has a compressed first chunk.  The
    fill pass, told the table is tainted, appends for it an element with
    IS_COMPRESSED and without HAS_CHECKSUM.  The correct pass over the
    same table, not tainted, finds no mismatch and writes the element
    back to clear the taint: the element it writes has both
    IS_COMPRESSED and HAS_CHECKSUM. *)
Theorem correct_v1_writes_compressed_with_checksum :
  exists (filled corrected : libfdata_list_t) (e e' : element),
    libewf_chunk_group_fill_v1 [] 0x10000 0 section_0x2000_0x3000 0x100 2
      table_first_compressed 8 1 = Ok filled
    /\ nth_error filled 0 = Some e
    /\ compressed_xor_checksum (element_flags e)
    /\ libewf_chunk_group_correct_v1 filled 0x10000 0 section_0x2000_0x3000
         0x100 2 table_first_compressed 8 0 = Ok corrected
    /\ nth_error corrected 0 = Some e'
    /\ element_flags e'
       = Z.lor LIBEWF_RANGE_FLAG_HAS_CHECKSUM LIBEWF_RANGE_FLAG_IS_COMPRESSED
    /\ has_flag (element_flags e') LIBEWF_RANGE_FLAG_IS_COMPRESSED = true
    /\ has_flag (element_flags e') LIBEWF_RANGE_FLAG_HAS_CHECKSUM = true
    /\ ~ compressed_xor_checksum (element_flags e').
Proof.
  eexists. eexists. eexists. eexists.
  split; [vm_compute; reflexivity|].
  split; [reflexivity|].
  split; [reflexivity|].
  split; [vm_compute; reflexivity|].
  split; [reflexivity|].
  split; [reflexivity|].
  split; [reflexivity|].
  split; [reflexivity|].
  discriminate.
Qed.

(** ** The comparison of the correct pass *)

Lemma land_pow2 (x k : Z) :
  0 <= k -> Z.land x (2 ^ k) = if Z.testbit x k then 2 ^ k else 0.
Proof.
  intros Hk. apply Z.bits_inj'. intros n Hn.
  rewrite Z.land_spec, Z.pow2_bits_eqb by exact Hk.
  destruct (Z.eqb_spec k n) as [->|Hne].
  - destruct (Z.testbit x n); simpl.
    + rewrite Z.pow2_bits_true by exact Hn. reflexivity.
    + rewrite Z.bits_0. reflexivity.
  - rewrite andb_false_r.
    destruct (Z.testbit x k).
    + rewrite Z.pow2_bits_false by (exact Hne). reflexivity.
    + rewrite Z.bits_0. reflexivity.
Qed.

Lemma land_IS_COMPRESSED_eq (x y : Z) :
  Z.land x LIBEWF_RANGE_FLAG_IS_COMPRESSED
  = Z.land y LIBEWF_RANGE_FLAG_IS_COMPRESSED
  <-> has_flag x LIBEWF_RANGE_FLAG_IS_COMPRESSED
      = has_flag y LIBEWF_RANGE_FLAG_IS_COMPRESSED.
Proof.
  unfold has_flag.
  change LIBEWF_RANGE_FLAG_IS_COMPRESSED with (2 ^ 1).
  rewrite !land_pow2 by lia.
  destruct (Z.testbit x 1), (Z.testbit y 1); simpl; split; intros H;
    (reflexivity || discriminate).
Qed.

(** A mismatch is a difference in the offset, in the size or in the
    IS_COMPRESSED flag. *)
Lemma v1_mismatch_iff (offset sz range_flags : Z) (previous : element) :
  v1_mismatch offset sz range_flags previous = true
  <-> offset <> element_offset previous
      \/ sz <> element_size previous
      \/ has_flag range_flags LIBEWF_RANGE_FLAG_IS_COMPRESSED
         <> has_flag (element_flags previous) LIBEWF_RANGE_FLAG_IS_COMPRESSED.
Proof.
  unfold v1_mismatch. rewrite <- land_IS_COMPRESSED_eq.
  destruct (Z.eqb_spec offset (element_offset previous));
    destruct (Z.eqb_spec sz (element_size previous));
    destruct (Z.eqb_spec (Z.land range_flags LIBEWF_RANGE_FLAG_IS_COMPRESSED)
                (Z.land (element_flags previous)
                   LIBEWF_RANGE_FLAG_IS_COMPRESSED));
    simpl; intuition congruence.
Qed.

(** The element is set in the three cases of the precedence rule and in
    no other. *)
Lemma v1_update_data_range_iff (mismatch : bool)
    (corrupted tainted previous_range_flags : Z) :
  v1_update_data_range mismatch corrupted tainted previous_range_flags = true
  <-> (mismatch = true /\ corrupted = 0 /\ tainted = 0)
      \/ (mismatch = true
          /\ has_flag previous_range_flags LIBEWF_RANGE_FLAG_IS_CORRUPTED
             = true
          /\ corrupted = 0)
      \/ (mismatch = false
          /\ has_flag previous_range_flags LIBEWF_RANGE_FLAG_IS_TAINTED
             = true).
Proof.
  unfold v1_update_data_range.
  destruct mismatch;
    destruct (Z.eqb_spec corrupted 0);
    destruct (Z.eqb_spec tainted 0);
    destruct (has_flag previous_range_flags LIBEWF_RANGE_FLAG_IS_CORRUPTED);
    destruct (has_flag previous_range_flags LIBEWF_RANGE_FLAG_IS_TAINTED);
    simpl; intuition congruence.
Qed.

(** In a turn of the loop the element at the index of the entry is
    compared with the offset, size and flags derived for the entry, and
    is set to them, or the list is left as it is, by that rule. *)
Lemma correct_v1_entry_rule (file_io_pool_entry base_offset : Z)
    (data : list byte) (tainted i : Z) (st st' : v1_locals) :
  correct_v1_entry file_io_pool_entry base_offset data tainted i st = Ok st' ->
  exists stored previous,
    table_entry_v1 data (i + 1) = Ok stored
    /\ nth_error (chunks st) (Z.to_nat (int32 i)) = Some previous
    /\ let offset := int64 (base_offset + v1_current_offset st) in
       let sz := snd (v1_entry_size st stored) in
       let corrupted := fst (v1_entry_size st stored) in
       let range_flags :=
         correct_v1_range_flags (v1_is_compressed st) corrupted tainted in
       let mismatch := v1_mismatch offset sz range_flags previous in
       (v1_update_data_range mismatch corrupted tainted
          (element_flags previous) = true ->
        chunks st'
        = replace_nth (Z.to_nat (int32 i))
            {| element_file_index := file_io_pool_entry;
               element_offset := offset;
               element_size := sz;
               element_flags := range_flags;
               mapped_range := mapped_range previous |} (chunks st))
       /\ (v1_update_data_range mismatch corrupted tainted
             (element_flags previous) = false ->
           chunks st' = chunks st).
Proof.
  intros H. apply correct_v1_entry_Ok in H.
  destruct H as (stored & Hread & _ & _ & _ & _ & Hel).
  apply correct_v1_element_Ok in Hel.
  destruct Hel as (previous & _ & Hnth & Hch).
  exists stored, previous. split; [exact Hread|]. split; [exact Hnth|].
  cbv zeta. rewrite Hch.
  destruct (v1_update_data_range _ _ _ _); split; intros; congruence.
Qed.

(** C2: the table has one chunk, at offset 0x110 of the segment file.
    For this last entry the correct pass derives the size 0x1ef0 from the
    start of the section, takes the size of the section off and tests
    0x1df0; the entry is not corrupted and not compressed.  A list whose
    element has that offset, that size (either of the two) and those
    flags, and is not tainted, differs in nothing and is to be kept.  The
    pass compares the size of the element with [chunk_data_size], which
    no turn of the loop has assigned and is 0, finds a mismatch and sets
    the size of the element to 0. *)
Theorem correct_v1_last_entry_compares_chunk_data_size :
  int64 (0x100 + v1_current_offset (v1_initial one_chunk_list 0x10)) = 0x110
  /\ v1_last_chunk_data_size section_0x2000_0x3000 0x110 = 0x1ef0
  /\ int64 (0x1ef0 - size section_0x2000_0x3000) = 0x1df0
  /\ v1_last_corrupted 0x1df0 = 0
  /\ correct_v1_range_flags
       (v1_is_compressed (v1_initial one_chunk_list 0x10)) 0 0
     = LIBEWF_RANGE_FLAG_HAS_CHECKSUM
  /\ v1_mismatch 0x110 0x1df0 LIBEWF_RANGE_FLAG_HAS_CHECKSUM
       (one_chunk 0x1df0) = false
  /\ v1_mismatch 0x110 0x1ef0 LIBEWF_RANGE_FLAG_HAS_CHECKSUM
       (one_chunk 0x1ef0) = false
  /\ has_flag (element_flags (one_chunk 0x1df0)) LIBEWF_RANGE_FLAG_IS_TAINTED
     = false
  /\ libewf_chunk_group_correct_v1 [ one_chunk 0x1df0 ] 0x8000 0
       section_0x2000_0x3000 0x100 1 table_one_chunk 4 0
     = Ok [ one_chunk 0 ]
  /\ libewf_chunk_group_correct_v1 [ one_chunk 0x1ef0 ] 0x8000 0
       section_0x2000_0x3000 0x100 1 table_one_chunk 4 0
     = Ok [ one_chunk 0 ].
Proof.
  repeat split; vm_compute; reflexivity.
Qed.

(** ** Writing a value and reading it back *)

Lemma stored_byte (value k : Z) :
  0 <= k ->
  byte_to_Z (Z_to_byte (Z.land (Z.shiftr value k) 255))
  = (value / 2 ^ k) mod 256.
Proof.
  intros Hk. rewrite byte_to_Z_to_byte, land_255, Z.shiftr_div_pow2 by exact Hk.
  change (2 ^ 8) with 256. apply Z.mod_mod. lia.
Qed.

Lemma copy_to_from_uint32 (value : Z) (rest : list byte) :
  byte_stream_copy_to_uint32_little_endian
    (byte_stream_copy_from_uint32_little_endian value ++ rest)
  = Ok (value mod 2 ^ 32).
Proof.
  unfold byte_stream_copy_from_uint32_little_endian.
  cbn [app]. rewrite copy_to_uint32_value.
  replace (Z.land value 255) with (Z.land (Z.shiftr value 0) 255)
    by (now rewrite Z.shiftr_0_r).
  rewrite !stored_byte by lia. f_equal.
  change (2 ^ 0) with 1. rewrite Z.div_1_r.
  change (2 ^ 8) with 256. change (2 ^ 16) with 65536.
  change (2 ^ 24) with 16777216. change (2 ^ 32) with 4294967296.
  Z.div_mod_to_equations. lia.
Qed.

Lemma copy_to_uint64_value (b0 b1 b2 b3 b4 b5 b6 b7 : byte)
    (rest : list byte) :
  byte_stream_copy_to_uint64_little_endian
    (b0 :: b1 :: b2 :: b3 :: b4 :: b5 :: b6 :: b7 :: rest)
  = Ok (byte_to_Z b0 + 256 * (byte_to_Z b1 + 256 * (byte_to_Z b2
        + 256 * (byte_to_Z b3 + 256 * (byte_to_Z b4 + 256 * (byte_to_Z b5
        + 256 * (byte_to_Z b6 + 256 * byte_to_Z b7))))))).
Proof.
  pose proof (byte_to_Z_range b0). pose proof (byte_to_Z_range b1).
  pose proof (byte_to_Z_range b2). pose proof (byte_to_Z_range b3).
  pose proof (byte_to_Z_range b4). pose proof (byte_to_Z_range b5).
  pose proof (byte_to_Z_range b6). pose proof (byte_to_Z_range b7).
  unfold byte_stream_copy_to_uint64_little_endian.
  cbv zeta.
  rewrite (shiftl_8_lor (byte_to_Z b7)) by lia.
  rewrite (shiftl_8_lor (_ * 256 + byte_to_Z b6)) by lia.
  rewrite (shiftl_8_lor (_ * 256 + byte_to_Z b5)) by lia.
  rewrite (shiftl_8_lor (_ * 256 + byte_to_Z b4)) by lia.
  rewrite (shiftl_8_lor (_ * 256 + byte_to_Z b3)) by lia.
  rewrite (shiftl_8_lor (_ * 256 + byte_to_Z b2)) by lia.
  rewrite (shiftl_8_lor (_ * 256 + byte_to_Z b1)) by lia.
  f_equal. lia.
Qed.

Lemma copy_to_from_uint64 (value : Z) (rest : list byte) :
  byte_stream_copy_to_uint64_little_endian
    (byte_stream_copy_from_uint64_little_endian value ++ rest)
  = Ok (value mod 2 ^ 64).
Proof.
  unfold byte_stream_copy_from_uint64_little_endian.
  cbn [app]. rewrite copy_to_uint64_value.
  replace (Z.land value 255) with (Z.land (Z.shiftr value 0) 255)
    by (now rewrite Z.shiftr_0_r).
  rewrite !stored_byte by lia. f_equal.
  change (2 ^ 0) with 1. rewrite Z.div_1_r.
  change (2 ^ 8) with 256. change (2 ^ 16) with 65536.
  change (2 ^ 24) with 16777216. change (2 ^ 32) with 4294967296.
  change (2 ^ 40) with 1099511627776.
  change (2 ^ 48) with 281474976710656.
  change (2 ^ 56) with 72057594037927936.
  change (2 ^ 64) with 18446744073709551616.
  Z.div_mod_to_equations. lia.
Qed.

(** ** Generating table entries *)

Lemma int32_index (i : Z) :
  0 <= i < 2 ^ 32 -> 0 <= int32 i -> int32 i = i.
Proof.
  unfold int32. intros Hi Hpos.
  destruct (Z.lt_ge_cases i (2 ^ 31)) as [Hlt|Hge].
  - rewrite Z.mod_small by lia. lia.
  - exfalso.
    replace (i + 2 ^ 31) with (i - 2 ^ 31 + 1 * 2 ^ 32) in Hpos by lia.
    rewrite Z.mod_add, Z.mod_small in Hpos by lia. lia.
Qed.

Lemma store_bytes_Ok (bytes buffer data : list byte) :
  store_bytes bytes buffer = Ok data ->
  data = bytes ++ skipn (length bytes) buffer.
Proof.
  unfold store_bytes. destruct (_ <? _)%nat; congruence.
Qed.

Lemma generate_table_entry_v1_Ok (base_offset : Z) (e : element)
    (bytes : list byte) :
  generate_table_entry 1 base_offset e = Ok bytes ->
  0 <= int64 (element_offset e - base_offset) <= INT32_MAX
  /\ bytes
     = byte_stream_copy_from_uint32_little_endian
         (v1_table_offset base_offset e).
Proof.
  unfold generate_table_entry, v1_table_offset. simpl (1 =? 1).
  cbv iota zeta.
  destruct (Z.ltb_spec (int64 (element_offset e - base_offset)) 0)
    as [?|Hlo]; [discriminate|].
  destruct (Z.gtb_spec (int64 (element_offset e - base_offset)) INT32_MAX)
    as [?|Hhi]; [discriminate|].
  simpl. intros H. apply Ok_inj in H. split; [lia|congruence].
Qed.

Lemma generate_table_entry_v2_Ok (base_offset : Z) (e : element)
    (bytes : list byte) :
  generate_table_entry 2 base_offset e = Ok bytes ->
  bytes
  = byte_stream_copy_from_uint64_little_endian (element_offset e)
    ++ byte_stream_copy_from_uint32_little_endian (uint32 (element_size e))
    ++ byte_stream_copy_from_uint32_little_endian
         (v2_chunk_data_flags (element_flags e)).
Proof.
  unfold generate_table_entry, v2_chunk_data_flags.
  simpl (2 =? 1). simpl (2 =? 2). cbv iota zeta.
  destruct (_ >? UINT32_MAX); [discriminate|].
  intros H. apply Ok_inj in H. congruence.
Qed.

Lemma skipn_app_exact {A : Type} (l1 l2 : list A) (n m : nat) :
  length l1 = n -> skipn (n + m) (l1 ++ l2) = skipn m l2.
Proof.
  intros <-. rewrite skipn_app.
  rewrite skipn_all2 by lia.
  replace (length l1 + m - length l1)%nat with m by lia. reflexivity.
Qed.

(** The buffer after the [for] loop: what the pointer had passed, then
    the bytes of the entries one after the other. *)
Lemma generate_loop_entries (chunks_list : libfdata_list_t)
    (format_version base_offset : Z) (entry_size : nat) :
  (forall e bytes,
      generate_table_entry format_version base_offset e = Ok bytes ->
      length bytes = entry_size) ->
  forall (n : nat) (i : Z) (written rest out : list byte),
    0 <= i -> i + Z.of_nat n <= 2 ^ 32 ->
    generate_loop chunks_list format_version base_offset
      (Z.of_nat entry_size) n i written rest = Ok out ->
    exists tail,
      out = written ++ tail
      /\ forall k : nat,
           (k < n)%nat ->
           exists e bytes rest',
             nth_error chunks_list (Z.to_nat i + k) = Some e
             /\ generate_table_entry format_version base_offset e = Ok bytes
             /\ skipn (entry_size * k) tail = bytes ++ rest'.
Proof.
  intros Hsize. induction n as [|n IH]; intros i written rest out Hi Hin H.
  - simpl in H. apply Ok_inj in H. exists rest. split; [congruence|].
    intros k Hk. lia.
  - simpl in H. bind_inv H. rename a into e. bind_inv H. rename a into bytes.
    bind_inv H. rename a into data.
    apply or_fail_Ok in Ha.
    unfold libfdata_list_get_element_by_index in Ha.
    destruct (Z.ltb_spec (int32 i) 0) as [?|Hpos]; [discriminate|].
    rewrite (int32_index i) in Ha by lia.
    apply store_bytes_Ok in Ha1. pose proof (Hsize e bytes Ha0) as Hlen.
    rewrite Nat2Z.id in H.
    assert (Hfirst : firstn entry_size data = bytes).
    { subst data. rewrite <- Hlen, firstn_app, Nat.sub_diag, firstn_all.
      simpl. apply app_nil_r. }
    assert (Hskip : skipn entry_size data = skipn entry_size rest).
    { subst data. rewrite <- Hlen at 1.
      rewrite skipn_app, Nat.sub_diag, skipn_all. simpl. now rewrite Hlen. }
    rewrite Hfirst, Hskip in H.
    apply IH in H; [|lia|lia].
    destruct H as (tail & -> & Hall).
    exists (bytes ++ tail). split; [now rewrite <- app_assoc|].
    intros [|k] Hk.
    + exists e, bytes, tail. rewrite Nat.add_0_r, Nat.mul_0_r. auto.
    + destruct (Hall k ltac:(lia)) as (e' & bytes' & rest' & Hn & Hg & Hs).
      exists e', bytes', rest'.
      replace (Z.to_nat i + S k)%nat with (Z.to_nat (i + 1) + k)%nat by lia.
      split; [exact Hn|]. split; [exact Hg|].
      replace (entry_size * S k)%nat with (entry_size + entry_size * k)%nat
        by lia.
      rewrite skipn_app_exact by exact Hlen. exact Hs.
Qed.

(** ** Filling again from generated version 2 entries *)

Lemma v2_chunk_data_flags_small (range_flags : Z) :
  v2_chunk_data_flags range_flags mod 2 ^ 32 = v2_chunk_data_flags range_flags.
Proof.
  unfold v2_chunk_data_flags.
  destruct (has_flag range_flags LIBEWF_RANGE_FLAG_IS_COMPRESSED),
    (has_flag range_flags LIBEWF_RANGE_FLAG_HAS_CHECKSUM),
    (has_flag range_flags LIBEWF_RANGE_FLAG_USES_PATTERN_FILL); reflexivity.
Qed.

Lemma v2_chunk_data_flags_compressed (range_flags : Z) :
  has_flag (v2_chunk_data_flags range_flags)
    LIBEWF_CHUNK_DATA_FLAG_IS_COMPRESSED
  = has_flag range_flags LIBEWF_RANGE_FLAG_IS_COMPRESSED.
Proof.
  unfold v2_chunk_data_flags.
  destruct (has_flag range_flags LIBEWF_RANGE_FLAG_IS_COMPRESSED),
    (has_flag range_flags LIBEWF_RANGE_FLAG_HAS_CHECKSUM),
    (has_flag range_flags LIBEWF_RANGE_FLAG_USES_PATTERN_FILL); reflexivity.
Qed.

Lemma v2_chunk_data_flags_pattern_fill (range_flags : Z) :
  has_flag (v2_chunk_data_flags range_flags)
    LIBEWF_CHUNK_DATA_FLAG_USES_PATTERN_FILL
  = has_flag range_flags LIBEWF_RANGE_FLAG_USES_PATTERN_FILL.
Proof.
  unfold v2_chunk_data_flags.
  destruct (has_flag range_flags LIBEWF_RANGE_FLAG_IS_COMPRESSED),
    (has_flag range_flags LIBEWF_RANGE_FLAG_HAS_CHECKSUM),
    (has_flag range_flags LIBEWF_RANGE_FLAG_USES_PATTERN_FILL); reflexivity.
Qed.

(** Reading the entry at index [k] of a buffer that has generated bytes
    there. *)
Lemma table_entry_v2_generated (out rest : list byte) (k : nat)
    (offset sz flags : Z) :
  skipn (16 * k) out
  = (byte_stream_copy_from_uint64_little_endian offset
     ++ byte_stream_copy_from_uint32_little_endian sz
     ++ byte_stream_copy_from_uint32_little_endian flags) ++ rest ->
  table_entry_v2 out k
  = Ok (offset mod 2 ^ 64, sz mod 2 ^ 32, flags mod 2 ^ 32).
Proof.
  intros H. unfold table_entry_v2. cbv zeta. rewrite H.
  rewrite <- !app_assoc.
  rewrite copy_to_from_uint64. unfold bind at 1.
  change (skipn 8 (byte_stream_copy_from_uint64_little_endian offset
                   ++ byte_stream_copy_from_uint32_little_endian sz
                   ++ byte_stream_copy_from_uint32_little_endian flags
                   ++ rest))
    with (byte_stream_copy_from_uint32_little_endian sz
          ++ byte_stream_copy_from_uint32_little_endian flags ++ rest).
  rewrite copy_to_from_uint32. unfold bind at 1.
  change (skipn 12 (byte_stream_copy_from_uint64_little_endian offset
                    ++ byte_stream_copy_from_uint32_little_endian sz
                    ++ byte_stream_copy_from_uint32_little_endian flags
                    ++ rest))
    with (byte_stream_copy_from_uint32_little_endian flags ++ rest).
  rewrite copy_to_from_uint32. reflexivity.
Qed.

(** The version 2 loop returns when the entries are in the buffer and
    the list has room. *)
Lemma fill_v2_loop_run (chunk_size file_io_pool_entry tainted : Z)
    (data : list byte) (n k0 : nat) (st : v2_locals) :
  v2_table_entries_data st = skipn (16 * k0) data ->
  (forall k : nat, (k < n)%nat ->
     exists r, table_entry_v2 data (k0 + k) = Ok r) ->
  Z.of_nat (length (v2_chunks st)) + Z.of_nat n <= INT_MAX ->
  exists st', fill_v2_loop chunk_size file_io_pool_entry tainted n st = Ok st'.
Proof.
  revert k0 st. induction n as [|n IH]; intros k0 st Hdata Hreads Hroom.
  - simpl. eauto.
  - destruct (Hreads 0%nat ltac:(lia)) as [r Hr].
    rewrite Nat.add_0_r in Hr. unfold table_entry_v2 in Hr. cbv zeta in Hr.
    rewrite <- Hdata in Hr.
    bind_inv Hr. rename a into off. bind_inv Hr. rename a into sz.
    bind_inv Hr. rename a into fl.
    assert (Hstep : exists st1,
              fill_v2_entry chunk_size file_io_pool_entry tainted st = Ok st1
              /\ v2_table_entries_data st1
                 = skipn 16 (v2_table_entries_data st)
              /\ length (v2_chunks st1) = S (length (v2_chunks st))).
    { unfold fill_v2_entry. cbv zeta.
      rewrite Ha. cbn [bind]. rewrite Ha0. cbn [bind].
      rewrite Ha1. cbn [bind].
      rewrite append_chunk_room by lia. cbn [bind].
      eexists. split; [reflexivity|].
      cbn [v2_table_entries_data v2_chunks].
      split; [reflexivity|]. rewrite length_app. simpl. lia. }
    destruct Hstep as (st1 & Hst1 & Hd1 & Hl1).
    cbn [fill_v2_loop]. rewrite Hst1. cbn [bind].
    apply (IH (S k0)).
    + rewrite Hd1, Hdata, skipn_skipn. f_equal. lia.
    + intros k Hk. replace (S k0 + k)%nat with (k0 + S k)%nat by lia.
      apply Hreads. lia.
    + rewrite Hl1. lia.
Qed.

Lemma Forall2_nth_error {A B : Type} (R : A -> B -> Prop)
    (l : list A) (l' : list B) :
  length l = length l' ->
  (forall k a b, nth_error l k = Some a -> nth_error l' k = Some b -> R a b) ->
  Forall2 R l l'.
Proof.
  revert l'. induction l as [|a l IH]; intros [|b l'] Hlen Hall;
    try discriminate; constructor.
  - apply (Hall 0%nat); reflexivity.
  - apply IH; [simpl in Hlen; lia|].
    intros k x y Hx Hy. apply (Hall (S k)); assumption.
Qed.

(** The element filled from the generated entry of an element that was
    itself filled from a version 2 entry. *)
Lemma v2_element_round_trip (header_size chunk_size file_io_pool_entry : Z)
    (table_section : libewf_section_t) (data out : list byte)
    (tainted tainted' : Z) (base_offset : Z) (k : nat) (e e' : element)
    (bytes rest : list byte) :
  v2_element_of_entry header_size chunk_size file_io_pool_entry table_section
    data tainted k e ->
  generate_table_entry 2 base_offset e = Ok bytes ->
  skipn (16 * k) out = bytes ++ rest ->
  v2_element_of_entry header_size chunk_size file_io_pool_entry table_section
    out tainted' k e' ->
  same_offset_and_compression e e'.
Proof.
  intros (off & sz & fl & _ & He) Hgen Hskip (off' & sz' & fl' & Hread' & He').
  cbv zeta in He, He'.
  apply generate_table_entry_v2_Ok in Hgen. rewrite Hgen in Hskip.
  apply table_entry_v2_generated in Hskip.
  rewrite Hskip in Hread'. apply Ok_inj in Hread'.
  assert (Hoff' : uint64 (element_offset e) = off')
    by (unfold uint64; congruence).
  assert (Hfl' : v2_chunk_data_flags (element_flags e) = fl')
    by (rewrite <- v2_chunk_data_flags_small; congruence).
  clear Hread'.
  set (rf := fill_v2_range_flags fl tainted) in *.
  set (rf' := fill_v2_range_flags fl' tainted') in *.
  assert (Hflags : element_flags e = rf) by (rewrite He; reflexivity).
  assert (Hc : has_flag rf' LIBEWF_RANGE_FLAG_IS_COMPRESSED
               = has_flag rf LIBEWF_RANGE_FLAG_IS_COMPRESSED).
  { unfold rf'. rewrite fill_v2_range_flags_compressed, <- Hfl', Hflags.
    apply v2_chunk_data_flags_compressed. }
  assert (Hp : has_flag rf' LIBEWF_RANGE_FLAG_USES_PATTERN_FILL
               = has_flag rf LIBEWF_RANGE_FLAG_USES_PATTERN_FILL).
  { unfold rf'. rewrite fill_v2_range_flags_pattern_fill, <- Hfl', Hflags.
    rewrite v2_chunk_data_flags_compressed, v2_chunk_data_flags_pattern_fill.
    unfold rf.
    rewrite fill_v2_range_flags_compressed, fill_v2_range_flags_pattern_fill.
    destruct (has_flag fl LIBEWF_CHUNK_DATA_FLAG_IS_COMPRESSED),
      (has_flag fl LIBEWF_CHUNK_DATA_FLAG_USES_PATTERN_FILL); reflexivity. }
  unfold same_offset_and_compression. rewrite He' at 1 2. rewrite Hflags.
  cbn [element_offset element_flags]. split; [|now rewrite Hc].
  unfold fill_v2_data_range. rewrite Hp.
  rewrite He at 1. cbn [element_offset]. unfold fill_v2_data_range.
  destruct (has_flag rf LIBEWF_RANGE_FLAG_USES_PATTERN_FILL) eqn:Epf;
    cbn [fst]; [reflexivity|].
  rewrite <- Hoff'.
  rewrite int64_uint64. rewrite He at 1. cbn [element_offset].
  unfold fill_v2_data_range. rewrite Epf. cbn [fst].
  symmetry. apply int64_small, int64_range.
Qed.

Lemma generate_table_entry_v2_length (base_offset : Z) (e : element)
    (bytes : list byte) :
  generate_table_entry 2 base_offset e = Ok bytes -> length bytes = 16%nat.
Proof.
  intros H. apply generate_table_entry_v2_Ok in H. subst bytes. reflexivity.
Qed.

Lemma generate_table_entry_v1_length (base_offset : Z) (e : element)
    (bytes : list byte) :
  generate_table_entry 1 base_offset e = Ok bytes -> length bytes = 4%nat.
Proof.
  intros H. apply generate_table_entry_v1_Ok in H.
  destruct H as [_ ->]. reflexivity.
Qed.

(** The version 2 half of the round trip. *)
Lemma fill_v2_round_trip (header_size chunk_size file_io_pool_entry : Z)
    (table_section : libewf_section_t) (number_of_offsets : Z)
    (number_of_offsets' : Z) (data : list byte) (data_size tainted : Z)
    (tainted' : Z) (filled : libfdata_list_t) (out out' : list byte)
    (out_size base_offset : Z) :
  libewf_chunk_group_fill_v2 header_size [] chunk_size file_io_pool_entry
    table_section number_of_offsets data data_size tainted = Ok filled ->
  libewf_chunk_group_generate_table_entries_data filled 2 out out_size
    (Z.of_nat (length filled)) base_offset = Ok out' ->
  exists filled',
    libewf_chunk_group_fill_v2 header_size [] chunk_size file_io_pool_entry
      table_section number_of_offsets' out'
      (16 * Z.of_nat (length filled)) tainted' = Ok filled'
    /\ Forall2 same_offset_and_compression filled filled'.
Proof.
  intros Hfill Hgen.
  apply fill_v2_elements in Hfill.
  destruct Hfill as (added & Hadd & _ & Hcap & Hall).
  simpl in Hadd. subst added.
  assert (Hn : Z.of_nat (length filled) <= INT_MAX).
  { destruct filled as [|e0 filled0]; [unfold INT_MAX; simpl; lia|].
    apply Hcap. discriminate. }
  unfold INT_MAX in Hn.
  (* the generated buffer *)
  unfold libewf_chunk_group_generate_table_entries_data in Hgen.
  simpl (2 =? 1) in Hgen. simpl (2 =? 2) in Hgen. cbv iota in Hgen.
  cbn [bind] in Hgen.
  destruct (out_size >? SSIZE_MAX); [discriminate|].
  destruct (_ >? out_size); [discriminate|].
  destruct (base_offset <? 0); [discriminate|].
  rewrite Nat2Z.id in Hgen.
  change sizeof_ewf_table_entry_v2_t with (Z.of_nat 16) in Hgen.
  apply (generate_loop_entries filled 2 base_offset 16
           (generate_table_entry_v2_length base_offset)) in Hgen;
    [|lia|lia].
  destruct Hgen as (tail & Hout & Hentries). simpl in Hout. subst tail.
  (* filling again returns *)
  assert (Hrun : exists filled',
            libewf_chunk_group_fill_v2 header_size [] chunk_size
              file_io_pool_entry table_section number_of_offsets' out'
              (16 * Z.of_nat (length filled)) tainted' = Ok filled').
  { unfold libewf_chunk_group_fill_v2.
    destruct (Z.gtb_spec (16 * Z.of_nat (length filled)) SSIZE_MAX)
      as [Hbig|_]; [unfold SSIZE_MAX in Hbig; lia|].
    unfold sizeof_ewf_table_entry_v2_t.
    replace (16 * Z.of_nat (length filled) / 16)
      with (Z.of_nat (length filled))
      by (rewrite Z.mul_comm, Z.div_mul; lia).
    rewrite Nat2Z.id.
    edestruct (fill_v2_loop_run chunk_size file_io_pool_entry tainted' out'
                 (length filled) 0) as [st' Hst'];
      [| | |rewrite Hst'; cbn [bind]; eauto].
    - reflexivity.
    - intros k Hk.
      destruct (Hentries k Hk) as (e & bytes & rest' & _ & Hg & Hs).
      apply generate_table_entry_v2_Ok in Hg. rewrite Hg in Hs.
      apply table_entry_v2_generated in Hs. simpl. eauto.
    - unfold INT_MAX. simpl. lia. }
  destruct Hrun as [filled' Hfill']. exists filled'.
  split; [exact Hfill'|].
  apply fill_v2_elements in Hfill'.
  destruct Hfill' as (added' & Hadd' & Hlen' & _ & Hall').
  simpl in Hadd'. subst added'.
  apply Forall2_nth_error.
  - rewrite Hlen'.
    replace (16 * Z.of_nat (length filled) / 16)
      with (Z.of_nat (length filled))
      by (rewrite Z.mul_comm, Z.div_mul; lia).
    now rewrite Nat2Z.id.
  - intros k e e' He He'.
    assert (Hk : (k < length filled)%nat)
      by (apply nth_error_Some; congruence).
    destruct (Hentries k Hk) as (e1 & bytes & rest' & He1 & Hg & Hs).
    simpl in He1. rewrite He in He1. injection He1 as <-.
    eapply v2_element_round_trip; eauto.
Qed.

(** ** Two fill passes over tables with the same stored offsets *)

Lemma v1_same_locals_derived (st st' : v1_locals) (stored current sz : Z) :
  v1_same_locals st st' ->
  v1_current_offset st = v1_current_offset st'
  /\ v1_is_compressed st = v1_is_compressed st'
  /\ v1_entry_size st stored = v1_entry_size st' stored
  /\ v1_overflows st current sz = v1_overflows st' current sz.
Proof.
  intros (Hs & Hc & Ho & _).
  unfold v1_entry_size, v1_next_offset, v1_current_offset, v1_is_compressed,
    v1_overflows.
  rewrite Hs, Hc, Ho. auto.
Qed.

Lemma fill_v1_entry_run (chunk_size file_io_pool_entry base_offset : Z)
    (data : list byte) (tainted i stored : Z) (st : v1_locals) :
  table_entry_v1 data (i + 1) = Ok stored ->
  Z.of_nat (length (chunks st)) < INT_MAX ->
  exists st',
    fill_v1_entry chunk_size file_io_pool_entry base_offset data tainted i st
    = Ok st'.
Proof.
  intros Hread Hroom. unfold fill_v1_entry. cbv zeta.
  rewrite Hread. cbn [bind].
  destruct (v1_chunk_data_size _ _ _) as [corrupted sz].
  rewrite append_chunk_room by exact Hroom. cbn [bind]. eauto.
Qed.

(** The first pass reads [data] and is told [tainted], the second reads
    [data'] and is told [tainted']. *)
Section TwoPasses.

Variables chunk_size file_io_pool_entry base_offset : Z.
Variables data data' : list byte.
Variables tainted tainted' : Z.

Lemma fill_v1_entry_sim (i : Z) (st1 st1' st2 : v1_locals) :
  table_entry_v1 data' (i + 1) = table_entry_v1 data (i + 1) ->
  v1_same_locals st1 st2 ->
  fill_v1_entry chunk_size file_io_pool_entry base_offset data tainted i st1
  = Ok st1' ->
  exists st2',
    fill_v1_entry chunk_size file_io_pool_entry base_offset data' tainted'
      i st2 = Ok st2'
    /\ v1_same_locals st1' st2'.
Proof.
  intros Hreads Hsame H1.
  apply fill_v1_entry_Ok in H1.
  destruct H1 as (stored & Hrd & Hroom & Hs1 & Ho1 & Hc1 & _ & _ & Hch1).
  pose proof Hsame as (_ & _ & Hoo & Hlists).
  assert (Hroom2 : Z.of_nat (length (chunks st2)) < INT_MAX)
    by (rewrite <- (Forall2_length Hlists); exact Hroom).
  rewrite <- Hreads in Hrd.
  destruct (fill_v1_entry_run chunk_size file_io_pool_entry base_offset data'
              tainted' i stored st2 Hrd Hroom2) as [st2' H2].
  exists st2'. split; [exact H2|].
  apply fill_v1_entry_Ok in H2.
  destruct H2 as (stored' & Hrd' & _ & Hs2 & Ho2 & Hc2 & _ & _ & Hch2).
  assert (stored' = stored) as -> by congruence.
  destruct (v1_same_locals_derived st1 st2 stored (v1_current_offset st1)
              (snd (v1_entry_size st1 stored)) Hsame)
    as (Hcur & Hic & Hsz & Hov).
  rewrite <- Hcur, <- Hic, <- Hsz, <- Hov, <- Hoo in *.
  unfold v1_same_locals.
  rewrite Hs1, Hs2, Ho1, Ho2, Hc1, Hc2, Hch1, Hch2.
  repeat split.
  apply Forall2_app; [exact Hlists|].
  constructor; [|constructor].
  unfold same_offset_and_compression. cbn [element_offset element_flags].
  split; [reflexivity|].
  now rewrite !fill_v1_range_flags_compressed.
Qed.

Lemma fill_v1_loop_sim (n : nat) :
  forall (i : Z) (st1 st1' st2 : v1_locals),
    (forall k, i < k <= i + Z.of_nat n ->
       table_entry_v1 data' k = table_entry_v1 data k) ->
    v1_same_locals st1 st2 ->
    fill_v1_loop chunk_size file_io_pool_entry base_offset data tainted
      n i st1 = Ok st1' ->
    exists st2',
      fill_v1_loop chunk_size file_io_pool_entry base_offset data' tainted'
        n i st2 = Ok st2'
      /\ v1_same_locals st1' st2'.
Proof.
  induction n as [|n IH]; intros i st1 st1' st2 Hreads Hsame H1.
  - simpl in H1. apply Ok_inj in H1. subst st1'. simpl. eauto.
  - simpl in H1. bind_inv H1. rename a into st1a.
    destruct (fill_v1_entry_sim i st1 st1a st2)
      as (st2a & H2a & Hsame_a); auto.
    { apply Hreads. lia. }
    destruct (IH (i + 1) st1a st1' st2a) as (st2' & H2 & Hsame'); auto.
    { intros k Hk. apply Hreads. lia. }
    exists st2'. split; [|exact Hsame'].
    simpl. rewrite H2a. cbn [bind]. exact H2.
Qed.

Lemma fill_v1_last_sim (table_section : libewf_section_t)
    (st1 st2 : v1_locals) (l1 : libfdata_list_t) :
  v1_same_locals st1 st2 ->
  fill_v1_last chunk_size file_io_pool_entry table_section base_offset
    tainted st1 = Ok l1 ->
  exists l2,
    fill_v1_last chunk_size file_io_pool_entry table_section base_offset
      tainted' st2 = Ok l2
    /\ Forall2 same_offset_and_compression l1 l2.
Proof.
  intros Hsame H1. apply fill_v1_last_Ok in H1. cbv zeta in H1.
  destruct H1 as [Hroom ->].
  pose proof Hsame as (_ & _ & _ & Hlists).
  destruct (v1_same_locals_derived st1 st2 0 0 0 Hsame)
    as (Hcur & Hic & _ & _).
  unfold fill_v1_last. rewrite last_chunk_data_offset_test.
  rewrite append_chunk_room
    by (rewrite <- (Forall2_length Hlists); exact Hroom).
  eexists. split; [reflexivity|].
  apply Forall2_app; [exact Hlists|].
  constructor; [|constructor].
  unfold same_offset_and_compression. cbn [element_offset element_flags].
  rewrite !fill_v1_range_flags_compressed, Hcur, Hic. auto.
Qed.

End TwoPasses.

(** ** Generated version 1 entries are the stored offsets *)

Lemma lor_top_bit (x : Z) :
  0 <= x < 2 ^ 31 -> Z.lor x 0x80000000 = x + 2 ^ 31.
Proof.
  intros Hx. change 0x80000000 with (2 ^ 31).
  assert (Hland : Z.land x (2 ^ 31) = 0).
  { rewrite land_pow2 by lia.
    destruct (Z.eq_dec x 0) as [->|Hx0]; [reflexivity|].
    rewrite (Z.bits_above_log2 x 31); [reflexivity|lia|].
    apply Z.log2_lt_pow2; lia. }
  rewrite <- Z.lxor_lor by exact Hland.
  symmetry. apply Z.add_nocarry_lxor. exact Hland.
Qed.

Lemma v1_current_offset_range (st : v1_locals) :
  0 <= stored_offset st < 2 ^ 32 -> 0 <= v1_current_offset st < 2 ^ 32.
Proof.
  intros Hs. unfold v1_current_offset. destruct (overflow st =? 0); [|lia].
  rewrite land_0x7fffffff.
  pose proof (Z.mod_pos_bound (stored_offset st) (2 ^ 31) ltac:(lia)). lia.
Qed.

(** When the overflow test of a turn succeeds, the next stored offset is
    above INT32_MAX. *)
Lemma v1_overflows_stored (st : v1_locals) (stored : Z) :
  overflow st = 0 ->
  0 <= stored < 2 ^ 32 ->
  v1_overflows st (v1_current_offset st) (snd (v1_entry_size st stored))
  = true ->
  stored > INT32_MAX.
Proof.
  intros Hov Hst Hlatch.
  destruct (v1_entry_size_sum st stored Hov Hst) as (Hc & Hge & Hlt).
  unfold v1_overflows in Hlatch. rewrite Hov in Hlatch.
  simpl (0 =? 0) in Hlatch. cbv [andb] in Hlatch.
  apply Z.gtb_lt in Hlatch.
  assert (Hsz : 0 <= snd (v1_entry_size st stored)).
  { unfold v1_entry_size, v1_chunk_data_size.
    destruct (_ <? _); simpl; apply uint32_range. }
  destruct (Z.lt_ge_cases stored (v1_current_offset st)) as [Hbelow|Habove].
  - exfalso. specialize (Hlt Hbelow). rewrite Hlt in Hlatch.
    unfold uint32 in Hlatch.
    replace (stored + 2 ^ 32) with (stored + 1 * 2 ^ 32) in Hlatch by lia.
    rewrite Z.mod_add, Z.mod_small in Hlatch by lia.
    unfold INT32_MAX in Hlatch. lia.
  - destruct (Hge Habove) as [Hsum Himp].
    rewrite uint32_small in Hlatch by lia. apply Himp. lia.
Qed.

(** An element made from an entry, whose offset fits a table entry, was
    made with the overflow flag clear, and the table offset generated
    for it is the stored offset of the entry. *)
Lemma v1_table_offset_of_entry (base_offset : Z) (st : v1_locals)
    (e : element) :
  0 <= stored_offset st < 2 ^ 32 ->
  v1_overflowed_past st ->
  element_offset e = int64 (base_offset + v1_current_offset st) ->
  has_flag (element_flags e) LIBEWF_RANGE_FLAG_IS_COMPRESSED
  = negb (v1_is_compressed st =? 0) ->
  v1_offset_fits base_offset e ->
  overflow st = 0 /\ v1_table_offset base_offset e = stored_offset st.
Proof.
  intros Hs Hpast Hoff Hflag Hfits.
  pose proof (v1_current_offset_range st Hs) as Hcur.
  assert (Hrel : int64 (element_offset e - base_offset)
                 = v1_current_offset st).
  { rewrite Hoff, int64_sub_l.
    replace (base_offset + v1_current_offset st - base_offset)
      with (v1_current_offset st) by lia.
    apply int64_small. lia. }
  unfold v1_offset_fits in Hfits. rewrite Hrel in Hfits.
  unfold INT32_MAX in Hfits.
  assert (Hov : overflow st = 0).
  { destruct (Z.eq_dec (overflow st) 0) as [E|E]; [exact E|].
    exfalso. rewrite (v1_current_offset_set st E) in Hfits.
    specialize (Hpast E). unfold INT32_MAX in Hpast. lia. }
  split; [exact Hov|].
  unfold v1_table_offset. rewrite Hflag, Hrel.
  rewrite (uint32_small (v1_current_offset st)) by lia.
  rewrite (v1_current_offset_clear st Hov).
  unfold v1_is_compressed. rewrite Hov. simpl (0 =? 0). cbv iota.
  rewrite Z.shiftr_div_pow2 by lia.
  pose proof (Z.div_mod (stored_offset st) (2 ^ 31) ltac:(lia)) as Hdm.
  pose proof (Z.mod_pos_bound (stored_offset st) (2 ^ 31) ltac:(lia)) as Hm.
  destruct (Z.lt_ge_cases (stored_offset st) (2 ^ 31)) as [Hlow|Hhigh].
  - rewrite (Z.div_small (stored_offset st)) by lia.
    simpl. apply Z.mod_small. lia.
  - assert (Hq : stored_offset st / 2 ^ 31 = 1).
    { assert (0 < stored_offset st / 2 ^ 31 < 2); [|lia].
      split; [apply Z.div_str_pos; lia|apply Z.div_lt_upper_bound; lia]. }
    rewrite Hq. simpl (negb (uint8 1 =? 0)). cbv iota.
    rewrite lor_top_bit by lia. lia.
Qed.

Lemma fill_v1_loop_appends (chunk_size file_io_pool_entry base_offset : Z)
    (data : list byte) (tainted : Z) (n : nat) (i : Z) (st st' : v1_locals) :
  fill_v1_loop chunk_size file_io_pool_entry base_offset data tainted n i st
  = Ok st' ->
  exists added, chunks st' = chunks st ++ added /\ length added = n.
Proof.
  intros H.
  destruct (fill_v1_loop_ind chunk_size file_io_pool_entry base_offset data
              tainted (fun _ _ => True) (fun _ _ => True))
    with (n := n) (i := i) (st := st) (st' := st')
    as (_ & added & Hadd & Hlen & _); eauto.
  intros j s s' _ Hstep. split; [exact I|].
  apply fill_v1_entry_Ok in Hstep.
  destruct Hstep as (? & _ & _ & _ & _ & _ & _ & _ & Hch). eauto.
Qed.

(** The elements the loop appended, when their offsets all fit table
    entries, were made from the stored offsets that are generated for
    them, and the loop has not overflowed. *)
Lemma fill_v1_loop_generated (chunk_size file_io_pool_entry base_offset : Z)
    (data : list byte) (tainted : Z) (n : nat) :
  forall (i : Z) (st st' : v1_locals) (added : libfdata_list_t),
    fill_v1_loop chunk_size file_io_pool_entry base_offset data tainted
      n i st = Ok st' ->
    table_entry_v1 data i = Ok (stored_offset st) ->
    v1_overflowed_past st ->
    chunks st' = chunks st ++ added ->
    Forall (v1_offset_fits base_offset) added ->
    table_entry_v1 data (i + Z.of_nat n) = Ok (stored_offset st')
    /\ v1_overflowed_past st'
    /\ forall (k : nat) (e : element),
         nth_error added k = Some e ->
         table_entry_v1 data (i + Z.of_nat k)
         = Ok (v1_table_offset base_offset e).
Proof.
  induction n as [|n IH]; intros i st st' added Hloop Hread Hpast Hadd Hfits.
  - simpl in Hloop. apply Ok_inj in Hloop. subst st'.
    rewrite Z.add_0_r. split; [exact Hread|]. split; [exact Hpast|].
    rewrite <- (app_nil_r (chunks st)) in Hadd at 1.
    apply app_inv_head in Hadd. subst added.
    intros [|k] e; discriminate.
  - simpl in Hloop. bind_inv Hloop. rename a into st1.
    destruct (fill_v1_loop_appends _ _ _ _ _ _ _ _ _ Hloop)
      as (added' & Hadd' & _).
    apply fill_v1_entry_Ok in Ha.
    destruct Ha as (stored & Hrd & _ & Hs1 & Ho1 & _ & _ & _ & Hch1).
    rewrite Hch1, <- app_assoc in Hadd'. rewrite Hadd' in Hadd.
    apply app_inv_head in Hadd. subst added.
    cbn [app] in Hfits. apply Forall_cons_iff in Hfits.
    destruct Hfits as [Hfit0 Hfits'].
    pose proof (table_entry_v1_range _ _ _ Hread) as Hsr.
    pose proof (table_entry_v1_range _ _ _ Hrd) as Hsr1.
    destruct ((fun H1 H2 =>
                 v1_table_offset_of_entry base_offset st _ Hsr Hpast H1 H2
                   Hfit0)
                eq_refl (fill_v1_range_flags_compressed _ _ _))
      as (Hov & Hto).
    assert (Hpast1 : v1_overflowed_past st1).
    { intros Hset. rewrite Hs1. rewrite Ho1 in Hset.
      destruct (v1_overflows st (v1_current_offset st)
                  (snd (v1_entry_size st stored))) eqn:Hlatch.
      - eapply v1_overflows_stored; eauto.
      - congruence. }
    destruct (IH (i + 1) st1 st' added' Hloop) as (Hrd' & Hpast' & Hall);
      auto.
    { rewrite Hs1. exact Hrd. }
    { rewrite Hch1, <- app_assoc. exact Hadd'. }
    replace (i + Z.of_nat (S n)) with (i + 1 + Z.of_nat n) by lia.
    split; [exact Hrd'|]. split; [exact Hpast'|].
    intros [|k] e Hk; cbn [app nth_error] in Hk.
    + apply (f_equal (fun o => match o with
                               | Some x => v1_table_offset base_offset x
                               | None => 0
                               end)) in Hk.
      cbv beta iota in Hk. rewrite <- Hk, Hto, Z.add_0_r. exact Hread.
    + replace (i + Z.of_nat (S k)) with (i + 1 + Z.of_nat k) by lia.
      apply Hall. exact Hk.
Qed.

(** The version 1 half of the round trip. *)
Lemma fill_v1_round_trip (chunk_size file_io_pool_entry : Z)
    (table_section : libewf_section_t) (base_offset number_of_entries : Z)
    (data : list byte) (data_size tainted tainted' : Z)
    (filled : libfdata_list_t) (out out' : list byte) (out_size : Z) :
  0 <= number_of_entries < 2 ^ 32 ->
  libewf_chunk_group_fill_v1 [] chunk_size file_io_pool_entry table_section
    base_offset number_of_entries data data_size tainted = Ok filled ->
  libewf_chunk_group_generate_table_entries_data filled 1 out out_size
    number_of_entries base_offset = Ok out' ->
  exists filled',
    libewf_chunk_group_fill_v1 [] chunk_size file_io_pool_entry table_section
      base_offset number_of_entries out' out_size tainted' = Ok filled'
    /\ Forall2 same_offset_and_compression filled filled'.
Proof.
  intros HN Hfill Hgen.
  (* the first pass *)
  unfold libewf_chunk_group_fill_v1 in Hfill.
  destruct (base_offset <? 0) eqn:Hbase; [discriminate|].
  destruct (data_size >? SSIZE_MAX); [discriminate|].
  bind_inv Hfill. rename a into stored0. rename Ha into Hread0.
  bind_inv Hfill. rename a into st. rename Ha into Hloop.
  pose proof Hfill as Hlast. apply fill_v1_last_Ok in Hlast.
  cbv zeta in Hlast. destruct Hlast as [Hroom Hfilled].
  destruct (fill_v1_loop_appends _ _ _ _ _ _ _ _ _ Hloop)
    as (added & Hadd & Hlen).
  cbn [v1_initial chunks app] in Hadd.
  rewrite Hadd, Hlen in Hroom. unfold INT_MAX in Hroom.
  assert (HN1 : 1 <= number_of_entries).
  { destruct (Z.eq_dec number_of_entries 0) as [->|Hne]; [|lia].
    exfalso. change (uint32 (0 - 1)) with (2 ^ 32 - 1) in Hroom. lia. }
  rewrite (uint32_small (number_of_entries - 1)) in * by lia.
  set (n := Z.to_nat (number_of_entries - 1)) in *.
  set (last := {| element_file_index := file_io_pool_entry |}) in Hfilled.
  rewrite Hadd in Hfilled.
  assert (Hlength : length filled = S n)
    by (rewrite Hfilled, length_app, Hlen; simpl; lia).
  (* the generated buffer *)
  unfold libewf_chunk_group_generate_table_entries_data in Hgen.
  simpl (1 =? 1) in Hgen. cbv iota in Hgen. cbn [bind] in Hgen.
  destruct (out_size >? SSIZE_MAX) eqn:Hout_size; [discriminate|].
  destruct (_ >? out_size); [discriminate|].
  rewrite Hbase in Hgen.
  change sizeof_ewf_table_entry_v1_t with (Z.of_nat 4) in Hgen.
  apply (generate_loop_entries filled 1 base_offset 4
           (generate_table_entry_v1_length base_offset)) in Hgen;
    [|lia|lia].
  destruct Hgen as (tail & Hout & Hentries). simpl in Hout. subst tail.
  assert (Hgenerated : forall (k : nat) (e : element),
            nth_error filled k = Some e ->
            v1_offset_fits base_offset e
            /\ table_entry_v1 out' (Z.of_nat k)
               = Ok (v1_table_offset base_offset e mod 2 ^ 32)).
  { intros k e He.
    assert (Hk : (k < Z.to_nat number_of_entries)%nat).
    { assert (k < length filled)%nat by (apply nth_error_Some; congruence).
      lia. }
    destruct (Hentries k Hk) as (e1 & bytes & rest' & He1 & Hg & Hs).
    simpl in He1. rewrite He in He1. injection He1 as <-.
    apply generate_table_entry_v1_Ok in Hg. destruct Hg as [Hfit ->].
    split; [exact Hfit|].
    unfold table_entry_v1, sizeof_ewf_table_entry_v1_t.
    replace (Z.to_nat (4 * Z.of_nat k)) with (4 * k)%nat by lia.
    rewrite Hs. apply copy_to_from_uint32. }
  (* the stored offsets of the first table are the generated ones *)
  assert (Hfits : Forall (v1_offset_fits base_offset) added).
  { apply Forall_forall. intros e Hin.
    apply In_nth_error in Hin. destruct Hin as [k Hk].
    apply (Hgenerated k). rewrite Hfilled.
    rewrite nth_error_app1; [exact Hk|].
    apply nth_error_Some. congruence. }
  destruct (fill_v1_loop_generated chunk_size file_io_pool_entry base_offset
              data tainted n 0 (v1_initial [] stored0) st added)
    as (Hread_n & Hpast & Hstored); auto.
  { intros H. exfalso. apply H. reflexivity. }
  pose proof (table_entry_v1_range _ _ _ Hread_n) as Hrange_n.
  assert (Hlast_fit : v1_offset_fits base_offset last).
  { apply (Hgenerated n). rewrite Hfilled.
    rewrite nth_error_app2 by lia.
    replace (n - length added)%nat with 0%nat by lia. reflexivity. }
  destruct ((fun H1 H2 =>
               v1_table_offset_of_entry base_offset st last Hrange_n Hpast
                 H1 H2 Hlast_fit)
              eq_refl (fill_v1_range_flags_compressed _ _ _))
    as (_ & Hlast_offset).
  assert (Hreads : forall k : Z,
            0 <= k < number_of_entries ->
            table_entry_v1 out' k = table_entry_v1 data k).
  { intros k Hk.
    destruct (nth_error filled (Z.to_nat k)) as [e|] eqn:He.
    2:{ apply nth_error_None in He. lia. }
    destruct (Hgenerated _ _ He) as [_ Hout].
    rewrite Z2Nat.id in Hout by lia.
    assert (Hdata : table_entry_v1 data k
                    = Ok (v1_table_offset base_offset e)).
    { rewrite Hfilled in He.
      destruct (Nat.lt_ge_cases (Z.to_nat k) (length added)) as [Hlt|Hge].
      - rewrite nth_error_app1 in He by exact Hlt.
        specialize (Hstored _ _ He).
        rewrite Z2Nat.id in Hstored by lia. exact Hstored.
      - rewrite nth_error_app2 in He by exact Hge.
        replace (Z.to_nat k - length added)%nat with 0%nat in He by lia.
        simpl in He. injection He as <-.
        rewrite Hlast_offset.
        replace k with (0 + Z.of_nat n) by lia. exact Hread_n. }
    rewrite Hout, Hdata. f_equal.
    apply Z.mod_small. eapply table_entry_v1_range, Hdata. }
  (* the second pass *)
  unfold libewf_chunk_group_fill_v1.
  rewrite Hbase, Hout_size, (Hreads 0), Hread0 by lia. cbn [bind].
  rewrite (uint32_small (number_of_entries - 1)) by lia. fold n.
  destruct (fill_v1_loop_sim chunk_size file_io_pool_entry base_offset data
              out' tainted tainted' n 0 (v1_initial [] stored0) st
              (v1_initial [] stored0))
    as (st2 & Hloop2 & Hsame); auto.
  { intros k Hk. apply Hreads. lia. }
  { repeat split. constructor. }
  rewrite Hloop2. cbn [bind].
  eapply fill_v1_last_sim; eauto.
Qed.

(** C8: when a fill of an empty list returns success and the table
    entries generated from the list it made, in the same format version
    and for all its elements, are generated with success, a fill from the
    generated bytes with the same base offset, section and chunk size
    returns success too, whatever its tainted argument, and its elements
    have, position by position, the offsets and the IS_COMPRESSED flags of
    the elements of the first list. *)
Theorem fill_of_generated_entries :
  (forall (chunk_size file_io_pool_entry : Z)
          (table_section : libewf_section_t)
          (base_offset number_of_entries : Z) (data : list byte)
          (data_size tainted tainted' : Z) (filled : libfdata_list_t)
          (out out' : list byte) (out_size : Z),
      0 <= number_of_entries < 2 ^ 32 ->
      libewf_chunk_group_fill_v1 [] chunk_size file_io_pool_entry
        table_section base_offset number_of_entries data data_size tainted
      = Ok filled ->
      libewf_chunk_group_generate_table_entries_data filled 1 out out_size
        number_of_entries base_offset = Ok out' ->
      exists filled',
        libewf_chunk_group_fill_v1 [] chunk_size file_io_pool_entry
          table_section base_offset number_of_entries out' out_size tainted'
        = Ok filled'
        /\ Forall2 same_offset_and_compression filled filled')
  /\
  (forall (header_size chunk_size file_io_pool_entry : Z)
          (table_section : libewf_section_t)
          (number_of_offsets number_of_offsets' : Z) (data : list byte)
          (data_size tainted tainted' : Z) (filled : libfdata_list_t)
          (out out' : list byte) (out_size base_offset : Z),
      libewf_chunk_group_fill_v2 header_size [] chunk_size file_io_pool_entry
        table_section number_of_offsets data data_size tainted = Ok filled ->
      libewf_chunk_group_generate_table_entries_data filled 2 out out_size
        (Z.of_nat (length filled)) base_offset = Ok out' ->
      exists filled',
        libewf_chunk_group_fill_v2 header_size [] chunk_size
          file_io_pool_entry table_section number_of_offsets' out'
          (16 * Z.of_nat (length filled)) tainted' = Ok filled'
        /\ Forall2 same_offset_and_compression filled filled').
Proof.
  split.
  - intros. eapply fill_v1_round_trip; eauto.
  - intros. eapply fill_v2_round_trip; eauto.
Qed.

Lemma fill_of_generated_entries_witness :
  (libewf_chunk_group_fill_v1 [] 0x10000 0 section_0x40110 0x100 4
     table_four_chunks 16 0 = Ok four_chunks_filled
   /\ libewf_chunk_group_generate_table_entries_data four_chunks_filled 1
        (repeat x00 16) 16 4 0x100 = Ok table_four_chunks
   /\ exists filled',
        libewf_chunk_group_fill_v1 [] 0x10000 0 section_0x40110 0x100 4
          table_four_chunks 16 1 = Ok filled'
        /\ Forall2 same_offset_and_compression four_chunks_filled filled')
  /\
  (libewf_chunk_group_fill_v2 24 [] 0x8000 0 section_0x1000_0x2000 2
     table_v2_two_entries 32 0 = Ok two_entries_filled
   /\ libewf_chunk_group_generate_table_entries_data two_entries_filled 2
        (repeat x00 32) 32 (Z.of_nat (length two_entries_filled)) 0
      = Ok two_entries_generated
   /\ exists filled',
        libewf_chunk_group_fill_v2 24 [] 0x8000 0 section_0x1000_0x2000 0
          two_entries_generated
          (16 * Z.of_nat (length two_entries_filled)) 1 = Ok filled'
        /\ Forall2 same_offset_and_compression two_entries_filled filled').
Proof.
  split.
  - split; [vm_compute; reflexivity|].
    split; [vm_compute; reflexivity|].
    apply (proj1 fill_of_generated_entries 0x10000 0 section_0x40110 0x100 4
             table_four_chunks 16 0 1 four_chunks_filled (repeat x00 16)
             table_four_chunks 16).
    + lia.
    + vm_compute. reflexivity.
    + vm_compute. reflexivity.
  - split; [vm_compute; reflexivity|].
    split; [vm_compute; reflexivity|].
    apply (proj2 fill_of_generated_entries 24 0x8000 0 section_0x1000_0x2000
             2 0 table_v2_two_entries 32 0 1 two_entries_filled
             (repeat x00 32) two_entries_generated 32 0).
    + vm_compute. reflexivity.
    + vm_compute. reflexivity.
Defined.

(** * Further properties of the four functions *)

(** ** When the fill pass returns success *)

Lemma table_entry_v1_Ok_in_buffer (data : list byte) (i v : Z) :
  0 <= i ->
  table_entry_v1 data i = Ok v ->
  4 * i + 4 <= Z.of_nat (length data).
Proof.
  intros Hi H.
  destruct (Z.le_gt_cases (4 * i + 4) (Z.of_nat (length data))) as [Hle|Hgt];
    [exact Hle|].
  rewrite table_entry_v1_outside in H by lia. discriminate.
Qed.

Lemma fill_v1_loop_run (chunk_size file_io_pool_entry base_offset : Z)
    (data : list byte) (tainted : Z) (n : nat) :
  forall (i : Z) (st : v1_locals),
    0 <= i ->
    4 * (i + Z.of_nat n) + 4 <= Z.of_nat (length data) ->
    Z.of_nat (length (chunks st)) + Z.of_nat n <= INT_MAX ->
    exists st',
      fill_v1_loop chunk_size file_io_pool_entry base_offset data tainted
        n i st = Ok st'.
Proof.
  induction n as [|n IH]; intros i st Hi Hdata Hroom.
  - simpl. eauto.
  - destruct (table_entry_v1_in_buffer data (i + 1)) as [stored Hread];
      [lia|lia|].
    destruct (fill_v1_entry_run chunk_size file_io_pool_entry base_offset
                data tainted i stored st Hread) as [st1 Hst1]; [lia|].
    cbn [fill_v1_loop]. rewrite Hst1. cbn [bind].
    apply IH; [lia|lia|].
    apply fill_v1_entry_Ok in Hst1.
    destruct Hst1 as (? & _ & _ & _ & _ & _ & _ & _ & Hch).
    rewrite Hch, length_app. simpl length. lia.
Qed.

(** X1: a call of the fill pass returns success exactly when the base
    offset is not negative, the size of the table entries data is at most
    SSIZE_MAX, there is at least one entry, the buffer holds 4 bytes for
    each entry and the list has room for one element per entry.  What the
    entries hold plays no part: entries that are corrupted are flagged,
    and the pass goes on. *)
Theorem fill_v1_returns_success_iff :
  forall (l : libfdata_list_t) (chunk_size file_io_pool_entry : Z)
         (table_section : libewf_section_t)
         (base_offset number_of_entries : Z) (data : list byte)
         (data_size tainted : Z),
    0 <= number_of_entries < 2 ^ 32 ->
    (exists l',
       libewf_chunk_group_fill_v1 l chunk_size file_io_pool_entry
         table_section base_offset number_of_entries data data_size tainted
       = Ok l')
    <-> (0 <= base_offset
         /\ data_size <= SSIZE_MAX
         /\ 1 <= number_of_entries
         /\ 4 * number_of_entries <= Z.of_nat (length data)
         /\ Z.of_nat (length l) + number_of_entries <= INT_MAX).
Proof.
  intros l chunk_size pool section base N data data_size tainted HN.
  unfold libewf_chunk_group_fill_v1.
  destruct (Z.ltb_spec base 0) as [Hneg|Hbase].
  { split; [intros [l' H]; discriminate|intros (H & _); lia]. }
  destruct (Z.gtb_spec data_size SSIZE_MAX) as [Hbig|Hsize].
  { split; [intros [l' H]; discriminate|intros (_ & H & _); lia]. }
  split.
  - intros [l' H].
    bind_inv H. rename a into stored0. bind_inv H. rename a into st.
    destruct (fill_v1_loop_elements _ _ _ _ _ _ _ _ _ Ha Ha0)
      as (Hst & _ & added & Hadd & Hlen & _).
    apply fill_v1_last_Ok in H. cbv zeta in H. destruct H as [Hroom _].
    rewrite Hadd, length_app, Hlen in Hroom. unfold INT_MAX in *.
    assert (HN1 : 1 <= N).
    { destruct (Z.eq_dec N 0) as [->|Hne]; [|lia].
      exfalso. change (uint32 (0 - 1)) with (2 ^ 32 - 1) in Hroom. lia. }
    rewrite (uint32_small (N - 1)) in * by lia.
    apply table_entry_v1_Ok_in_buffer in Hst; lia.
  - intros (_ & _ & HN1 & Hdata & Hroom).
    destruct (table_entry_v1_in_buffer data 0) as [stored0 Hread];
      [lia|lia|].
    rewrite Hread. cbn [bind].
    rewrite (uint32_small (N - 1)) by lia.
    destruct (fill_v1_loop_run chunk_size pool base data tainted
                (Z.to_nat (N - 1)) 0 (v1_initial l stored0)) as [st Hst];
      [lia|lia|simpl; lia|].
    rewrite Hst. cbn [bind].
    destruct (fill_v1_loop_appends _ _ _ _ _ _ _ _ _ Hst)
      as (added & Hadd & Hlen).
    unfold fill_v1_last. rewrite last_chunk_data_offset_test.
    rewrite append_chunk_room; [eauto|].
    rewrite Hadd, length_app, Hlen. simpl. unfold INT_MAX in *. lia.
Qed.

Lemma fill_v1_returns_success_iff_witness :
  (exists l',
     libewf_chunk_group_fill_v1 [] 0x10000 0 section_0x40110 0x100 4
       table_four_chunks 16 0 = Ok l')
  <-> (0 <= 0x100
       /\ 16 <= SSIZE_MAX
       /\ 1 <= 4
       /\ 4 * 4 <= Z.of_nat (length table_four_chunks)
       /\ Z.of_nat (length (@nil element)) + 4 <= INT_MAX).
Proof.
  apply (fill_v1_returns_success_iff [] 0x10000 0 section_0x40110 0x100 4
           table_four_chunks 16 0).
  lia.
Defined.

(** ** The correct pass works in place *)

Lemma int32_small (i : Z) : 0 <= i < 2 ^ 31 -> int32 i = i.
Proof.
  intros Hi. unfold int32. rewrite Z.mod_small by lia. lia.
Qed.

Lemma correct_v1_range_flags_tainted (is_compressed corrupted tainted : Z) :
  has_flag (correct_v1_range_flags is_compressed corrupted tainted)
    LIBEWF_RANGE_FLAG_IS_TAINTED = negb (tainted =? 0).
Proof.
  unfold correct_v1_range_flags.
  destruct (is_compressed =? 0), (corrupted =? 0), (tainted =? 0);
    reflexivity.
Qed.

(** A comparison that returns has found the element at the index, which
    is below 2^31, and has left every other element alone. *)
Lemma correct_v1_element_frame (l l' : libfdata_list_t)
    (i file_io_pool_entry offset sz range_flags corrupted tainted : Z) :
  0 <= i < 2 ^ 32 ->
  correct_v1_element l i file_io_pool_entry offset sz range_flags corrupted
    tainted = Ok l' ->
  i < 2 ^ 31
  /\ i < Z.of_nat (length l)
  /\ length l' = length l
  /\ (forall k : nat, k <> Z.to_nat i -> nth_error l' k = nth_error l k)
  /\ exists previous,
       nth_error l (Z.to_nat i) = Some previous
       /\ nth_error l' (Z.to_nat i)
          = Some (if v1_update_data_range
                       (v1_mismatch offset sz range_flags previous)
                       corrupted tainted (element_flags previous)
                  then {| element_file_index := file_io_pool_entry;
                          element_offset := offset;
                          element_size := sz;
                          element_flags := range_flags;
                          mapped_range := mapped_range previous |}
                  else previous).
Proof.
  intros Hi H. apply correct_v1_element_Ok in H.
  destruct H as (previous & Hpos & Hnth & ->).
  rewrite (int32_index i Hi Hpos) in *.
  assert (Hlt : (Z.to_nat i < length l)%nat)
    by (apply nth_error_Some; congruence).
  assert (Hsmall : i < 2 ^ 31).
  { destruct (Z.lt_ge_cases i (2 ^ 31)) as [?|Hge]; [assumption|].
    exfalso. clear Hnth Hlt. revert Hpos. unfold int32.
    replace (i + 2 ^ 31) with (i - 2 ^ 31 + 1 * 2 ^ 32) by lia.
    rewrite Z.mod_add, Z.mod_small by lia. lia. }
  split; [exact Hsmall|]. split; [lia|].
  split.
  { destruct (v1_update_data_range _ _ _ _);
      [apply replace_nth_length|reflexivity]. }
  split.
  { intros k Hk. destruct (v1_update_data_range _ _ _ _); [|reflexivity].
    rewrite nth_error_replace_nth.
    destruct (Nat.eqb_spec k (Z.to_nat i)); [contradiction|reflexivity]. }
  exists previous. split; [exact Hnth|].
  destruct (v1_update_data_range _ _ _ _); [|exact Hnth].
  rewrite nth_error_replace_nth, Nat.eqb_refl, Hnth. reflexivity.
Qed.

Lemma correct_v1_element_run (l : libfdata_list_t)
    (i file_io_pool_entry offset sz range_flags corrupted tainted : Z) :
  0 <= i < 2 ^ 31 ->
  i < Z.of_nat (length l) ->
  exists l',
    correct_v1_element l i file_io_pool_entry offset sz range_flags corrupted
      tainted = Ok l'.
Proof.
  intros Hi Hlen. unfold correct_v1_element,
    libfdata_list_set_element_by_index, libfdata_list_get_element_by_index.
  rewrite (int32_small i Hi).
  destruct (Z.ltb_spec i 0) as [?|_]; [lia|].
  destruct (nth_error l (Z.to_nat i)) as [previous|] eqn:Hnth.
  2:{ apply nth_error_None in Hnth. lia. }
  cbn [or_fail bind].
  destruct (v1_update_data_range _ _ _ _); cbn [or_fail]; eauto.
Qed.

Lemma corrected_in_place_refl (file_io_pool_entry tainted : Z)
    (l : libfdata_list_t) :
  corrected_in_place file_io_pool_entry tainted l l.
Proof. split; [reflexivity|]. intros k e' H. exists e'. auto. Qed.

Lemma corrected_in_place_trans (file_io_pool_entry tainted : Z)
    (l1 l2 l3 : libfdata_list_t) :
  corrected_in_place file_io_pool_entry tainted l1 l2 ->
  corrected_in_place file_io_pool_entry tainted l2 l3 ->
  corrected_in_place file_io_pool_entry tainted l1 l3.
Proof.
  intros [Hlen12 H12] [Hlen23 H23]. split; [congruence|].
  intros k e3 H3.
  destruct (H23 k e3 H3) as (e2 & H2 & Hm23 & Hor23).
  destruct (H12 k e2 H2) as (e1 & H1 & Hm12 & Hor12).
  exists e1. split; [exact H1|]. split; [congruence|].
  destruct Hor23 as [->|Hset]; [exact Hor12|right; exact Hset].
Qed.

Lemma correct_v1_element_in_place (l l' : libfdata_list_t)
    (i file_io_pool_entry offset sz is_compressed corrupted tainted : Z) :
  correct_v1_element l i file_io_pool_entry offset sz
    (correct_v1_range_flags is_compressed corrupted tainted) corrupted tainted
  = Ok l' ->
  corrected_in_place file_io_pool_entry tainted l l'.
Proof.
  intros H. apply correct_v1_element_Ok in H.
  destruct H as (previous & Hpos & Hnth & ->).
  destruct (v1_update_data_range _ _ _ _);
    [|apply corrected_in_place_refl].
  split; [apply replace_nth_length|].
  intros k e' Hk. rewrite nth_error_replace_nth in Hk.
  destruct (Nat.eqb_spec k (Z.to_nat (int32 i))) as [->|Hne].
  - rewrite Hnth in Hk. exists previous. split; [exact Hnth|].
    apply (f_equal (fun o => match o with Some x => x | None => previous end))
      in Hk.
    cbv beta iota in Hk. subst e'. cbn [mapped_range element_file_index
                                         element_flags].
    split; [reflexivity|]. right. split; [reflexivity|].
    split; [apply correct_v1_range_flags_checksum
           |apply correct_v1_range_flags_tainted].
  - exists e'. auto.
Qed.

(** The turns of the loop for the entries from [i] on touch the elements
    at those indexes only, which are all there. *)
Lemma correct_v1_loop_frame (file_io_pool_entry base_offset : Z)
    (data : list byte) (tainted : Z) (n : nat) :
  forall (i : Z) (st st' : v1_locals),
    0 <= i -> i + Z.of_nat n <= 2 ^ 32 ->
    correct_v1_loop file_io_pool_entry base_offset data tainted n i st
    = Ok st' ->
    length (chunks st') = length (chunks st)
    /\ (n <> 0%nat ->
        i + Z.of_nat n <= Z.of_nat (length (chunks st))
        /\ i + Z.of_nat n <= 2 ^ 31)
    /\ forall k : nat,
         Z.of_nat k < i \/ i + Z.of_nat n <= Z.of_nat k ->
         nth_error (chunks st') k = nth_error (chunks st) k.
Proof.
  induction n as [|n IH]; intros i st st' Hi Hin H.
  - simpl in H. apply Ok_inj in H. subst st'.
    split; [reflexivity|]. split; [congruence|]. reflexivity.
  - simpl in H. bind_inv H. rename a into st1.
    apply correct_v1_entry_Ok in Ha.
    destruct Ha as (stored & _ & _ & _ & _ & _ & Hel).
    apply correct_v1_element_frame in Hel; [|lia].
    destruct Hel as (Hsmall & Hlt & Hlen1 & Hother & _).
    destruct (IH (i + 1) st1 st' ltac:(lia) ltac:(lia) H)
      as (Hlen & Hbound & Hframe).
    split; [congruence|]. split.
    + intros _. destruct n as [|n'].
      * simpl. lia.
      * destruct (Hbound ltac:(discriminate)) as [Hb1 Hb2].
        rewrite Hlen1 in Hb1. lia.
    + intros k Hk. rewrite Hframe by lia. apply Hother. lia.
Qed.

Lemma correct_v1_loop_reads (file_io_pool_entry base_offset : Z)
    (data : list byte) (tainted : Z) (n : nat) (i : Z) (st st' : v1_locals) :
  table_entry_v1 data i = Ok (stored_offset st) ->
  correct_v1_loop file_io_pool_entry base_offset data tainted n i st
  = Ok st' ->
  table_entry_v1 data (i + Z.of_nat n) = Ok (stored_offset st').
Proof.
  intros Hread Hloop.
  apply (correct_v1_loop_ind file_io_pool_entry base_offset data tainted
           (fun i st => table_entry_v1 data i = Ok (stored_offset st))
           (fun _ _ => True)) with (n := n) (i := i) (st := st) (st' := st');
    auto.
  intros j s s' _ Hstep. apply correct_v1_entry_Ok in Hstep.
  destruct Hstep as (stored & Hrd & Hs & _). rewrite Hs. auto.
Qed.

Lemma correct_v1_loop_in_place (file_io_pool_entry base_offset : Z)
    (data : list byte) (tainted : Z) (n : nat) (i : Z) (st st' : v1_locals) :
  correct_v1_loop file_io_pool_entry base_offset data tainted n i st
  = Ok st' ->
  corrected_in_place file_io_pool_entry tainted (chunks st) (chunks st').
Proof.
  intros Hloop.
  apply (correct_v1_loop_ind file_io_pool_entry base_offset data tainted
           (fun _ _ => True)
           (corrected_in_place file_io_pool_entry tainted))
    with (n := n) (i := i) (st := st) (st' := st'); auto.
  - apply corrected_in_place_refl.
  - apply corrected_in_place_trans.
  - intros j s s' _ Hstep. split; [exact I|].
    apply correct_v1_entry_Ok in Hstep.
    destruct Hstep as (stored & _ & _ & _ & _ & _ & Hel).
    eapply correct_v1_element_in_place, Hel.
Qed.

Lemma correct_v1_entry_run (file_io_pool_entry base_offset : Z)
    (data : list byte) (tainted i : Z) (st : v1_locals) :
  0 <= i < 2 ^ 31 ->
  i < Z.of_nat (length (chunks st)) ->
  4 * (i + 1) + 4 <= Z.of_nat (length data) ->
  exists st',
    correct_v1_entry file_io_pool_entry base_offset data tainted i st
    = Ok st'.
Proof.
  intros Hi Hlen Hdata.
  destruct (table_entry_v1_in_buffer data (i + 1)) as [stored Hread];
    [lia|lia|].
  unfold correct_v1_entry. cbv zeta. rewrite Hread. cbn [bind].
  destruct (v1_chunk_data_size _ _ _) as [corrupted sz].
  edestruct (correct_v1_element_run (chunks st) i) as [l' Hl'];
    [exact Hi|exact Hlen|].
  rewrite Hl'. cbn [bind]. eauto.
Qed.

Lemma correct_v1_loop_run (file_io_pool_entry base_offset : Z)
    (data : list byte) (tainted : Z) (n : nat) :
  forall (i : Z) (st : v1_locals),
    0 <= i ->
    i + Z.of_nat n <= 2 ^ 31 ->
    i + Z.of_nat n <= Z.of_nat (length (chunks st)) ->
    4 * (i + Z.of_nat n) + 4 <= Z.of_nat (length data) ->
    exists st',
      correct_v1_loop file_io_pool_entry base_offset data tainted n i st
      = Ok st'.
Proof.
  induction n as [|n IH]; intros i st Hi Hsmall Hlen Hdata.
  - simpl. eauto.
  - destruct (correct_v1_entry_run file_io_pool_entry base_offset data
                tainted i st) as [st1 Hst1]; [lia|lia|lia|].
    cbn [correct_v1_loop]. rewrite Hst1. cbn [bind].
    apply IH; [lia|lia| |lia].
    apply correct_v1_entry_Ok in Hst1.
    destruct Hst1 as (stored & _ & _ & _ & _ & _ & Hel).
    apply correct_v1_element_frame in Hel; [|lia].
    destruct Hel as (_ & _ & Hlen1 & _). rewrite Hlen1. lia.
Qed.

(** X2: a call of the correct pass returns success exactly when the
    base offset is not negative, the size of the table entries data is at
    most SSIZE_MAX, there are between 1 and 2^31 entries, the buffer
    holds 4 bytes for each entry and the list holds an element for each
    entry.  A list shorter than the table is the only way the contents of
    the arguments make the pass fail. *)
Theorem correct_v1_returns_success_iff :
  forall (l : libfdata_list_t) (chunk_size file_io_pool_entry : Z)
         (table_section : libewf_section_t)
         (base_offset number_of_entries : Z) (data : list byte)
         (data_size tainted : Z),
    0 <= number_of_entries < 2 ^ 32 ->
    (exists l',
       libewf_chunk_group_correct_v1 l chunk_size file_io_pool_entry
         table_section base_offset number_of_entries data data_size tainted
       = Ok l')
    <-> (0 <= base_offset
         /\ data_size <= SSIZE_MAX
         /\ 1 <= number_of_entries <= 2 ^ 31
         /\ 4 * number_of_entries <= Z.of_nat (length data)
         /\ number_of_entries <= Z.of_nat (length l)).
Proof.
  intros l chunk_size pool section base N data data_size tainted HN.
  unfold libewf_chunk_group_correct_v1.
  destruct (Z.ltb_spec base 0) as [Hneg|Hbase].
  { split; [intros [l' H]; discriminate|intros (H & _); lia]. }
  destruct (Z.gtb_spec data_size SSIZE_MAX) as [Hbig|Hsize].
  { split; [intros [l' H]; discriminate|intros (_ & H & _); lia]. }
  pose proof (uint32_range (N - 1)) as Hrange.
  split.
  - intros [l' H].
    bind_inv H. rename a into stored0. bind_inv H. rename a into st.
    pose proof (correct_v1_loop_reads pool base data tainted _ 0
                  (v1_initial l stored0) st Ha Ha0) as Hread.
    apply correct_v1_loop_frame in Ha0; [|lia|lia].
    destruct Ha0 as (Hlen & _ & _). cbn [v1_initial chunks] in Hlen.
    unfold correct_v1_last in H. rewrite last_chunk_data_offset_test in H.
    apply correct_v1_element_frame in H; [|lia].
    destruct H as (Hsmall & Hlt & _).
    assert (HN1 : 1 <= N).
    { destruct (Z.eq_dec N 0) as [->|Hne]; [|lia].
      exfalso. change (uint32 (0 - 1)) with (2 ^ 32 - 1) in Hsmall. lia. }
    rewrite (uint32_small (N - 1)) in * by lia.
    apply table_entry_v1_Ok_in_buffer in Hread; lia.
  - intros (_ & _ & HN1 & Hdata & Hlist).
    destruct (table_entry_v1_in_buffer data 0) as [stored0 Hread];
      [lia|lia|].
    rewrite Hread. cbn [bind].
    rewrite (uint32_small (N - 1)) by lia.
    destruct (correct_v1_loop_run pool base data tainted
                (Z.to_nat (N - 1)) 0 (v1_initial l stored0)) as [st Hst];
      [lia|lia|simpl; lia|lia|].
    rewrite Hst. cbn [bind].
    apply correct_v1_loop_frame in Hst; [|lia|lia].
    destruct Hst as (Hlen & _ & _). cbn [v1_initial chunks] in Hlen.
    unfold correct_v1_last. rewrite last_chunk_data_offset_test.
    apply correct_v1_element_run; [lia|rewrite Hlen; lia].
Qed.

Lemma correct_v1_returns_success_iff_witness :
  (exists l',
     libewf_chunk_group_correct_v1 one_chunk_list 0x8000 0
       section_0x2000_0x3000 0x100 1 table_one_chunk 4 0 = Ok l')
  <-> (0 <= 0x100
       /\ 4 <= SSIZE_MAX
       /\ 1 <= 1 <= 2 ^ 31
       /\ 4 * 1 <= Z.of_nat (length table_one_chunk)
       /\ 1 <= Z.of_nat (length one_chunk_list)).
Proof.
  apply (correct_v1_returns_success_iff one_chunk_list 0x8000 0
           section_0x2000_0x3000 0x100 1 table_one_chunk 4 0).
  lia.
Defined.

(** X3: a correct pass that returns success has worked in place: the
    list has the length it had, every element keeps the range it is
    mapped to, an element that changed has the pool entry of the call,
    HAS_CHECKSUM, and IS_TAINTED as the call was told, and the elements
    past the last table entry are the ones that were there. *)
Theorem correct_v1_works_in_place :
  forall (l l' : libfdata_list_t) (chunk_size file_io_pool_entry : Z)
         (table_section : libewf_section_t)
         (base_offset number_of_entries : Z) (data : list byte)
         (data_size tainted : Z),
    0 <= number_of_entries < 2 ^ 32 ->
    libewf_chunk_group_correct_v1 l chunk_size file_io_pool_entry
      table_section base_offset number_of_entries data data_size tainted
    = Ok l' ->
    corrected_in_place file_io_pool_entry tainted l l'
    /\ forall k : nat,
         number_of_entries <= Z.of_nat k -> nth_error l' k = nth_error l k.
Proof.
  intros l l' chunk_size pool section base N data data_size tainted HN H.
  unfold libewf_chunk_group_correct_v1 in H.
  destruct (base <? 0); [discriminate|].
  destruct (data_size >? SSIZE_MAX); [discriminate|].
  pose proof (uint32_range (N - 1)) as Hrange.
  bind_inv H. rename a into stored0. bind_inv H. rename a into st.
  pose proof (correct_v1_loop_in_place _ _ _ _ _ _ _ _ Ha0) as Hplace.
  apply correct_v1_loop_frame in Ha0; [|lia|lia].
  destruct Ha0 as (_ & _ & Hframe). cbn [v1_initial chunks] in *.
  unfold correct_v1_last in H. rewrite last_chunk_data_offset_test in H.
  pose proof (correct_v1_element_in_place _ _ _ _ _ _ _ _ _ H) as Hlast.
  apply correct_v1_element_frame in H; [|lia].
  destruct H as (Hsmall & _ & _ & Hother & _).
  assert (HN1 : 1 <= N).
  { destruct (Z.eq_dec N 0) as [->|Hne]; [|lia].
    exfalso. change (uint32 (0 - 1)) with (2 ^ 32 - 1) in Hsmall. lia. }
  rewrite (uint32_small (N - 1)) in * by lia.
  split.
  - eapply corrected_in_place_trans; eassumption.
  - intros k Hk. rewrite Hother by lia. apply Hframe. lia.
Qed.

Lemma correct_v1_works_in_place_witness :
  corrected_in_place 0 0 one_chunk_list [ one_chunk 0 ]
  /\ forall k : nat,
       1 <= Z.of_nat k ->
       nth_error [ one_chunk 0 ] k = nth_error one_chunk_list k.
Proof.
  apply (correct_v1_works_in_place one_chunk_list [ one_chunk 0 ] 0x8000 0
           section_0x2000_0x3000 0x100 1 table_one_chunk 4 0).
  - lia.
  - vm_compute. reflexivity.
Defined.

(** ** The version 2 fill *)

Lemma table_entry_v2_in_buffer (data : list byte) (k : nat) :
  16 * Z.of_nat k + 16 <= Z.of_nat (length data) ->
  exists r, table_entry_v2 data k = Ok r.
Proof.
  intros Hlen. unfold table_entry_v2. cbv zeta.
  pose proof (length_skipn (16 * k) data) as Hs.
  destruct (skipn (16 * k) data)
    as [|b0 [|b1 [|b2 [|b3 [|b4 [|b5 [|b6 [|b7 [|b8 [|b9 [|b10 [|b11
        [|b12 [|b13 [|b14 [|b15 rest]]]]]]]]]]]]]]]];
    cbn [length] in Hs; try lia.
  rewrite copy_to_uint64_value. cbn [bind skipn].
  rewrite copy_to_uint32_value. cbn [bind].
  rewrite copy_to_uint32_value. cbn [bind]. eauto.
Qed.

Lemma table_entry_v2_Ok_in_buffer (data : list byte) (k : nat)
    (r : Z * Z * Z) :
  table_entry_v2 data k = Ok r ->
  16 * Z.of_nat k + 16 <= Z.of_nat (length data).
Proof.
  unfold table_entry_v2. cbv zeta.
  pose proof (length_skipn (16 * k) data) as Hs.
  destruct (skipn (16 * k) data)
    as [|b0 [|b1 [|b2 [|b3 [|b4 [|b5 [|b6 [|b7 [|b8 [|b9 [|b10 [|b11
        [|b12 [|b13 [|b14 [|b15 rest]]]]]]]]]]]]]]]];
    cbn [length] in Hs; try discriminate; try (intros _; lia);
    try (rewrite copy_to_uint64_value; cbn [bind skipn];
         try discriminate;
         rewrite copy_to_uint32_value; cbn [bind]; discriminate).
Qed.

Lemma fill_v2_range_flags_tainted (chunk_data_flags tainted : Z) :
  has_flag (fill_v2_range_flags chunk_data_flags tainted)
    LIBEWF_RANGE_FLAG_IS_TAINTED
  = negb (tainted =? 0).
Proof.
  unfold fill_v2_range_flags.
  destruct (has_flag chunk_data_flags LIBEWF_CHUNK_DATA_FLAG_IS_COMPRESSED),
    (has_flag chunk_data_flags LIBEWF_CHUNK_DATA_FLAG_USES_PATTERN_FILL),
    (has_flag chunk_data_flags LIBEWF_CHUNK_DATA_FLAG_HAS_CHECKSUM),
    (tainted =? 0); reflexivity.
Qed.

Lemma fill_v2_range_flags_corrupted (chunk_data_flags tainted : Z) :
  has_flag (fill_v2_range_flags chunk_data_flags tainted)
    LIBEWF_RANGE_FLAG_IS_CORRUPTED
  = false.
Proof.
  unfold fill_v2_range_flags.
  destruct (has_flag chunk_data_flags LIBEWF_CHUNK_DATA_FLAG_IS_COMPRESSED),
    (has_flag chunk_data_flags LIBEWF_CHUNK_DATA_FLAG_USES_PATTERN_FILL),
    (has_flag chunk_data_flags LIBEWF_CHUNK_DATA_FLAG_HAS_CHECKSUM),
    (tainted =? 0); reflexivity.
Qed.

(** The element the version 2 fill makes from the entry at index [k] is
    in the list, [k] places after the elements that were there. *)
Lemma fill_v2_element_at (header_size : Z) (l l' : libfdata_list_t)
    (chunk_size file_io_pool_entry : Z) (table_section : libewf_section_t)
    (number_of_offsets : Z) (data : list byte) (data_size tainted : Z)
    (k : nat) :
  libewf_chunk_group_fill_v2 header_size l chunk_size file_io_pool_entry
    table_section number_of_offsets data data_size tainted = Ok l' ->
  Z.of_nat k < data_size / 16 ->
  exists e,
    nth_error l' (length l + k) = Some e
    /\ v2_element_of_entry header_size chunk_size file_io_pool_entry
         table_section data tainted k e.
Proof.
  intros H Hk. apply fill_v2_elements in H.
  destruct H as (added & -> & Hlen & _ & Hall).
  destruct (nth_error added k) as [e|] eqn:He.
  - exists e. split; [|apply Hall; exact He].
    rewrite nth_error_app2 by lia.
    replace (length l + k - length l)%nat with k by lia. exact He.
  - apply nth_error_None in He. lia.
Qed.

(** X4: a call of the version 2 fill returns success exactly when the
    size of the table entries data is at most SSIZE_MAX, the buffer holds
    every whole 16 byte entry that fits the size, and the list has room
    for one element for each of them. *)
Theorem fill_v2_returns_success_iff :
  forall (header_size : Z) (l : libfdata_list_t)
         (chunk_size file_io_pool_entry : Z)
         (table_section : libewf_section_t) (number_of_offsets : Z)
         (data : list byte) (data_size tainted : Z),
    0 <= data_size ->
    (exists l',
       libewf_chunk_group_fill_v2 header_size l chunk_size
         file_io_pool_entry table_section number_of_offsets data data_size
         tainted = Ok l')
    <-> (data_size <= SSIZE_MAX
         /\ 16 * (data_size / 16) <= Z.of_nat (length data)
         /\ (16 <= data_size ->
             Z.of_nat (length l) + data_size / 16 <= INT_MAX)).
Proof.
  intros header_size l chunk_size pool section N data data_size tainted
    Hsize.
  assert (Hdiv : 0 <= data_size / 16) by (apply Z.div_pos; lia).
  split.
  - intros [l' H].
    assert (Hmax : data_size <= SSIZE_MAX).
    { unfold libewf_chunk_group_fill_v2 in H.
      destruct (Z.gtb_spec data_size SSIZE_MAX); [discriminate|lia]. }
    split; [exact Hmax|].
    destruct (Z.eq_dec (data_size / 16) 0) as [Hzero|Hpos].
    + split; [lia|]. intros H16.
      assert (1 <= data_size / 16)
        by (apply Z.div_le_lower_bound; lia).
      lia.
    + pose proof (fill_v2_element_at _ _ _ _ _ _ _ _ _ _
                    (Z.to_nat (data_size / 16 - 1)) H) as Hlast.
      destruct Hlast as (e & _ & (o & s & f & Hread & _)); [lia|].
      apply table_entry_v2_Ok_in_buffer in Hread.
      split; [lia|]. intros _.
      apply fill_v2_elements in H.
      destruct H as (added & -> & Hlen & Hroom & _).
      rewrite length_app in Hroom.
      assert (added <> []) by (intros ->; cbn [length] in Hlen; lia).
      specialize (Hroom ltac:(assumption)). lia.
  - intros (Hmax & Hdata & Hroom).
    unfold libewf_chunk_group_fill_v2.
    destruct (Z.gtb_spec data_size SSIZE_MAX); [lia|].
    unfold sizeof_ewf_table_entry_v2_t.
    destruct (Z.eq_dec (data_size / 16) 0) as [Hzero|Hpos].
    + rewrite Hzero. cbn [Z.to_nat fill_v2_loop bind]. eauto.
    + assert (H16 : 16 <= data_size).
      { destruct (Z.le_gt_cases 16 data_size); [assumption|].
        rewrite Z.div_small in Hpos by lia. lia. }
      specialize (Hroom H16).
      edestruct (fill_v2_loop_run chunk_size pool tainted data
                   (Z.to_nat (data_size / 16)) 0) as [st Hst];
        [| |
         |rewrite Hst; cbn [bind]; eauto].
      * reflexivity.
      * intros k Hk. apply table_entry_v2_in_buffer. lia.
      * cbn [v2_chunks]. lia.
Qed.

Lemma fill_v2_returns_success_iff_witness :
  (exists l',
     libewf_chunk_group_fill_v2 24 [] 0x8000 0 section_0x1000_0x2000 2
       table_v2_two_entries 32 0 = Ok l')
  <-> (32 <= SSIZE_MAX
       /\ 16 * (32 / 16) <= Z.of_nat (length table_v2_two_entries)
       /\ (16 <= 32 ->
           Z.of_nat (length (@nil element)) + 32 / 16 <= INT_MAX)).
Proof.
  apply (fill_v2_returns_success_iff 24 [] 0x8000 0 section_0x1000_0x2000 2
           table_v2_two_entries 32 0).
  lia.
Defined.

(** X5: the range flags of the element the version 2 fill makes from a
    table entry, read off the chunk data flags of the entry:
    IS_COMPRESSED and HAS_CHECKSUM are the bits of the entry,
    USES_PATTERN_FILL needs both the pattern fill and the compressed bit,
    IS_TAINTED is what the call was told, and IS_CORRUPTED is never
    set. *)
Theorem fill_v2_flags_of_entry :
  forall (header_size : Z) (l l' : libfdata_list_t)
         (chunk_size file_io_pool_entry : Z)
         (table_section : libewf_section_t) (number_of_offsets : Z)
         (data : list byte) (data_size tainted : Z) (k : nat)
         (chunk_data_offset chunk_data_size chunk_data_flags : Z),
    libewf_chunk_group_fill_v2 header_size l chunk_size file_io_pool_entry
      table_section number_of_offsets data data_size tainted = Ok l' ->
    Z.of_nat k < data_size / 16 ->
    table_entry_v2 data k
    = Ok (chunk_data_offset, chunk_data_size, chunk_data_flags) ->
    exists e,
      nth_error l' (length l + k) = Some e
      /\ has_flag (element_flags e) LIBEWF_RANGE_FLAG_IS_COMPRESSED
         = has_flag chunk_data_flags LIBEWF_CHUNK_DATA_FLAG_IS_COMPRESSED
      /\ has_flag (element_flags e) LIBEWF_RANGE_FLAG_HAS_CHECKSUM
         = has_flag chunk_data_flags LIBEWF_CHUNK_DATA_FLAG_HAS_CHECKSUM
      /\ has_flag (element_flags e) LIBEWF_RANGE_FLAG_USES_PATTERN_FILL
         = has_flag chunk_data_flags LIBEWF_CHUNK_DATA_FLAG_IS_COMPRESSED
           && has_flag chunk_data_flags
                LIBEWF_CHUNK_DATA_FLAG_USES_PATTERN_FILL
      /\ has_flag (element_flags e) LIBEWF_RANGE_FLAG_IS_TAINTED
         = negb (tainted =? 0)
      /\ has_flag (element_flags e) LIBEWF_RANGE_FLAG_IS_CORRUPTED = false.
Proof.
  intros header_size l l' chunk_size pool section N data data_size tainted
    k o s f H Hk Hread.
  destruct (fill_v2_element_at _ _ _ _ _ _ _ _ _ _ k H Hk)
    as (e & He & (o' & s' & f' & Hread' & Hel)).
  rewrite Hread in Hread'. apply Ok_inj in Hread'.
  assert (f' = f) by congruence. subst f'. cbv zeta in Hel.
  exists e. split; [exact He|]. subst e. cbn [element_flags].
  rewrite fill_v2_range_flags_compressed, fill_v2_range_flags_checksum,
    fill_v2_range_flags_pattern_fill, fill_v2_range_flags_tainted,
    fill_v2_range_flags_corrupted.
  repeat split.
Qed.

Lemma fill_v2_flags_of_entry_witness :
  exists e,
    nth_error two_entries_filled (length (@nil element) + 1) = Some e
    /\ has_flag (element_flags e) LIBEWF_RANGE_FLAG_IS_COMPRESSED
       = has_flag 4 LIBEWF_CHUNK_DATA_FLAG_IS_COMPRESSED
    /\ has_flag (element_flags e) LIBEWF_RANGE_FLAG_HAS_CHECKSUM
       = has_flag 4 LIBEWF_CHUNK_DATA_FLAG_HAS_CHECKSUM
    /\ has_flag (element_flags e) LIBEWF_RANGE_FLAG_USES_PATTERN_FILL
       = has_flag 4 LIBEWF_CHUNK_DATA_FLAG_IS_COMPRESSED
         && has_flag 4 LIBEWF_CHUNK_DATA_FLAG_USES_PATTERN_FILL
    /\ has_flag (element_flags e) LIBEWF_RANGE_FLAG_IS_TAINTED
       = negb (0 =? 0)
    /\ has_flag (element_flags e) LIBEWF_RANGE_FLAG_IS_CORRUPTED = false.
Proof.
  apply (fill_v2_flags_of_entry 24 [] two_entries_filled 0x8000 0
           section_0x1000_0x2000 2 table_v2_two_entries 32 0 1%nat
           0xdead 4096 4).
  - vm_compute. reflexivity.
  - vm_compute. reflexivity.
  - vm_compute. reflexivity.
Defined.

(** X6: the element the version 2 fill makes from the table entry at
    index [k] has the pool entry of the call and is mapped to chunk [k]
    of the storage media; when the entry is not a compressed pattern fill
    its data range is the offset, taken as an [off64_t], and the size the
    entry stores. *)
Theorem fill_v2_ranges_of_entry :
  forall (header_size : Z) (l l' : libfdata_list_t)
         (chunk_size file_io_pool_entry : Z)
         (table_section : libewf_section_t) (number_of_offsets : Z)
         (data : list byte) (data_size tainted : Z) (k : nat)
         (chunk_data_offset chunk_data_size chunk_data_flags : Z),
    libewf_chunk_group_fill_v2 header_size l chunk_size file_io_pool_entry
      table_section number_of_offsets data data_size tainted = Ok l' ->
    Z.of_nat k < data_size / 16 ->
    table_entry_v2 data k
    = Ok (chunk_data_offset, chunk_data_size, chunk_data_flags) ->
    exists e,
      nth_error l' (length l + k) = Some e
      /\ element_file_index e = file_io_pool_entry
      /\ mapped_range e = Some (int64 (Z.of_nat k * chunk_size), chunk_size)
      /\ (has_flag chunk_data_flags LIBEWF_CHUNK_DATA_FLAG_IS_COMPRESSED
          && has_flag chunk_data_flags
               LIBEWF_CHUNK_DATA_FLAG_USES_PATTERN_FILL = false ->
          element_offset e = int64 chunk_data_offset
          /\ element_size e = chunk_data_size).
Proof.
  intros header_size l l' chunk_size pool section N data data_size tainted
    k o s f H Hk Hread.
  destruct (fill_v2_element_at _ _ _ _ _ _ _ _ _ _ k H Hk)
    as (e & He & (o' & s' & f' & Hread' & Hel)).
  rewrite Hread in Hread'. apply Ok_inj in Hread'.
  assert (f' = f) by congruence. assert (o' = o) by congruence.
  assert (s' = s) by congruence. subst f' o' s'. cbv zeta in Hel.
  exists e. split; [exact He|]. subst e.
  cbn [element_file_index mapped_range element_offset element_size].
  split; [reflexivity|]. split; [reflexivity|].
  intros Hplain. unfold fill_v2_data_range.
  rewrite fill_v2_range_flags_pattern_fill, Hplain. cbn [fst snd]. auto.
Qed.

Lemma fill_v2_ranges_of_entry_witness :
  exists e,
    nth_error two_entries_filled (length (@nil element) + 1) = Some e
    /\ element_file_index e = 0
    /\ mapped_range e = Some (int64 (Z.of_nat 1 * 0x8000), 0x8000)
    /\ (has_flag 4 LIBEWF_CHUNK_DATA_FLAG_IS_COMPRESSED
        && has_flag 4 LIBEWF_CHUNK_DATA_FLAG_USES_PATTERN_FILL = false ->
        element_offset e = int64 0xdead /\ element_size e = 4096).
Proof.
  apply (fill_v2_ranges_of_entry 24 [] two_entries_filled 0x8000 0
           section_0x1000_0x2000 2 table_v2_two_entries 32 0 1%nat
           0xdead 4096 4).
  - vm_compute. reflexivity.
  - vm_compute. reflexivity.
  - vm_compute. reflexivity.
Defined.

(** ** Generating table entries *)

Lemma store_bytes_room (bytes buffer data : list byte) :
  store_bytes bytes buffer = Ok data ->
  (length bytes <= length buffer)%nat.
Proof.
  unfold store_bytes.
  destruct (Nat.ltb_spec (length buffer) (length bytes)); [discriminate|].
  intros _. assumption.
Qed.

Lemma store_bytes_run (bytes buffer : list byte) :
  (length bytes <= length buffer)%nat ->
  store_bytes bytes buffer = Ok (bytes ++ skipn (length bytes) buffer).
Proof.
  intros H. unfold store_bytes.
  destruct (Nat.ltb_spec (length buffer) (length bytes)); [lia|reflexivity].
Qed.

Lemma int32_below (i : Z) : int32 i < 2 ^ 31.
Proof.
  unfold int32.
  pose proof (Z.mod_pos_bound (i + 2 ^ 31) (2 ^ 32) ltac:(lia)). lia.
Qed.

Lemma generate_table_entry_length (format_version base_offset : Z)
    (e : element) (bytes : list byte) :
  format_version = 1 \/ format_version = 2 ->
  generate_table_entry format_version base_offset e = Ok bytes ->
  length bytes = Z.to_nat (table_entry_size_of format_version).
Proof.
  intros [-> | ->] H.
  - apply generate_table_entry_v1_length in H. rewrite H. reflexivity.
  - apply generate_table_entry_v2_length in H. rewrite H. reflexivity.
Qed.

Lemma generate_table_entry_fits (format_version base_offset : Z)
    (e : element) :
  format_version = 1 \/ format_version = 2 ->
  (exists bytes, generate_table_entry format_version base_offset e = Ok bytes)
  <-> fits_table_entry format_version base_offset e.
Proof.
  unfold fits_table_entry, v1_offset_fits, generate_table_entry.
  intros [-> | ->].
  - change (1 =? 1) with true. cbv iota zeta.
    destruct (Z.ltb_spec (int64 (element_offset e - base_offset)) 0)
      as [Hlo|Hlo];
      destruct (Z.gtb_spec (int64 (element_offset e - base_offset))
                  INT32_MAX) as [Hhi|Hhi];
      cbn [orb]; split;
        try (intros [bytes Hb]; discriminate); try (intros Hfit; lia);
        eauto.
  - change (2 =? 1) with false. change (2 =? 2) with true. cbv iota zeta.
    destruct (Z.gtb_spec (element_size e) UINT32_MAX) as [Hhi|Hhi]; split;
      try (intros [bytes Hb]; discriminate); try (intros Hfit; lia); eauto.
Qed.

(** What the [for] loop has done when it returns: the indexes it went
    through are indexes of the list below 2^31, the buffer had room for
    the entries, and the buffer has the length it had, with the bytes
    after the entries in place. *)
Lemma generate_loop_frame (chunks_list : libfdata_list_t)
    (format_version base_offset : Z) (entry_size : nat) :
  (forall e bytes,
      generate_table_entry format_version base_offset e = Ok bytes ->
      length bytes = entry_size) ->
  forall (n : nat) (i : Z) (written rest out : list byte),
    0 <= i -> i + Z.of_nat n <= 2 ^ 32 ->
    generate_loop chunks_list format_version base_offset
      (Z.of_nat entry_size) n i written rest = Ok out ->
    (n <> 0%nat ->
     i + Z.of_nat n <= 2 ^ 31
     /\ i + Z.of_nat n <= Z.of_nat (length chunks_list))
    /\ (entry_size * n <= length rest)%nat
    /\ exists tail,
         out = written ++ tail
         /\ length tail = length rest
         /\ skipn (entry_size * n) tail = skipn (entry_size * n) rest.
Proof.
  intros Hsize. induction n as [|n IH]; intros i written rest out Hi Hin H.
  - cbn [generate_loop] in H. apply Ok_inj in H.
    split; [intros Hn; exfalso; apply Hn; reflexivity|].
    split; [lia|]. exists rest. rewrite Nat.mul_0_r. auto.
  - cbn [generate_loop] in H.
    bind_inv H. rename a into e. bind_inv H. rename a into bytes.
    bind_inv H. rename a into data.
    apply or_fail_Ok in Ha.
    unfold libfdata_list_get_element_by_index in Ha.
    destruct (Z.ltb_spec (int32 i) 0) as [?|Hpos]; [discriminate|].
    pose proof (int32_below i) as Hbelow.
    rewrite (int32_index i) in Ha, Hbelow by lia.
    assert (Hil : i < Z.of_nat (length chunks_list)).
    { assert (Hsome : nth_error chunks_list (Z.to_nat i) <> None)
        by congruence.
      apply nth_error_Some in Hsome. lia. }
    pose proof (store_bytes_room _ _ _ Ha1) as Hroom.
    apply store_bytes_Ok in Ha1. pose proof (Hsize e bytes Ha0) as Hlen.
    rewrite Nat2Z.id in H.
    assert (Hfirst : firstn entry_size data = bytes).
    { subst data. rewrite <- Hlen, firstn_app, Nat.sub_diag, firstn_all.
      cbn [firstn]. apply app_nil_r. }
    assert (Hskip : skipn entry_size data = skipn entry_size rest).
    { subst data. rewrite <- Hlen at 1.
      rewrite skipn_app, Nat.sub_diag, skipn_all. cbn [skipn app].
      now rewrite Hlen. }
    rewrite Hfirst, Hskip in H.
    apply IH in H; [|lia|lia].
    destruct H as (Hidx & Hbuf & tail & -> & Htail & Hrest).
    rewrite length_skipn in Hbuf, Htail.
    split; [|split].
    + intros _. destruct n as [|n]; [lia|].
      destruct Hidx as [H1 H2]; [discriminate|]. lia.
    + lia.
    + exists (bytes ++ tail). split; [now rewrite <- app_assoc|].
      split; [rewrite length_app; lia|].
      replace (entry_size * S n)%nat with (entry_size + entry_size * n)%nat
        by lia.
      rewrite (skipn_app_exact bytes tail entry_size) by exact Hlen.
      rewrite Hrest, skipn_skipn. f_equal. lia.
Qed.

Lemma generate_loop_run (chunks_list : libfdata_list_t)
    (format_version base_offset : Z) (entry_size : nat) (n : nat) :
  forall (i : Z) (written rest : list byte),
    0 <= i ->
    i + Z.of_nat n <= 2 ^ 31 ->
    i + Z.of_nat n <= Z.of_nat (length chunks_list) ->
    (entry_size * n <= length rest)%nat ->
    (forall (k : nat) (e : element),
        (k < n)%nat ->
        nth_error chunks_list (Z.to_nat i + k) = Some e ->
        exists bytes,
          generate_table_entry format_version base_offset e = Ok bytes
          /\ length bytes = entry_size) ->
    exists out,
      generate_loop chunks_list format_version base_offset
        (Z.of_nat entry_size) n i written rest = Ok out.
Proof.
  induction n as [|n IH]; intros i written rest Hi Hsmall Hlist Hbuf Hall.
  - cbn [generate_loop]. eauto.
  - cbn [generate_loop].
    unfold libfdata_list_get_element_by_index.
    rewrite (int32_small i) by lia.
    destruct (Z.ltb_spec i 0) as [?|_]; [lia|].
    destruct (nth_error chunks_list (Z.to_nat i)) as [e|] eqn:He;
      [|apply nth_error_None in He; lia].
    cbn [or_fail bind].
    destruct (Hall 0%nat e) as (bytes & Hbytes & Hlen);
      [lia|rewrite Nat.add_0_r; exact He|].
    rewrite Hbytes. cbn [bind].
    rewrite store_bytes_run by lia. cbn [bind].
    apply IH; [lia|lia|lia| |].
    + rewrite Nat2Z.id, length_skipn, length_app, length_skipn. lia.
    + intros k e' Hk He'. apply (Hall (S k) e'); [lia|].
      replace (Z.to_nat i + S k)%nat with (Z.to_nat (i + 1) + k)%nat by lia.
      exact He'.
Qed.

Lemma generate_loop_success_iff (l : libfdata_list_t)
    (format_version base_offset : Z) (data : list byte)
    (number_of_entries : Z) :
  format_version = 1 \/ format_version = 2 ->
  0 <= number_of_entries < 2 ^ 32 ->
  (exists out,
     generate_loop l format_version base_offset
       (table_entry_size_of format_version) (Z.to_nat number_of_entries) 0
       [] data = Ok out)
  <-> (number_of_entries * table_entry_size_of format_version
       <= Z.of_nat (length data)
       /\ number_of_entries <= Z.of_nat (length l)
       /\ number_of_entries <= 2 ^ 31
       /\ forall (k : nat) (e : element),
            Z.of_nat k < number_of_entries ->
            nth_error l k = Some e ->
            fits_table_entry format_version base_offset e).
Proof.
  intros Hfv HN.
  set (fv := format_version) in *. set (N := number_of_entries) in *.
  assert (Hpos : 0 < table_entry_size_of fv)
    by (destruct Hfv as [-> | ->]; reflexivity).
  assert (Hnat : Z.of_nat (Z.to_nat (table_entry_size_of fv))
                 = table_entry_size_of fv)
    by (destruct Hfv as [-> | ->]; reflexivity).
  assert (Hlen : forall e bytes,
             generate_table_entry fv base_offset e = Ok bytes ->
             length bytes = Z.to_nat (table_entry_size_of fv))
    by (intros e bytes; apply generate_table_entry_length; exact Hfv).
  split.
  - intros [out H]. rewrite <- Hnat in H. assert (Hentries := H).
    apply generate_loop_entries in Hentries; [|exact Hlen|lia|lia].
    apply generate_loop_frame in H; [|exact Hlen|lia|lia].
    destruct H as (Hidx & Hbuf & _).
    destruct Hentries as (tail & _ & Hall).
    assert (HN0 : N = 0 \/ Z.to_nat N <> 0%nat) by lia.
    split; [nia|].
    split; [destruct HN0; [lia|destruct Hidx; lia]|].
    split; [destruct HN0; [lia|destruct Hidx; lia]|].
    intros k e Hk He.
    destruct (Hall k ltac:(lia)) as (e' & bytes & rest' & He' & Hb & _).
    change (Z.to_nat 0 + k)%nat with k in He'.
    assert (e' = e) by congruence. subst e'.
    apply generate_table_entry_fits; eauto.
  - intros (Hdata & Hlist & Hsmall & Hall). rewrite <- Hnat.
    apply generate_loop_run; [lia|lia|lia|nia|].
    intros k e Hk He. change (Z.to_nat 0 + k)%nat with k in He.
    specialize (Hall k e ltac:(lia) He).
    apply generate_table_entry_fits in Hall; [|exact Hfv].
    destruct Hall as [bytes Hbytes]. exists bytes. split; [exact Hbytes|].
    apply (Hlen e). exact Hbytes.
Qed.

(** X7: a call that generates table entries returns success exactly
    when the format version is 1 or 2, the size of the buffer is at most
    SSIZE_MAX and holds the entries, the base offset is not negative, the
    list has an element for each entry, at an index below 2^31, and each
    of these elements fits a table entry of the version. *)
Theorem generate_returns_success_iff :
  forall (l : libfdata_list_t) (format_version : Z) (data : list byte)
         (data_size number_of_entries base_offset : Z),
    0 <= number_of_entries < 2 ^ 32 ->
    (exists out,
       libewf_chunk_group_generate_table_entries_data l format_version data
         data_size number_of_entries base_offset = Ok out)
    <-> ((format_version = 1 \/ format_version = 2)
         /\ data_size <= SSIZE_MAX
         /\ number_of_entries * table_entry_size_of format_version
            <= data_size
         /\ 0 <= base_offset
         /\ number_of_entries * table_entry_size_of format_version
            <= Z.of_nat (length data)
         /\ number_of_entries <= Z.of_nat (length l)
         /\ number_of_entries <= 2 ^ 31
         /\ forall (k : nat) (e : element),
              Z.of_nat k < number_of_entries ->
              nth_error l k = Some e ->
              fits_table_entry format_version base_offset e).
Proof.
  intros l fv data data_size N base HN.
  unfold libewf_chunk_group_generate_table_entries_data.
  assert (Hcases : (fv = 1 \/ fv = 2)
                   \/ ((fv =? 1) = false /\ (fv =? 2) = false)).
  { destruct (Z.eqb_spec fv 1); [auto|].
    destruct (Z.eqb_spec fv 2); auto. }
  destruct Hcases as [Hfv | [Hv1 Hv2]].
  - assert (Hes : (if fv =? 1 then Ok sizeof_ewf_table_entry_v1_t
                   else if fv =? 2 then Ok sizeof_ewf_table_entry_v2_t
                   else Err ARGUMENT_ERROR_UNSUPPORTED_VALUE)
                  = Ok (table_entry_size_of fv))
      by (destruct Hfv as [-> | ->]; reflexivity).
    rewrite Hes. cbn [bind]. clear Hes.
    destruct (Z.gtb_spec data_size SSIZE_MAX) as [Hbig|Hmax];
      [split; [intros [out H]; discriminate|intros (_ & H & _); lia]|].
    destruct (Z.gtb_spec (N * table_entry_size_of fv) data_size)
      as [Hbig|Hfit];
      [split; [intros [out H]; discriminate|intros (_ & _ & H & _); lia]|].
    destruct (Z.ltb_spec base 0) as [Hneg|Hbase];
      [split; [intros [out H]; discriminate
              |intros (_ & _ & _ & H & _); lia]|].
    rewrite (generate_loop_success_iff l fv base data N Hfv HN).
    tauto.
  - rewrite Hv1, Hv2. cbn [bind].
    split; [intros [out H]; discriminate|].
    intros ([-> | ->] & _); discriminate.
Qed.

Lemma generate_returns_success_iff_witness :
  (exists out,
     libewf_chunk_group_generate_table_entries_data four_elements 1
       (buffer_0xff 20) 20 4 0x100 = Ok out)
  <-> ((1 = 1 \/ 1 = 2)
       /\ 20 <= SSIZE_MAX
       /\ 4 * table_entry_size_of 1 <= 20
       /\ 0 <= 0x100
       /\ 4 * table_entry_size_of 1 <= Z.of_nat (length (buffer_0xff 20))
       /\ 4 <= Z.of_nat (length four_elements)
       /\ 4 <= 2 ^ 31
       /\ forall (k : nat) (e : element),
            Z.of_nat k < 4 ->
            nth_error four_elements k = Some e ->
            fits_table_entry 1 0x100 e).
Proof.
  apply (generate_returns_success_iff four_elements 1 (buffer_0xff 20) 20 4
           0x100).
  lia.
Defined.

(** The successful call, down to its loop. *)
Lemma generate_Ok (l : libfdata_list_t) (format_version : Z)
    (data : list byte) (data_size number_of_entries base_offset : Z)
    (out : list byte) :
  libewf_chunk_group_generate_table_entries_data l format_version data
    data_size number_of_entries base_offset = Ok out ->
  (format_version = 1 \/ format_version = 2)
  /\ generate_loop l format_version base_offset
       (Z.of_nat (Z.to_nat (table_entry_size_of format_version)))
       (Z.to_nat number_of_entries) 0 [] data = Ok out.
Proof.
  unfold libewf_chunk_group_generate_table_entries_data. intros H.
  assert (Hfv : format_version = 1 \/ format_version = 2).
  { destruct (Z.eqb_spec format_version 1); [auto|].
    destruct (Z.eqb_spec format_version 2); [auto|discriminate]. }
  split; [exact Hfv|].
  assert (Hes : (if format_version =? 1 then Ok sizeof_ewf_table_entry_v1_t
                 else if format_version =? 2
                      then Ok sizeof_ewf_table_entry_v2_t
                 else Err ARGUMENT_ERROR_UNSUPPORTED_VALUE)
                = Ok (Z.of_nat (Z.to_nat (table_entry_size_of format_version))))
    by (destruct Hfv as [-> | ->]; reflexivity).
  rewrite Hes in H. cbn [bind] in H.
  destruct (data_size >? SSIZE_MAX); [discriminate|].
  destruct (_ >? data_size); [discriminate|].
  destruct (base_offset <? 0); [discriminate|].
  exact H.
Qed.

(** X8: a call that generates table entries and returns success leaves
    the buffer as long as it was, and the bytes after the entries as they
    were. *)
Theorem generate_keeps_rest_of_buffer :
  forall (l : libfdata_list_t) (format_version : Z) (data : list byte)
         (data_size number_of_entries base_offset : Z) (out : list byte),
    0 <= number_of_entries < 2 ^ 32 ->
    libewf_chunk_group_generate_table_entries_data l format_version data
      data_size number_of_entries base_offset = Ok out ->
    length out = length data
    /\ skipn (Z.to_nat (number_of_entries
                        * table_entry_size_of format_version)) out
       = skipn (Z.to_nat (number_of_entries
                          * table_entry_size_of format_version)) data.
Proof.
  intros l fv data data_size N base out HN H.
  apply generate_Ok in H. destruct H as [Hfv H].
  apply generate_loop_frame in H;
    [|intros e bytes; apply generate_table_entry_length; exact Hfv|lia|lia].
  destruct H as (_ & _ & tail & -> & Hlen & Hrest).
  cbn [app]. split; [exact Hlen|].
  replace (Z.to_nat (N * table_entry_size_of fv))
    with (Z.to_nat (table_entry_size_of fv) * Z.to_nat N)%nat; [exact Hrest|].
  rewrite <- Z2Nat.inj_mul; [f_equal; lia| |lia].
  destruct Hfv as [-> | ->]; discriminate.
Qed.

Lemma generate_keeps_rest_of_buffer_witness :
  length two_elements_v2_table = length (buffer_0xff 40)
  /\ skipn (Z.to_nat (2 * table_entry_size_of 2)) two_elements_v2_table
     = skipn (Z.to_nat (2 * table_entry_size_of 2)) (buffer_0xff 40).
Proof.
  apply (generate_keeps_rest_of_buffer four_elements 2 (buffer_0xff 40) 40 2
           0x100 two_elements_v2_table).
  - lia.
  - vm_compute. reflexivity.
Defined.

(** The entry written for the element at index [k], in the buffer the
    call returns. *)
Lemma generate_entry_at (l : libfdata_list_t) (format_version : Z)
    (data : list byte) (data_size number_of_entries base_offset : Z)
    (out : list byte) (k : nat) (e : element) :
  0 <= number_of_entries < 2 ^ 32 ->
  libewf_chunk_group_generate_table_entries_data l format_version data
    data_size number_of_entries base_offset = Ok out ->
  Z.of_nat k < number_of_entries ->
  nth_error l k = Some e ->
  exists bytes rest,
    generate_table_entry format_version base_offset e = Ok bytes
    /\ skipn (Z.to_nat (table_entry_size_of format_version) * k) out
       = bytes ++ rest.
Proof.
  intros HN H Hk He.
  apply generate_Ok in H. destruct H as [Hfv H].
  apply generate_loop_entries in H;
    [|intros e' bytes; apply generate_table_entry_length; exact Hfv|lia|lia].
  destruct H as (tail & -> & Hall).
  destruct (Hall k ltac:(lia)) as (e' & bytes & rest & He' & Hb & Hskip).
  change (Z.to_nat 0 + k)%nat with k in He'.
  assert (e' = e) by congruence. subst e'.
  exists bytes, rest. auto.
Qed.

Lemma testbit_31_top (x : Z) :
  0 <= x < 2 ^ 31 ->
  Z.testbit x 31 = false /\ Z.testbit (x + 2 ^ 31) 31 = true.
Proof.
  intros Hx. split.
  - apply Z.testbit_false; [lia|]. rewrite Z.div_small by lia. reflexivity.
  - apply Z.testbit_true; [lia|].
    replace (x + 2 ^ 31) with (x + 1 * 2 ^ 31) by lia.
    rewrite Z.div_add by lia. rewrite Z.div_small by lia. reflexivity.
Qed.

(** The value written for an element whose offset fits: the offset in
    the low 31 bits, the compression in the top bit. *)
Lemma v1_table_offset_bits (base_offset : Z) (e : element) :
  v1_offset_fits base_offset e ->
  0 <= v1_table_offset base_offset e < 2 ^ 32
  /\ Z.land (v1_table_offset base_offset e) 0x7fffffff
     = int64 (element_offset e - base_offset)
  /\ Z.testbit (v1_table_offset base_offset e) 31
     = has_flag (element_flags e) LIBEWF_RANGE_FLAG_IS_COMPRESSED.
Proof.
  unfold v1_offset_fits, INT32_MAX. intros Hfit.
  unfold v1_table_offset. cbv zeta.
  rewrite (uint32_small (int64 _)) by lia.
  destruct (testbit_31_top (int64 (element_offset e - base_offset)))
    as [Hclear Hset]; [lia|].
  destruct (has_flag (element_flags e) LIBEWF_RANGE_FLAG_IS_COMPRESSED).
  - rewrite lor_top_bit by lia. rewrite land_0x7fffffff.
    split; [lia|]. split; [|exact Hset].
    replace (int64 (element_offset e - base_offset) + 2 ^ 31)
      with (int64 (element_offset e - base_offset) + 1 * 2 ^ 31) by lia.
    rewrite Z.mod_add by lia. apply Z.mod_small. lia.
  - rewrite land_0x7fffffff. split; [lia|]. split; [|exact Hclear].
    apply Z.mod_small. lia.
Qed.

(** The version 1 entry written for the element at index [k], read from
    the buffer the call returns. *)
Lemma generate_v1_entry_read (l : libfdata_list_t) (data : list byte)
    (data_size number_of_entries base_offset : Z) (out : list byte)
    (k : nat) (e : element) :
  0 <= number_of_entries < 2 ^ 32 ->
  libewf_chunk_group_generate_table_entries_data l 1 data data_size
    number_of_entries base_offset = Ok out ->
  Z.of_nat k < number_of_entries ->
  nth_error l k = Some e ->
  v1_offset_fits base_offset e
  /\ table_entry_v1 out (Z.of_nat k) = Ok (v1_table_offset base_offset e).
Proof.
  intros HN H Hk He.
  destruct (generate_entry_at _ _ _ _ _ _ _ _ _ HN H Hk He)
    as (bytes & rest & Hbytes & Hskip).
  apply generate_table_entry_v1_Ok in Hbytes.
  destruct Hbytes as [Hfit ->]. split; [exact Hfit|].
  destruct (v1_table_offset_bits base_offset e Hfit) as (Hrange & _).
  unfold table_entry_v1, sizeof_ewf_table_entry_v1_t.
  replace (Z.to_nat (4 * Z.of_nat k))
    with (Z.to_nat (table_entry_size_of 1) * k)%nat
    by (change (Z.to_nat (table_entry_size_of 1)) with 4%nat; lia).
  rewrite Hskip, copy_to_from_uint32. f_equal. apply Z.mod_small. lia.
Qed.

(** X9: in the version 1 table a call generates, the entry of an
    element holds the offset of the element from the base offset in its
    low 31 bits, an offset between 0 and INT32_MAX, and in its top bit
    whether the element is compressed. *)
Theorem generate_v1_entry_of_element :
  forall (l : libfdata_list_t) (data : list byte)
         (data_size number_of_entries base_offset : Z) (out : list byte)
         (k : nat) (e : element),
    0 <= number_of_entries < 2 ^ 32 ->
    libewf_chunk_group_generate_table_entries_data l 1 data data_size
      number_of_entries base_offset = Ok out ->
    Z.of_nat k < number_of_entries ->
    nth_error l k = Some e ->
    exists stored,
      table_entry_v1 out (Z.of_nat k) = Ok stored
      /\ Z.land stored 0x7fffffff = int64 (element_offset e - base_offset)
      /\ 0 <= int64 (element_offset e - base_offset) <= INT32_MAX
      /\ Z.testbit stored 31
         = has_flag (element_flags e) LIBEWF_RANGE_FLAG_IS_COMPRESSED.
Proof.
  intros l data data_size N base out k e HN H Hk He.
  destruct (generate_v1_entry_read _ _ _ _ _ _ _ _ HN H Hk He)
    as [Hfit Hread].
  destruct (v1_table_offset_bits base e Hfit) as (_ & Hland & Hbit).
  exists (v1_table_offset base e). auto.
Qed.

Lemma generate_v1_entry_of_element_witness :
  exists stored,
    table_entry_v1 four_elements_v1_table (Z.of_nat 2) = Ok stored
    /\ Z.land stored 0x7fffffff = int64 (0x10110 - 0x100)
    /\ 0 <= int64 (0x10110 - 0x100) <= INT32_MAX
    /\ Z.testbit stored 31 = has_flag 0x2 LIBEWF_RANGE_FLAG_IS_COMPRESSED.
Proof.
  apply (generate_v1_entry_of_element four_elements (buffer_0xff 20) 20 4
           0x100 four_elements_v1_table 2%nat
           {| element_file_index := 1; element_offset := 0x10110;
              element_size := 0x123; element_flags := 0x2;
              mapped_range := Some (0x10000, 0x8000) |}).
  - lia.
  - vm_compute. reflexivity.
  - vm_compute. reflexivity.
  - vm_compute. reflexivity.
Defined.

Lemma v2_chunk_data_flags_checksum (range_flags : Z) :
  has_flag (v2_chunk_data_flags range_flags)
    LIBEWF_CHUNK_DATA_FLAG_HAS_CHECKSUM
  = has_flag range_flags LIBEWF_RANGE_FLAG_HAS_CHECKSUM.
Proof.
  unfold v2_chunk_data_flags.
  destruct (has_flag range_flags LIBEWF_RANGE_FLAG_IS_COMPRESSED),
    (has_flag range_flags LIBEWF_RANGE_FLAG_HAS_CHECKSUM),
    (has_flag range_flags LIBEWF_RANGE_FLAG_USES_PATTERN_FILL); reflexivity.
Qed.

Lemma v2_chunk_data_flags_range (range_flags : Z) :
  0 <= v2_chunk_data_flags range_flags < 8.
Proof.
  unfold v2_chunk_data_flags.
  destruct (has_flag range_flags LIBEWF_RANGE_FLAG_IS_COMPRESSED),
    (has_flag range_flags LIBEWF_RANGE_FLAG_HAS_CHECKSUM),
    (has_flag range_flags LIBEWF_RANGE_FLAG_USES_PATTERN_FILL);
    vm_compute; split; congruence.
Qed.

(** X10: in the version 2 table a call generates, the entry of an
    element holds the offset of the element as a 64 bit value, its size,
    which is at most UINT32_MAX, as a 32 bit value, and chunk data flags
    below 8 whose three bits tell whether the element is compressed, has
    a checksum and uses a pattern fill; the tainted and corrupted flags of
    the element are not written. *)
Theorem generate_v2_entry_of_element :
  forall (l : libfdata_list_t) (data : list byte)
         (data_size number_of_entries base_offset : Z) (out : list byte)
         (k : nat) (e : element),
    0 <= number_of_entries < 2 ^ 32 ->
    libewf_chunk_group_generate_table_entries_data l 2 data data_size
      number_of_entries base_offset = Ok out ->
    Z.of_nat k < number_of_entries ->
    nth_error l k = Some e ->
    exists chunk_data_flags,
      table_entry_v2 out k
      = Ok (uint64 (element_offset e), uint32 (element_size e),
            chunk_data_flags)
      /\ element_size e <= UINT32_MAX
      /\ 0 <= chunk_data_flags < 8
      /\ has_flag chunk_data_flags LIBEWF_CHUNK_DATA_FLAG_IS_COMPRESSED
         = has_flag (element_flags e) LIBEWF_RANGE_FLAG_IS_COMPRESSED
      /\ has_flag chunk_data_flags LIBEWF_CHUNK_DATA_FLAG_HAS_CHECKSUM
         = has_flag (element_flags e) LIBEWF_RANGE_FLAG_HAS_CHECKSUM
      /\ has_flag chunk_data_flags LIBEWF_CHUNK_DATA_FLAG_USES_PATTERN_FILL
         = has_flag (element_flags e) LIBEWF_RANGE_FLAG_USES_PATTERN_FILL.
Proof.
  intros l data data_size N base out k e HN H Hk He.
  destruct (generate_entry_at _ _ _ _ _ _ _ _ _ HN H Hk He)
    as (bytes & rest & Hbytes & Hskip).
  assert (Hfit : fits_table_entry 2 base e)
    by (apply generate_table_entry_fits; eauto).
  apply generate_table_entry_v2_Ok in Hbytes. subst bytes.
  change (Z.to_nat (table_entry_size_of 2)) with 16%nat in Hskip.
  apply table_entry_v2_generated in Hskip.
  exists (v2_chunk_data_flags (element_flags e)).
  pose proof (v2_chunk_data_flags_range (element_flags e)) as Hrange.
  split.
  - rewrite Hskip. unfold uint64, uint32.
    rewrite Z.mod_mod by lia.
    rewrite (Z.mod_small (v2_chunk_data_flags _)) by lia. reflexivity.
  - split; [exact Hfit|]. split; [exact Hrange|].
    rewrite v2_chunk_data_flags_compressed, v2_chunk_data_flags_checksum,
      v2_chunk_data_flags_pattern_fill. auto.
Qed.

Lemma generate_v2_entry_of_element_witness :
  exists chunk_data_flags,
    table_entry_v2 two_elements_v2_table 1
    = Ok (uint64 0x8110, uint32 0x8000, chunk_data_flags)
    /\ 0x8000 <= UINT32_MAX
    /\ 0 <= chunk_data_flags < 8
    /\ has_flag chunk_data_flags LIBEWF_CHUNK_DATA_FLAG_IS_COMPRESSED
       = has_flag 0xd00 LIBEWF_RANGE_FLAG_IS_COMPRESSED
    /\ has_flag chunk_data_flags LIBEWF_CHUNK_DATA_FLAG_HAS_CHECKSUM
       = has_flag 0xd00 LIBEWF_RANGE_FLAG_HAS_CHECKSUM
    /\ has_flag chunk_data_flags LIBEWF_CHUNK_DATA_FLAG_USES_PATTERN_FILL
       = has_flag 0xd00 LIBEWF_RANGE_FLAG_USES_PATTERN_FILL.
Proof.
  apply (generate_v2_entry_of_element four_elements (buffer_0xff 40) 40 2
           0x100 two_elements_v2_table 1%nat
           {| element_file_index := 1; element_offset := 0x8110;
              element_size := 0x8000; element_flags := 0xd00;
              mapped_range := Some (0x8000, 0x8000) |}).
  - lia.
  - vm_compute. reflexivity.
  - vm_compute. reflexivity.
  - vm_compute. reflexivity.
Defined.

(** ** What a version 1 table keeps of an element *)

Lemma Forall2_nth_error_cases {A B : Type} (R : A -> B -> Prop)
    (l : list A) (l' : list B) :
  Forall2 R l l' ->
  forall k : nat,
    (nth_error l k = None /\ nth_error l' k = None)
    \/ exists a b, nth_error l k = Some a /\ nth_error l' k = Some b /\ R a b.
Proof.
  induction 1 as [|a b l l' Hab _ IH]; intros k.
  - left. destruct k; auto.
  - destruct k as [|k]; cbn [nth_error]; [right; eauto|apply IH].
Qed.

Lemma generate_table_entry_v1_same (base_offset : Z) (e e' : element) :
  same_offset_and_compression e e' ->
  generate_table_entry 1 base_offset e = generate_table_entry 1 base_offset e'.
Proof.
  intros [Hoff Hflag]. unfold generate_table_entry.
  rewrite Hoff, Hflag. reflexivity.
Qed.

Lemma generate_loop_v1_same (l l' : libfdata_list_t)
    (base_offset table_entry_data_size : Z) (n : nat) :
  Forall2 same_offset_and_compression l l' ->
  forall (i : Z) (written rest : list byte),
    generate_loop l 1 base_offset table_entry_data_size n i written rest
    = generate_loop l' 1 base_offset table_entry_data_size n i written rest.
Proof.
  intros Hsame. induction n as [|n IH]; intros i written rest;
    [reflexivity|].
  cbn [generate_loop]. unfold libfdata_list_get_element_by_index.
  destruct (int32 i <? 0); [reflexivity|].
  destruct (Forall2_nth_error_cases _ _ _ Hsame (Z.to_nat (int32 i)))
    as [[-> ->] | (e & e' & -> & -> & He)]; [reflexivity|].
  cbn [or_fail bind]. rewrite (generate_table_entry_v1_same _ _ _ He).
  destruct (generate_table_entry 1 base_offset e') as [bytes|err];
    [|reflexivity].
  cbn [bind]. destruct (store_bytes bytes rest) as [stored|err];
    [|reflexivity].
  cbn [bind]. apply IH.
Qed.

(** X11: a version 1 table is generated from the offsets of the
    elements and from their IS_COMPRESSED flags alone: two lists whose
    elements agree on these give the same buffer, or the same error,
    whatever their sizes, other flags, pool entries and mapped ranges. *)
Theorem generate_v1_reads_offset_and_compression :
  forall (l l' : libfdata_list_t) (data : list byte)
         (data_size number_of_entries base_offset : Z),
    Forall2 same_offset_and_compression l l' ->
    libewf_chunk_group_generate_table_entries_data l 1 data data_size
      number_of_entries base_offset
    = libewf_chunk_group_generate_table_entries_data l' 1 data data_size
        number_of_entries base_offset.
Proof.
  intros l l' data data_size N base Hsame.
  unfold libewf_chunk_group_generate_table_entries_data.
  change (1 =? 1) with true. cbv iota. cbn [bind].
  destruct (data_size >? SSIZE_MAX); [reflexivity|].
  destruct (_ >? data_size); [reflexivity|].
  destruct (base <? 0); [reflexivity|].
  apply generate_loop_v1_same. exact Hsame.
Qed.

Lemma generate_v1_reads_offset_and_compression_witness :
  libewf_chunk_group_generate_table_entries_data four_elements 1
    (buffer_0xff 20) 20 4 0x100
  = libewf_chunk_group_generate_table_entries_data four_elements_variant 1
      (buffer_0xff 20) 20 4 0x100.
Proof.
  apply (generate_v1_reads_offset_and_compression four_elements
           four_elements_variant (buffer_0xff 20) 20 4 0x100).
  repeat (constructor; [split; vm_compute; reflexivity|]).
  constructor.
Defined.

(** ** The elements of the version 1 fill *)

Lemma fill_v1_range_flags_pattern_fill (is_compressed corrupted tainted : Z) :
  has_flag (fill_v1_range_flags is_compressed corrupted tainted)
    LIBEWF_RANGE_FLAG_USES_PATTERN_FILL = false.
Proof.
  unfold fill_v1_range_flags.
  destruct (is_compressed =? 0), (corrupted =? 0), (tainted =? 0);
    reflexivity.
Qed.

Lemma fill_v1_range_flags_tainted (is_compressed corrupted tainted : Z) :
  has_flag (fill_v1_range_flags is_compressed corrupted tainted)
    LIBEWF_RANGE_FLAG_IS_TAINTED = negb (tainted =? 0).
Proof.
  unfold fill_v1_range_flags.
  destruct (is_compressed =? 0), (corrupted =? 0), (tainted =? 0);
    reflexivity.
Qed.

Lemma fill_v1_range_flags_corrupted (is_compressed corrupted tainted : Z) :
  has_flag (fill_v1_range_flags is_compressed corrupted tainted)
    LIBEWF_RANGE_FLAG_IS_CORRUPTED = negb (corrupted =? 0).
Proof.
  unfold fill_v1_range_flags.
  destruct (is_compressed =? 0), (corrupted =? 0), (tainted =? 0);
    reflexivity.
Qed.

Lemma fill_v1_range_flags_filled (file_io_pool_entry offset sz : Z)
    (is_compressed corrupted tainted : Z) (mapped : option (Z * Z)) :
  v1_filled file_io_pool_entry tainted
    {| element_file_index := file_io_pool_entry;
       element_offset := offset;
       element_size := sz;
       element_flags := fill_v1_range_flags is_compressed corrupted tainted;
       mapped_range := mapped |}.
Proof.
  unfold v1_filled. cbn [element_file_index element_flags].
  split; [reflexivity|]. split; [apply fill_v1_range_flags_exclusive|].
  split; [apply fill_v1_range_flags_pattern_fill
         |apply fill_v1_range_flags_tainted].
Qed.

(** X12: every element the version 1 fill appends has the pool entry
    of the call, exactly one of IS_COMPRESSED and HAS_CHECKSUM, never
    USES_PATTERN_FILL, and IS_TAINTED as the call was told. *)
Theorem fill_v1_flags_of_elements :
  forall (l l' : libfdata_list_t) (chunk_size file_io_pool_entry : Z)
         (table_section : libewf_section_t)
         (base_offset number_of_entries : Z) (data : list byte)
         (data_size tainted : Z),
    libewf_chunk_group_fill_v1 l chunk_size file_io_pool_entry table_section
      base_offset number_of_entries data data_size tainted = Ok l' ->
    exists added,
      l' = l ++ added
      /\ Forall (v1_filled file_io_pool_entry tainted) added.
Proof.
  intros l l' chunk_size pool section base N data data_size tainted H.
  unfold libewf_chunk_group_fill_v1 in H.
  destruct (base <? 0); [discriminate|].
  destruct (data_size >? SSIZE_MAX); [discriminate|].
  bind_inv H. bind_inv H.
  destruct (fill_v1_loop_ind chunk_size pool base data tainted
              (fun _ _ => True) (fun _ e => v1_filled pool tainted e))
    with (n := Z.to_nat (uint32 (N - 1))) (i := 0)
         (st := v1_initial l a) (st' := a0)
    as (_ & added & Hadd & _ & Hall); auto.
  { intros i st st' _ Hstep. split; [exact I|].
    apply fill_v1_entry_Ok in Hstep.
    destruct Hstep as (? & _ & _ & _ & _ & _ & _ & _ & Hch).
    eexists. split; [exact Hch|]. apply fill_v1_range_flags_filled. }
  apply fill_v1_last_Ok in H. destruct H as [_ ->].
  eexists (added ++ [_]). cbn [v1_initial chunks] in Hadd.
  rewrite Hadd, <- app_assoc.
  split; [reflexivity|].
  apply Forall_app. split.
  - apply Forall_forall. intros e Hin.
    apply In_nth_error in Hin. destruct Hin as [k Hk]. eauto.
  - constructor; [|constructor]. apply fill_v1_range_flags_filled.
Qed.

Lemma fill_v1_flags_of_elements_witness :
  exists added,
    four_chunks_filled = [] ++ added /\ Forall (v1_filled 0 0) added.
Proof.
  apply (fill_v1_flags_of_elements [] four_chunks_filled 0x10000 0
           section_0x40110 0x100 4 table_four_chunks 16 0).
  vm_compute. reflexivity.
Defined.

Lemma v1_is_compressed_testbit (st : v1_locals) :
  overflow st = 0 ->
  0 <= stored_offset st < 2 ^ 32 ->
  negb (v1_is_compressed st =? 0) = Z.testbit (stored_offset st) 31.
Proof.
  intros Hov Hrange. unfold v1_is_compressed. rewrite Hov.
  change (0 =? 0) with true. cbv iota.
  rewrite Z.testbit_odd, Z.shiftr_div_pow2 by lia.
  assert (Hq : 0 <= stored_offset st / 2 ^ 31 < 2).
  { split; [apply Z.div_pos; lia|apply Z.div_lt_upper_bound; lia]. }
  unfold uint8. rewrite Z.mod_small by lia.
  assert (Hcases : stored_offset st / 2 ^ 31 = 0
                   \/ stored_offset st / 2 ^ 31 = 1) by lia.
  destruct Hcases as [-> | ->]; reflexivity.
Qed.

Lemma v1_entry_size_increasing (st : v1_locals) (stored : Z) :
  overflow st = 0 ->
  Z.land (stored_offset st) 0x7fffffff < Z.land stored 0x7fffffff ->
  v1_entry_size st stored
  = (0, Z.land stored 0x7fffffff - Z.land (stored_offset st) 0x7fffffff)
  /\ v1_overflows st (v1_current_offset st) (snd (v1_entry_size st stored))
     = false.
Proof.
  intros Hov Hlt.
  unfold v1_entry_size, v1_overflows, v1_current_offset, v1_next_offset,
    v1_chunk_data_size.
  rewrite Hov. change (0 =? 0) with true. cbv iota zeta.
  rewrite !land_0x7fffffff in *.
  pose proof (Z.mod_pos_bound (stored_offset st) (2 ^ 31) ltac:(lia)).
  pose proof (Z.mod_pos_bound stored (2 ^ 31) ltac:(lia)).
  set (current := stored_offset st mod 2 ^ 31) in *.
  set (next := stored mod 2 ^ 31) in *.
  destruct (Z.ltb_spec next current) as [?|_]; [lia|].
  rewrite (uint32_small (next - current)) by lia.
  destruct (Z.eqb_spec (next - current) 0) as [?|_]; [lia|].
  unfold INT32_MAX.
  destruct (Z.gtb_spec (next - current) (2 ^ 31 - 1)) as [?|_]; [lia|].
  cbn [snd andb]. split; [reflexivity|].
  replace (current + (next - current)) with next by lia.
  rewrite (uint32_small next) by lia.
  destruct (Z.gtb_spec next (2 ^ 31 - 1)) as [?|_]; [lia|reflexivity].
Qed.

(** The fill loop over entries whose offsets go up: it does not
    overflow, and the elements it appends lie between the offsets of
    consecutive entries. *)
Lemma fill_v1_loop_increasing (chunk_size file_io_pool_entry base_offset : Z)
    (data : list byte) (tainted number_of_entries : Z) (n : nat)
    (i : Z) (st st' : v1_locals) :
  v1_offsets_increase data number_of_entries ->
  0 <= i ->
  (i < number_of_entries ->
   overflow st = 0 /\ table_entry_v1 data i = Ok (stored_offset st)) ->
  fill_v1_loop chunk_size file_io_pool_entry base_offset data tainted n i st
  = Ok st' ->
  (i + Z.of_nat n < number_of_entries ->
   overflow st' = 0
   /\ table_entry_v1 data (i + Z.of_nat n) = Ok (stored_offset st'))
  /\ exists added,
       chunks st' = chunks st ++ added
       /\ length added = n
       /\ forall (k : nat) (e : element),
            nth_error added k = Some e ->
            i + Z.of_nat k + 1 < number_of_entries ->
            forall x x',
              table_entry_v1 data (i + Z.of_nat k) = Ok x ->
              table_entry_v1 data (i + Z.of_nat k + 1) = Ok x' ->
              v1_chunk_between base_offset x x' e.
Proof.
  intros Hinc Hi Hinit Hloop.
  destruct (fill_v1_loop_ind chunk_size file_io_pool_entry base_offset data
              tainted
              (fun i st =>
                 0 <= i
                 /\ (i < number_of_entries ->
                     overflow st = 0
                     /\ table_entry_v1 data i = Ok (stored_offset st)))
              (fun i e =>
                 i + 1 < number_of_entries ->
                 forall x x',
                   table_entry_v1 data i = Ok x ->
                   table_entry_v1 data (i + 1) = Ok x' ->
                   v1_chunk_between base_offset x x' e))
    with (n := n) (i := i) (st := st) (st' := st')
    as ((_ & Hend) & added & Hadd & Hlen & Hall); auto.
  { clear Hinit Hloop Hi i st st'.
    intros i s0 s1 [Hi Hinv] Hstep.
    apply fill_v1_entry_Ok in Hstep.
    destruct Hstep as (x' & Hx' & _ & Hst & Hov & _ & _ & _ & Hch).
    assert (Hnext : i + 1 < number_of_entries ->
                    overflow s0 = 0
                    /\ table_entry_v1 data i = Ok (stored_offset s0)
                    /\ v1_entry_size s0 x'
                       = (0, Z.land x' 0x7fffffff
                             - Z.land (stored_offset s0) 0x7fffffff)
                    /\ v1_overflows s0 (v1_current_offset s0)
                         (snd (v1_entry_size s0 x')) = false).
    { intros Hlt. destruct Hinv as [Hov0 Hread]; [lia|].
      split; [exact Hov0|]. split; [exact Hread|].
      apply v1_entry_size_increasing; [exact Hov0|].
      apply (Hinc i); auto. }
    split.
    - split; [lia|]. intros Hlt.
      destruct Hnext as (Hov0 & _ & _ & Hno); [lia|].
      rewrite Hov, Hno, Hst. auto.
    - eexists. split; [exact Hch|]. intros Hlt x y Hx Hy.
      destruct Hnext as (Hov0 & Hread & Hsize & _); [lia|].
      assert (x = stored_offset s0) by congruence.
      assert (y = x') by congruence. subst x y.
      pose proof (table_entry_v1_range _ _ _ Hread) as Hrange.
      unfold v1_chunk_between.
      cbn [element_offset element_size element_flags].
      rewrite Hsize. cbn [fst snd].
      rewrite fill_v1_range_flags_compressed, fill_v1_range_flags_checksum,
        fill_v1_range_flags_corrupted.
      rewrite <- (v1_is_compressed_testbit s0 Hov0 Hrange).
      unfold v1_current_offset. rewrite Hov0.
      change (0 =? 0) with true. cbv iota.
      repeat split. apply negb_involutive_reverse. }
  split; [exact Hend|].
  exists added. split; [exact Hadd|]. split; [exact Hlen|].
  intros k e He Hk x x' Hx Hx'. apply (Hall k e He Hk x x' Hx Hx').
Qed.

(** X13: when the offsets a version 1 table stores go up from each
    entry to the next, the version 1 fill makes, for every entry that has
    a successor, an element at the base offset plus the offset of the
    entry, as long as the distance to the offset of the next entry,
    compressed or with a checksum as the top bit of the entry tells, and
    not corrupted. *)
Theorem fill_v1_of_increasing_offsets :
  forall (l l' : libfdata_list_t) (chunk_size file_io_pool_entry : Z)
         (table_section : libewf_section_t)
         (base_offset number_of_entries : Z) (data : list byte)
         (data_size tainted : Z) (k : nat) (stored stored' : Z),
    0 <= number_of_entries < 2 ^ 32 ->
    libewf_chunk_group_fill_v1 l chunk_size file_io_pool_entry table_section
      base_offset number_of_entries data data_size tainted = Ok l' ->
    v1_offsets_increase data number_of_entries ->
    Z.of_nat k + 1 < number_of_entries ->
    table_entry_v1 data (Z.of_nat k) = Ok stored ->
    table_entry_v1 data (Z.of_nat k + 1) = Ok stored' ->
    exists e,
      nth_error l' (length l + k) = Some e
      /\ v1_chunk_between base_offset stored stored' e.
Proof.
  intros l l' chunk_size pool section base N data data_size tainted k s s'
    HN H Hinc Hk Hs Hs'.
  unfold libewf_chunk_group_fill_v1 in H.
  destruct (base <? 0); [discriminate|].
  destruct (data_size >? SSIZE_MAX); [discriminate|].
  bind_inv H. rename a into stored0. bind_inv H. rename a into st.
  rewrite (uint32_small (N - 1)) in Ha0 by lia.
  apply (fill_v1_loop_increasing _ _ _ _ _ N) in Ha0;
    [|exact Hinc|lia|cbn [v1_initial overflow stored_offset]; auto].
  destruct Ha0 as (_ & added & Hadd & Hlen & Hall).
  apply fill_v1_last_Ok in H. destruct H as [_ ->].
  cbn [v1_initial chunks] in Hadd. rewrite Hadd, <- app_assoc.
  destruct (nth_error added k) as [e|] eqn:He;
    [|apply nth_error_None in He; lia].
  exists e. split.
  - rewrite nth_error_app2 by lia.
    replace (length l + k - length l)%nat with k by lia.
    rewrite nth_error_app1 by lia. exact He.
  - apply (Hall k e He); [lia|exact Hs|exact Hs'].
Qed.

Lemma fill_v1_of_increasing_offsets_witness :
  exists e,
    nth_error four_chunks_filled (length (@nil element) + 1) = Some e
    /\ v1_chunk_between 0x100 0x10010 0x20010 e.
Proof.
  apply (fill_v1_of_increasing_offsets [] four_chunks_filled 0x10000 0
           section_0x40110 0x100 4 table_four_chunks 16 0 1%nat
           0x10010 0x20010).
  - lia.
  - vm_compute. reflexivity.
  - intros k s s' Hk0 Hk Hs Hs'.
    assert (Hcases : k = 0 \/ k = 1 \/ k = 2) by lia.
    destruct Hcases as [-> | [-> | ->]];
      vm_compute in Hs, Hs'; apply Ok_inj in Hs; apply Ok_inj in Hs';
      subst s s'; vm_compute; reflexivity.
  - lia.
  - vm_compute. reflexivity.
  - vm_compute. reflexivity.
Defined.

(** ** Correcting twice, and correcting what was filled *)

Lemma v1_same_scalars_derived (st st' : v1_locals) :
  v1_same_scalars st st' ->
  v1_current_offset st = v1_current_offset st'
  /\ v1_is_compressed st = v1_is_compressed st'
  /\ (forall stored, v1_entry_size st stored = v1_entry_size st' stored)
  /\ (forall current sz,
         v1_overflows st current sz = v1_overflows st' current sz).
Proof.
  intros (Hs & Hc & Ho & _).
  unfold v1_entry_size, v1_next_offset, v1_current_offset, v1_is_compressed,
    v1_overflows.
  rewrite Hs, Hc, Ho. auto.
Qed.

Lemma replace_nth_same (n : nat) (x : element) (l : libfdata_list_t) :
  nth_error l n = Some x -> replace_nth n x l = l.
Proof.
  revert n. induction l as [|y l IH]; intros [|n] H; cbn [replace_nth];
    try reflexivity.
  - cbn [nth_error] in H. congruence.
  - cbn [nth_error] in H. rewrite IH by exact H. reflexivity.
Qed.

Lemma v1_mismatch_own (file_io_pool_entry offset sz range_flags : Z)
    (mapped : option (Z * Z)) :
  v1_mismatch offset sz range_flags
    {| element_file_index := file_io_pool_entry;
       element_offset := offset;
       element_size := sz;
       element_flags := range_flags;
       mapped_range := mapped |} = false.
Proof.
  unfold v1_mismatch. cbn [element_offset element_size element_flags].
  rewrite !Z.eqb_refl. reflexivity.
Qed.

(** The converse of [correct_v1_entry_Ok]: a turn of the loop whose read
    and whose comparison return. *)
Lemma correct_v1_entry_run_with (file_io_pool_entry base_offset : Z)
    (data : list byte) (tainted i stored : Z) (st : v1_locals)
    (l' : libfdata_list_t) :
  table_entry_v1 data (i + 1) = Ok stored ->
  correct_v1_element (chunks st) i file_io_pool_entry
    (int64 (base_offset + v1_current_offset st))
    (snd (v1_entry_size st stored))
    (correct_v1_range_flags (v1_is_compressed st)
       (fst (v1_entry_size st stored)) tainted)
    (fst (v1_entry_size st stored)) tainted = Ok l' ->
  exists st',
    correct_v1_entry file_io_pool_entry base_offset data tainted i st
    = Ok st'
    /\ chunks st' = l'
    /\ stored_offset st' = stored
    /\ overflow st'
       = (if v1_overflows st (v1_current_offset st)
               (snd (v1_entry_size st stored)) then 1 else overflow st)
    /\ is_compressed st'
       = (if v1_overflows st (v1_current_offset st)
               (snd (v1_entry_size st stored)) then 0
          else v1_is_compressed st)
    /\ chunk_data_size st' = snd (v1_entry_size st stored).
Proof.
  intros Hread Hel. unfold correct_v1_entry. cbv zeta.
  rewrite Hread. cbn [bind]. unfold v1_entry_size in *.
  destruct (v1_chunk_data_size _ _ _) as [corrupted sz].
  cbn [fst snd] in *. rewrite Hel. cbn [bind].
  eexists. split; [reflexivity|].
  cbn [chunks stored_offset overflow is_compressed chunk_data_size].
  repeat split.
Qed.

(** Comparing again, with the same descriptor, a list that holds at the
    index what a first comparison left there, changes nothing. *)
Lemma correct_v1_element_again (l l' l1 : libfdata_list_t)
    (i file_io_pool_entry offset sz : Z)
    (is_compressed corrupted tainted : Z) :
  0 <= i < 2 ^ 32 ->
  correct_v1_element l i file_io_pool_entry offset sz
    (correct_v1_range_flags is_compressed corrupted tainted) corrupted
    tainted = Ok l' ->
  nth_error l1 (Z.to_nat i) = nth_error l' (Z.to_nat i) ->
  correct_v1_element l1 i file_io_pool_entry offset sz
    (correct_v1_range_flags is_compressed corrupted tainted) corrupted
    tainted = Ok l1.
Proof.
  intros Hi H Hnth.
  apply correct_v1_element_frame in H; [|exact Hi].
  destruct H as (Hsmall & _ & _ & _ & previous & Hprev & Hnew).
  rewrite Hnew in Hnth. clear Hnew.
  unfold correct_v1_element, libfdata_list_get_element_by_index,
    libfdata_list_set_element_by_index, libfdata_list_get_element_by_index.
  rewrite (int32_small i) by lia.
  destruct (Z.ltb_spec i 0) as [?|_]; [lia|].
  rewrite Hnth. cbn [or_fail bind].
  destruct (v1_update_data_range
              (v1_mismatch offset sz
                 (correct_v1_range_flags is_compressed corrupted tainted)
                 previous) corrupted tainted (element_flags previous))
    eqn:Hupdate.
  - rewrite v1_mismatch_own. cbn [element_flags mapped_range].
    unfold v1_update_data_range.
    rewrite correct_v1_range_flags_tainted.
    destruct (negb (tainted =? 0)); [|reflexivity].
    cbn [or_fail]. rewrite replace_nth_same by exact Hnth. reflexivity.
  - rewrite Hupdate. reflexivity.
Qed.

Lemma correct_v1_entry_again (file_io_pool_entry base_offset : Z)
    (data : list byte) (tainted i : Z) (st st1 st2 : v1_locals) :
  0 <= i < 2 ^ 32 ->
  correct_v1_entry file_io_pool_entry base_offset data tainted i st
  = Ok st1 ->
  v1_same_scalars st st2 ->
  nth_error (chunks st2) (Z.to_nat i) = nth_error (chunks st1) (Z.to_nat i) ->
  exists st2',
    correct_v1_entry file_io_pool_entry base_offset data tainted i st2
    = Ok st2'
    /\ v1_same_scalars st1 st2'
    /\ chunks st2' = chunks st2.
Proof.
  intros Hi H Hsame Hnth.
  apply correct_v1_entry_Ok in H.
  destruct H as (stored & Hread & Hst & Hov & Hic & Hsz & Hel).
  destruct (v1_same_scalars_derived _ _ Hsame)
    as (Hcur & Hcomp & Hsize & Hover).
  apply (correct_v1_element_again _ _ (chunks st2)) in Hel;
    [|exact Hi|exact Hnth].
  rewrite Hcur, Hcomp, Hsize in Hel.
  destruct (correct_v1_entry_run_with _ _ _ _ _ _ _ _ Hread Hel)
    as (st2' & Hrun & Hch & Hst' & Hov' & Hic' & Hsz').
  exists st2'. split; [exact Hrun|]. split; [|exact Hch].
  destruct Hsame as (_ & _ & Ho & _).
  unfold v1_same_scalars.
  rewrite Hst, Hst', Hov, Hov', Hic, Hic', Hsz, Hsz'.
  rewrite Hcur, Hcomp, Hsize, Hover, Ho. auto.
Qed.

Lemma correct_v1_loop_again (file_io_pool_entry base_offset : Z)
    (data : list byte) (tainted : Z) (n : nat) :
  forall (i : Z) (st st_end st2 : v1_locals),
    0 <= i -> i + Z.of_nat n <= 2 ^ 32 ->
    correct_v1_loop file_io_pool_entry base_offset data tainted n i st
    = Ok st_end ->
    v1_same_scalars st st2 ->
    (forall k : nat,
        i <= Z.of_nat k < i + Z.of_nat n ->
        nth_error (chunks st2) k = nth_error (chunks st_end) k) ->
    exists st2_end,
      correct_v1_loop file_io_pool_entry base_offset data tainted n i st2
      = Ok st2_end
      /\ v1_same_scalars st_end st2_end
      /\ chunks st2_end = chunks st2.
Proof.
  induction n as [|n IH]; intros i st st_end st2 Hi Hin H Hsame Hnth.
  - cbn [correct_v1_loop] in *. apply Ok_inj in H. subst st_end.
    exists st2. auto.
  - cbn [correct_v1_loop] in *. bind_inv H. rename a into st1.
    assert (Hframe := H).
    apply correct_v1_loop_frame in Hframe; [|lia|lia].
    destruct Hframe as (_ & _ & Hframe).
    destruct (correct_v1_entry_again _ _ _ _ i st st1 st2 ltac:(lia) Ha Hsame)
      as (st2' & Hrun & Hsame' & Hch).
    { rewrite <- (Hframe (Z.to_nat i)) by lia. apply Hnth. lia. }
    rewrite Hrun. cbn [bind].
    destruct (IH (i + 1) st1 st_end st2' ltac:(lia) ltac:(lia) H Hsame')
      as (st2_end & Hloop & Hsame_end & Hch_end).
    { intros k Hk. rewrite Hch. apply Hnth. lia. }
    exists st2_end. split; [exact Hloop|]. split; [exact Hsame_end|].
    congruence.
Qed.

(** X14: the correct pass is idempotent: run again with the same
    arguments on the list it returned, it returns that list. *)
Theorem correct_v1_again_changes_nothing :
  forall (l l1 : libfdata_list_t) (chunk_size file_io_pool_entry : Z)
         (table_section : libewf_section_t)
         (base_offset number_of_entries : Z) (data : list byte)
         (data_size tainted : Z),
    libewf_chunk_group_correct_v1 l chunk_size file_io_pool_entry
      table_section base_offset number_of_entries data data_size tainted
    = Ok l1 ->
    libewf_chunk_group_correct_v1 l1 chunk_size file_io_pool_entry
      table_section base_offset number_of_entries data data_size tainted
    = Ok l1.
Proof.
  intros l l1 chunk_size pool section base N data data_size tainted H.
  unfold libewf_chunk_group_correct_v1 in *.
  destruct (base <? 0); [discriminate|].
  destruct (data_size >? SSIZE_MAX); [discriminate|].
  pose proof (uint32_range (N - 1)) as Hrange.
  bind_inv H. rename a into stored0. bind_inv H. rename a into st.
  rewrite Ha. cbn [bind].
  unfold correct_v1_last in H. rewrite last_chunk_data_offset_test in H.
  assert (Hother := H).
  apply correct_v1_element_frame in Hother; [|lia].
  destruct Hother as (_ & _ & _ & Hother & _).
  destruct (correct_v1_loop_again pool base data tainted
              (Z.to_nat (uint32 (N - 1))) 0 (v1_initial l stored0) st
              (v1_initial l1 stored0) ltac:(lia) ltac:(lia) Ha0)
    as (st2 & Hloop & Hsame & Hch).
  { unfold v1_same_scalars. cbn [v1_initial stored_offset is_compressed
      overflow chunk_data_size]. auto. }
  { intros k Hk. cbn [v1_initial chunks]. apply Hother. lia. }
  rewrite Hloop. cbn [bind].
  cbn [v1_initial chunks] in Hch.
  unfold correct_v1_last. rewrite last_chunk_data_offset_test.
  destruct (v1_same_scalars_derived _ _ Hsame) as (Hcur & Hcomp & _ & _).
  destruct Hsame as (_ & _ & _ & Hsz).
  rewrite <- Hcur, <- Hcomp, <- Hsz, Hch.
  eapply correct_v1_element_again; [lia|exact H|reflexivity].
Qed.

Lemma correct_v1_again_changes_nothing_witness :
  libewf_chunk_group_correct_v1 [ one_chunk 0 ] 0x8000 0
    section_0x2000_0x3000 0x100 1 table_one_chunk 4 0
  = Ok [ one_chunk 0 ].
Proof.
  apply (correct_v1_again_changes_nothing one_chunk_list [ one_chunk 0 ]
           0x8000 0 section_0x2000_0x3000 0x100 1 table_one_chunk 4 0).
  vm_compute. reflexivity.
Defined.

(** Comparing the element the fill pass made, untainted, for an entry
    with what the correct pass computes for that entry changes nothing. *)
Lemma correct_v1_element_of_filled (l1 : libfdata_list_t)
    (i file_io_pool_entry file_io_pool_entry' offset sz : Z)
    (is_compressed corrupted tainted' : Z) (mapped : option (Z * Z)) :
  0 <= i < 2 ^ 31 ->
  nth_error l1 (Z.to_nat i)
  = Some {| element_file_index := file_io_pool_entry;
            element_offset := offset;
            element_size := sz;
            element_flags := fill_v1_range_flags is_compressed corrupted 0;
            mapped_range := mapped |} ->
  correct_v1_element l1 i file_io_pool_entry' offset sz
    (correct_v1_range_flags is_compressed corrupted tainted') corrupted
    tainted' = Ok l1.
Proof.
  intros Hi Hnth.
  unfold correct_v1_element, libfdata_list_get_element_by_index.
  rewrite (int32_small i Hi).
  destruct (Z.ltb_spec i 0) as [?|_]; [lia|].
  rewrite Hnth. cbn [or_fail bind].
  assert (Hmatch : v1_mismatch offset sz
                     (correct_v1_range_flags is_compressed corrupted tainted')
                     {| element_file_index := file_io_pool_entry;
                        element_offset := offset;
                        element_size := sz;
                        element_flags :=
                          fill_v1_range_flags is_compressed corrupted 0;
                        mapped_range := mapped |} = false).
  { unfold v1_mismatch. cbn [element_offset element_size element_flags].
    rewrite !Z.eqb_refl. cbn [negb].
    assert (Hland : Z.land (correct_v1_range_flags is_compressed corrupted
                              tainted') LIBEWF_RANGE_FLAG_IS_COMPRESSED
                    = Z.land (fill_v1_range_flags is_compressed corrupted 0)
                        LIBEWF_RANGE_FLAG_IS_COMPRESSED).
    { apply land_IS_COMPRESSED_eq.
      rewrite correct_v1_range_flags_compressed,
        fill_v1_range_flags_compressed. reflexivity. }
    rewrite Hland, Z.eqb_refl. reflexivity. }
  rewrite Hmatch. unfold v1_update_data_range. cbn [element_flags].
  rewrite fill_v1_range_flags_tainted. reflexivity.
Qed.

(** The correct loop over the table a list was filled from, untainted,
    goes through the fill loop's locals and leaves the list as it is. *)
Lemma correct_v1_loop_of_filled
    (chunk_size file_io_pool_entry file_io_pool_entry' base_offset : Z)
    (data : list byte) (tainted' : Z) (l1 : libfdata_list_t) (n : nat) :
  forall (i : Z) (st_f st_f' st_c : v1_locals),
    fill_v1_loop chunk_size file_io_pool_entry base_offset data 0 n i st_f
    = Ok st_f' ->
    Z.of_nat (length (chunks st_f)) = i ->
    Z.of_nat (length l1) <= 2 ^ 31 ->
    (exists rest, l1 = chunks st_f' ++ rest) ->
    v1_same_scalars st_f st_c ->
    chunks st_c = l1 ->
    exists st_c',
      correct_v1_loop file_io_pool_entry' base_offset data tainted' n i st_c
      = Ok st_c'
      /\ v1_same_scalars st_f' st_c'
      /\ chunks st_c' = l1.
Proof.
  induction n as [|n IH]; intros i st_f st_f' st_c H Hi Hsmall Hl1 Hsame Hch.
  - cbn [fill_v1_loop correct_v1_loop] in *. apply Ok_inj in H. subst st_f'.
    eauto.
  - cbn [fill_v1_loop correct_v1_loop] in *. bind_inv H. rename a into st1.
    destruct (fill_v1_loop_appends _ _ _ _ _ _ _ _ _ H)
      as (added & Hadded & _).
    destruct Hl1 as [rest Hl1].
    apply fill_v1_entry_Ok in Ha.
    destruct Ha as (stored & Hread & _ & Hst & Hov & Hic & Hsz & _ & Hch1).
    assert (Hnth : nth_error l1 (Z.to_nat i)
                   = Some {| element_file_index := file_io_pool_entry;
                             element_offset :=
                               int64 (base_offset + v1_current_offset st_f);
                             element_size := snd (v1_entry_size st_f stored);
                             element_flags :=
                               fill_v1_range_flags (v1_is_compressed st_f)
                                 (fst (v1_entry_size st_f stored)) 0;
                             mapped_range :=
                               Some (storage_media_offset st_f, chunk_size)
                          |}).
    { rewrite Hl1, Hadded, Hch1, <- !app_assoc.
      rewrite nth_error_app2 by lia.
      replace (Z.to_nat i - length (chunks st_f))%nat with 0%nat by lia.
      reflexivity. }
    assert (Hlt : i < Z.of_nat (length l1)).
    { assert (Hsome : nth_error l1 (Z.to_nat i) <> None) by congruence.
      apply nth_error_Some in Hsome. lia. }
    apply (correct_v1_element_of_filled l1 i file_io_pool_entry
             file_io_pool_entry' _ _ _ _ tainted') in Hnth; [|lia].
    destruct (v1_same_scalars_derived _ _ Hsame)
      as (Hcur & Hcomp & Hsize & Hover).
    rewrite Hcur, Hcomp, Hsize, <- Hch in Hnth.
    destruct (correct_v1_entry_run_with _ _ _ _ _ _ _ _ Hread Hnth)
      as (st_c1 & Hrun & Hch' & Hst' & Hov' & Hic' & Hsz').
    rewrite Hrun. cbn [bind].
    apply (IH (i + 1) st1 st_f' st_c1); auto.
    + rewrite Hch1, length_app. cbn [length]. lia.
    + eauto.
    + destruct Hsame as (_ & _ & Ho & _). unfold v1_same_scalars.
      rewrite Hst, Hst', Hov, Hov', Hic, Hic', Hsz, Hsz'.
      rewrite Hcur, Hcomp, Hsize, Hover, Ho. auto.
    + congruence.
Qed.

(** X15: a correct pass over the table a list was filled from,
    untainted, from empty, returns success and leaves every element but
    the last one as the fill pass made it, whatever pool entry, section
    and tainted mark it is given. *)
Theorem correct_v1_of_filled_list :
  forall (l1 : libfdata_list_t) (chunk_size file_io_pool_entry : Z)
         (table_section : libewf_section_t)
         (base_offset number_of_entries : Z) (data : list byte)
         (data_size : Z)
         (chunk_size' file_io_pool_entry' : Z)
         (table_section' : libewf_section_t) (data_size' tainted' : Z),
    0 <= number_of_entries < 2 ^ 32 ->
    libewf_chunk_group_fill_v1 [] chunk_size file_io_pool_entry table_section
      base_offset number_of_entries data data_size 0 = Ok l1 ->
    data_size' <= SSIZE_MAX ->
    exists l2,
      libewf_chunk_group_correct_v1 l1 chunk_size' file_io_pool_entry'
        table_section' base_offset number_of_entries data data_size'
        tainted' = Ok l2
      /\ forall k : nat,
           Z.of_nat k <> number_of_entries - 1 ->
           nth_error l2 k = nth_error l1 k.
Proof.
  intros l1 chunk_size pool section base N data data_size chunk_size' pool'
    section' data_size' tainted' HN H Hsize.
  unfold libewf_chunk_group_fill_v1 in H.
  unfold libewf_chunk_group_correct_v1.
  destruct (base <? 0); [discriminate|].
  destruct (data_size >? SSIZE_MAX); [discriminate|].
  destruct (Z.gtb_spec data_size' SSIZE_MAX) as [?|_]; [lia|].
  pose proof (uint32_range (N - 1)) as Hrange.
  bind_inv H. rename a into stored0. bind_inv H. rename a into st.
  rewrite Ha. cbn [bind].
  destruct (fill_v1_loop_appends _ _ _ _ _ _ _ _ _ Ha0)
    as (added & Hadded & Hlen).
  cbn [v1_initial chunks app] in Hadded.
  apply fill_v1_last_Ok in H. cbv zeta in H. destruct H as [Hroom Hl1].
  rewrite Hadded in Hroom. unfold INT_MAX in Hroom.
  assert (HN1 : 1 <= N).
  { destruct (Z.eq_dec N 0) as [->|Hne]; [|lia].
    exfalso. change (uint32 (0 - 1)) with (2 ^ 32 - 1) in Hlen. lia. }
  rewrite (uint32_small (N - 1)) in * by lia.
  assert (Hlength : Z.of_nat (length l1) = N).
  { rewrite Hl1, length_app, Hadded. cbn [length]. lia. }
  destruct (correct_v1_loop_of_filled chunk_size pool pool' base data
              tainted' l1 (Z.to_nat (N - 1)) 0 (v1_initial [] stored0) st
              (v1_initial l1 stored0) Ha0)
    as (st_c & Hloop & Hsame & Hch); auto.
  { lia. }
  { eexists. exact Hl1. }
  { unfold v1_same_scalars. cbn [v1_initial stored_offset is_compressed
      overflow chunk_data_size]. auto. }
  rewrite Hloop. cbn [bind].
  unfold correct_v1_last. rewrite last_chunk_data_offset_test. rewrite Hch.
  match goal with
  | |- exists l2, correct_v1_element l1 ?i ?p ?o ?s ?f ?c ?t = Ok l2 /\ _ =>
      destruct (correct_v1_element_run l1 i p o s f c t) as [l2 Hl2];
        [lia|lia|]
  end.
  exists l2. split; [exact Hl2|].
  apply correct_v1_element_frame in Hl2; [|lia].
  destruct Hl2 as (_ & _ & _ & Hother & _).
  intros k Hk. apply Hother. lia.
Qed.

Lemma correct_v1_of_filled_list_witness :
  exists l2,
    libewf_chunk_group_correct_v1 four_chunks_filled 0x8000 3
      section_0x2000_0x3000 0x100 4 table_four_chunks 16 1 = Ok l2
    /\ forall k : nat,
         Z.of_nat k <> 4 - 1 ->
         nth_error l2 k = nth_error four_chunks_filled k.
Proof.
  apply (correct_v1_of_filled_list four_chunks_filled 0x10000 0
           section_0x40110 0x100 4 table_four_chunks 16 0x8000 3
           section_0x2000_0x3000 16 1).
  - lia.
  - vm_compute. reflexivity.
  - vm_compute. discriminate.
Defined.

(** ** What the version 1 passes read *)

Lemma copy_to_uint32_firstn (bs : list byte) :
  byte_stream_copy_to_uint32_little_endian bs
  = byte_stream_copy_to_uint32_little_endian (firstn 4 bs).
Proof. destruct bs as [|b0 [|b1 [|b2 [|b3 rest]]]]; reflexivity. Qed.

(** A table entry that lies within the first [m] bytes is read from
    them. *)
Lemma table_entry_v1_firstn (data data' : list byte) (m : nat) (j : Z) :
  firstn m data = firstn m data' ->
  0 <= j ->
  4 * j + 4 <= Z.of_nat m ->
  table_entry_v1 data j = table_entry_v1 data' j.
Proof.
  intros H Hj Hm. unfold table_entry_v1, sizeof_ewf_table_entry_v1_t.
  rewrite (copy_to_uint32_firstn (skipn _ data)),
    (copy_to_uint32_firstn (skipn _ data')).
  rewrite !firstn_skipn_comm.
  assert (Hfirst : forall d : list byte,
             firstn (Z.to_nat (4 * j) + 4) d
             = firstn (Z.to_nat (4 * j) + 4) (firstn m d)).
  { intros d. rewrite firstn_firstn. f_equal. lia. }
  rewrite (Hfirst data), (Hfirst data'), H. reflexivity.
Qed.

Lemma fill_v1_loop_same_reads (chunk_size file_io_pool_entry base_offset : Z)
    (data data' : list byte) (tainted : Z) (n : nat) :
  forall (i : Z) (st : v1_locals),
    (forall j, i < j <= i + Z.of_nat n ->
               table_entry_v1 data j = table_entry_v1 data' j) ->
    fill_v1_loop chunk_size file_io_pool_entry base_offset data tainted
      n i st
    = fill_v1_loop chunk_size file_io_pool_entry base_offset data' tainted
        n i st.
Proof.
  induction n as [|n IH]; intros i st Hreads; [reflexivity|].
  cbn [fill_v1_loop].
  assert (Hentry : fill_v1_entry chunk_size file_io_pool_entry base_offset
                     data tainted i st
                   = fill_v1_entry chunk_size file_io_pool_entry base_offset
                       data' tainted i st).
  { unfold fill_v1_entry. rewrite (Hreads (i + 1)) by lia. reflexivity. }
  rewrite Hentry.
  destruct (fill_v1_entry _ _ _ data' _ _ _) as [st1|err]; [|reflexivity].
  cbn [bind]. apply IH. intros j Hj. apply Hreads. lia.
Qed.

Lemma correct_v1_loop_same_reads (file_io_pool_entry base_offset : Z)
    (data data' : list byte) (tainted : Z) (n : nat) :
  forall (i : Z) (st : v1_locals),
    (forall j, i < j <= i + Z.of_nat n ->
               table_entry_v1 data j = table_entry_v1 data' j) ->
    correct_v1_loop file_io_pool_entry base_offset data tainted n i st
    = correct_v1_loop file_io_pool_entry base_offset data' tainted n i st.
Proof.
  induction n as [|n IH]; intros i st Hreads; [reflexivity|].
  cbn [correct_v1_loop].
  assert (Hentry : correct_v1_entry file_io_pool_entry base_offset data
                     tainted i st
                   = correct_v1_entry file_io_pool_entry base_offset data'
                       tainted i st).
  { unfold correct_v1_entry. rewrite (Hreads (i + 1)) by lia. reflexivity. }
  rewrite Hentry.
  destruct (correct_v1_entry _ _ data' _ _ _) as [st1|err]; [|reflexivity].
  cbn [bind]. apply IH. intros j Hj. apply Hreads. lia.
Qed.

(** X16: the version 1 fill reads the table entries and nothing after
    them: two buffers with the same first 4 bytes for each entry give the
    same list, or the same error. *)
Theorem fill_v1_reads_entries_only :
  forall (l : libfdata_list_t) (chunk_size file_io_pool_entry : Z)
         (table_section : libewf_section_t)
         (base_offset number_of_entries : Z) (data data' : list byte)
         (data_size tainted : Z),
    1 <= number_of_entries < 2 ^ 32 ->
    firstn (Z.to_nat (4 * number_of_entries)) data
    = firstn (Z.to_nat (4 * number_of_entries)) data' ->
    libewf_chunk_group_fill_v1 l chunk_size file_io_pool_entry table_section
      base_offset number_of_entries data data_size tainted
    = libewf_chunk_group_fill_v1 l chunk_size file_io_pool_entry
        table_section base_offset number_of_entries data' data_size tainted.
Proof.
  intros l chunk_size pool section base N data data' data_size tainted HN H.
  unfold libewf_chunk_group_fill_v1.
  destruct (base <? 0); [reflexivity|].
  destruct (data_size >? SSIZE_MAX); [reflexivity|].
  rewrite (table_entry_v1_firstn data data' _ 0 H) by lia.
  destruct (table_entry_v1 data' 0) as [stored0|err]; [|reflexivity].
  cbn [bind]. rewrite (uint32_small (N - 1)) by lia.
  rewrite (fill_v1_loop_same_reads chunk_size pool base data data'); 
    [reflexivity|].
  intros j Hj. apply (table_entry_v1_firstn data data' _ j H); lia.
Qed.

Lemma fill_v1_reads_entries_only_witness :
  libewf_chunk_group_fill_v1 [] 0x10000 0 section_0x40110 0x100 4
    table_four_chunks 16 0
  = libewf_chunk_group_fill_v1 [] 0x10000 0 section_0x40110 0x100 4
      table_four_chunks_and_more 16 0.
Proof.
  apply (fill_v1_reads_entries_only [] 0x10000 0 section_0x40110 0x100 4
           table_four_chunks table_four_chunks_and_more 16 0).
  - lia.
  - vm_compute. reflexivity.
Defined.

(** X17: the correct pass reads the table entries and nothing after
    them: two buffers with the same first 4 bytes for each entry give the
    same list, or the same error. *)
Theorem correct_v1_reads_entries_only :
  forall (l : libfdata_list_t) (chunk_size file_io_pool_entry : Z)
         (table_section : libewf_section_t)
         (base_offset number_of_entries : Z) (data data' : list byte)
         (data_size tainted : Z),
    1 <= number_of_entries < 2 ^ 32 ->
    firstn (Z.to_nat (4 * number_of_entries)) data
    = firstn (Z.to_nat (4 * number_of_entries)) data' ->
    libewf_chunk_group_correct_v1 l chunk_size file_io_pool_entry
      table_section base_offset number_of_entries data data_size tainted
    = libewf_chunk_group_correct_v1 l chunk_size file_io_pool_entry
        table_section base_offset number_of_entries data' data_size tainted.
Proof.
  intros l chunk_size pool section base N data data' data_size tainted HN H.
  unfold libewf_chunk_group_correct_v1.
  destruct (base <? 0); [reflexivity|].
  destruct (data_size >? SSIZE_MAX); [reflexivity|].
  rewrite (table_entry_v1_firstn data data' _ 0 H) by lia.
  destruct (table_entry_v1 data' 0) as [stored0|err]; [|reflexivity].
  cbn [bind]. rewrite (uint32_small (N - 1)) by lia.
  rewrite (correct_v1_loop_same_reads pool base data data');
    [reflexivity|].
  intros j Hj. apply (table_entry_v1_firstn data data' _ j H); lia.
Qed.

Lemma correct_v1_reads_entries_only_witness :
  libewf_chunk_group_correct_v1 four_chunks_filled 0x10000 0 section_0x40110
    0x100 4 table_four_chunks 16 0
  = libewf_chunk_group_correct_v1 four_chunks_filled 0x10000 0
      section_0x40110 0x100 4 table_four_chunks_and_more 16 0.
Proof.
  apply (correct_v1_reads_entries_only four_chunks_filled 0x10000 0
           section_0x40110 0x100 4 table_four_chunks
           table_four_chunks_and_more 16 0).
  - lia.
  - vm_compute. reflexivity.
Defined.

Lemma fill_v1_loop_split (chunk_size file_io_pool_entry base_offset : Z)
    (data : list byte) (tainted : Z) (n m : nat) :
  forall (i : Z) (st st' : v1_locals),
    fill_v1_loop chunk_size file_io_pool_entry base_offset data tainted
      (n + m) i st = Ok st' ->
    exists st1,
      fill_v1_loop chunk_size file_io_pool_entry base_offset data tainted
        n i st = Ok st1
      /\ fill_v1_loop chunk_size file_io_pool_entry base_offset data tainted
           m (i + Z.of_nat n) st1 = Ok st'.
Proof.
  induction n as [|n IH]; intros i st st' H.
  - exists st. rewrite Z.add_0_r. auto.
  - cbn [Nat.add fill_v1_loop] in *. bind_inv H. rewrite Ha. cbn [bind].
    destruct (IH _ _ _ H) as (st1 & H1 & H2). exists st1.
    replace (i + Z.of_nat (S n)) with (i + 1 + Z.of_nat n) by lia. auto.
Qed.

(** The element at index [k] of the appended part, in the list a fill
    returns, is the one the loop had appended after [k + 1] turns. *)
Lemma fill_v1_element_after_turns (l l' : libfdata_list_t)
    (chunk_size file_io_pool_entry : Z) (table_section : libewf_section_t)
    (base_offset number_of_entries : Z) (data : list byte)
    (data_size tainted : Z) (k : nat) :
  0 <= number_of_entries < 2 ^ 32 ->
  libewf_chunk_group_fill_v1 l chunk_size file_io_pool_entry table_section
    base_offset number_of_entries data data_size tainted = Ok l' ->
  Z.of_nat k + 1 < number_of_entries ->
  exists stored0 st1,
    table_entry_v1 data 0 = Ok stored0
    /\ fill_v1_loop chunk_size file_io_pool_entry base_offset data tainted
         (S k) 0 (v1_initial l stored0) = Ok st1
    /\ nth_error l' (length l + k) = nth_error (chunks st1) (length l + k).
Proof.
  intros HN H Hk. unfold libewf_chunk_group_fill_v1 in H.
  destruct (base_offset <? 0); [discriminate|].
  destruct (data_size >? SSIZE_MAX); [discriminate|].
  bind_inv H. rename a into stored0. bind_inv H. rename a into st.
  rewrite (uint32_small (number_of_entries - 1)) in Ha0 by lia.
  replace (Z.to_nat (number_of_entries - 1))
    with (S k + Z.to_nat (number_of_entries - 2 - Z.of_nat k))%nat
    in Ha0 by lia.
  apply fill_v1_loop_split in Ha0. destruct Ha0 as (st1 & H1 & H2).
  exists stored0, st1. split; [exact Ha|]. split; [exact H1|].
  destruct (fill_v1_loop_appends _ _ _ _ _ _ _ _ _ H1)
    as (added1 & Hadd1 & Hlen1).
  destruct (fill_v1_loop_appends _ _ _ _ _ _ _ _ _ H2)
    as (added2 & Hadd2 & _).
  apply fill_v1_last_Ok in H. cbv zeta in H. destruct H as [_ ->].
  cbn [v1_initial chunks] in Hadd1.
  assert (Hin : (length l + k < length (chunks st1))%nat)
    by (rewrite Hadd1, length_app; lia).
  rewrite Hadd2, <- app_assoc. apply nth_error_app1. exact Hin.
Qed.

(** X18: the element the version 1 fill makes for an entry that has a
    successor depends on the table up to that successor only: two fills
    of the same list from tables that agree on the entries 0 to [k + 1]
    make the same element for entry [k], whatever the number of entries,
    the rest of the tables and the sections. *)
Theorem fill_v1_element_depends_on_entries_before :
  forall (l l1 l2 : libfdata_list_t) (chunk_size file_io_pool_entry : Z)
         (table_section table_section' : libewf_section_t)
         (base_offset number_of_entries number_of_entries' : Z)
         (data data' : list byte) (data_size data_size' tainted : Z)
         (k : nat),
    0 <= number_of_entries < 2 ^ 32 ->
    0 <= number_of_entries' < 2 ^ 32 ->
    libewf_chunk_group_fill_v1 l chunk_size file_io_pool_entry table_section
      base_offset number_of_entries data data_size tainted = Ok l1 ->
    libewf_chunk_group_fill_v1 l chunk_size file_io_pool_entry table_section'
      base_offset number_of_entries' data' data_size' tainted = Ok l2 ->
    Z.of_nat k + 1 < number_of_entries ->
    Z.of_nat k + 1 < number_of_entries' ->
    firstn (4 * (k + 2)) data = firstn (4 * (k + 2)) data' ->
    nth_error l1 (length l + k) = nth_error l2 (length l + k).
Proof.
  intros l l1 l2 chunk_size pool section section' base N N' data data'
    data_size data_size' tainted k HN HN' H1 H2 Hk Hk' Hdata.
  destruct (fill_v1_element_after_turns _ _ _ _ _ _ _ _ _ _ k HN H1 Hk)
    as (stored0 & st1 & Hread & Hloop & ->).
  destruct (fill_v1_element_after_turns _ _ _ _ _ _ _ _ _ _ k HN' H2 Hk')
    as (stored0' & st1' & Hread' & Hloop' & ->).
  rewrite (table_entry_v1_firstn data data' _ 0 Hdata) in Hread by lia.
  assert (stored0' = stored0) by congruence. subst stored0'.
  rewrite (fill_v1_loop_same_reads chunk_size pool base data data') in Hloop.
  - assert (st1' = st1) by congruence. subst st1'. reflexivity.
  - intros j Hj. apply (table_entry_v1_firstn data data' _ j Hdata); lia.
Qed.

Lemma fill_v1_element_depends_on_entries_before_witness :
  nth_error four_chunks_filled (length (@nil element) + 0)
  = nth_error two_of_four_chunks_filled (length (@nil element) + 0).
Proof.
  apply (fill_v1_element_depends_on_entries_before [] four_chunks_filled
           two_of_four_chunks_filled 0x10000 0 section_0x40110
           section_0x40110 0x100 4 2 table_four_chunks table_four_chunks
           16 8 0 0%nat).
  - lia.
  - lia.
  - vm_compute. reflexivity.
  - vm_compute. reflexivity.
  - lia.
  - lia.
  - reflexivity.
Defined.

(** ** A tainted correct pass *)

Lemma sound_elements_kept_refl (l : libfdata_list_t) :
  sound_elements_kept l l.
Proof. intros k e H _ _. exact H. Qed.

Lemma sound_elements_kept_trans (l1 l2 l3 : libfdata_list_t) :
  sound_elements_kept l1 l2 -> sound_elements_kept l2 l3 ->
  sound_elements_kept l1 l3.
Proof.
  intros H12 H23 k e H Hc Ht. apply H23; auto.
Qed.

Lemma correct_v1_element_keeps_sound (l l' : libfdata_list_t)
    (i file_io_pool_entry offset sz range_flags corrupted tainted : Z) :
  tainted <> 0 ->
  correct_v1_element l i file_io_pool_entry offset sz range_flags corrupted
    tainted = Ok l' ->
  sound_elements_kept l l'.
Proof.
  intros Htainted H. apply correct_v1_element_Ok in H.
  destruct H as (previous & _ & Hprev & ->).
  destruct (v1_update_data_range _ _ _ _) eqn:Hupdate;
    [|apply sound_elements_kept_refl].
  apply v1_update_data_range_iff in Hupdate.
  intros k e He Hc Ht. rewrite nth_error_replace_nth.
  destruct (Nat.eqb_spec k (Z.to_nat (int32 i))) as [->|_]; [|exact He].
  exfalso. assert (e = previous) by congruence. subst e.
  destruct Hupdate as [(_ & _ & H0) | [(_ & Hcor & _) | (_ & Htaint)]];
    congruence.
Qed.

(** X19: a correct pass that is told the table is tainted leaves every
    element that is neither corrupted nor tainted as it is. *)
Theorem correct_v1_tainted_keeps_sound_elements :
  forall (l l' : libfdata_list_t) (chunk_size file_io_pool_entry : Z)
         (table_section : libewf_section_t)
         (base_offset number_of_entries : Z) (data : list byte)
         (data_size tainted : Z),
    tainted <> 0 ->
    libewf_chunk_group_correct_v1 l chunk_size file_io_pool_entry
      table_section base_offset number_of_entries data data_size tainted
    = Ok l' ->
    sound_elements_kept l l'.
Proof.
  intros l l' chunk_size pool section base N data data_size tainted
    Htainted H.
  unfold libewf_chunk_group_correct_v1 in H.
  destruct (base <? 0); [discriminate|].
  destruct (data_size >? SSIZE_MAX); [discriminate|].
  bind_inv H. rename a into stored0. bind_inv H. rename a into st.
  destruct (correct_v1_loop_ind pool base data tainted (fun _ _ => True)
              sound_elements_kept sound_elements_kept_refl
              sound_elements_kept_trans)
    with (n := Z.to_nat (uint32 (N - 1))) (i := 0)
         (st := v1_initial l stored0) (st' := st) as [_ Hloop]; auto.
  { intros i s s' _ Hstep. split; [exact I|].
    apply correct_v1_entry_Ok in Hstep.
    destruct Hstep as (stored & _ & _ & _ & _ & _ & Hel).
    eapply correct_v1_element_keeps_sound; eassumption. }
  cbn [v1_initial chunks] in Hloop.
  unfold correct_v1_last in H. rewrite last_chunk_data_offset_test in H.
  apply correct_v1_element_keeps_sound in H; [|exact Htainted].
  eapply sound_elements_kept_trans; eassumption.
Qed.

Lemma correct_v1_tainted_keeps_sound_elements_witness :
  sound_elements_kept sound_and_tainted sound_and_tainted_corrected.
Proof.
  apply (correct_v1_tainted_keeps_sound_elements sound_and_tainted
           sound_and_tainted_corrected 0x8000 0 section_0x2000_0x3000 0x100
           2 table_first_compressed 8 1).
  - discriminate.
  - vm_compute. reflexivity.
Defined.

(** ** What the version 2 fill reads *)

Lemma copy_to_uint64_firstn_16 (d : list byte) :
  byte_stream_copy_to_uint64_little_endian d
  = byte_stream_copy_to_uint64_little_endian (firstn 16 d).
Proof.
  destruct d
    as [|b0 [|b1 [|b2 [|b3 [|b4 [|b5 [|b6 [|b7 [|b8 [|b9 [|b10 [|b11
        [|b12 [|b13 [|b14 [|b15 rest]]]]]]]]]]]]]]]]; reflexivity.
Qed.

Lemma copy_to_uint32_skipn_8_firstn_16 (d : list byte) :
  byte_stream_copy_to_uint32_little_endian (skipn 8 d)
  = byte_stream_copy_to_uint32_little_endian (skipn 8 (firstn 16 d)).
Proof.
  destruct d
    as [|b0 [|b1 [|b2 [|b3 [|b4 [|b5 [|b6 [|b7 [|b8 [|b9 [|b10 [|b11
        [|b12 [|b13 [|b14 [|b15 rest]]]]]]]]]]]]]]]]; reflexivity.
Qed.

Lemma copy_to_uint32_skipn_12_firstn_16 (d : list byte) :
  byte_stream_copy_to_uint32_little_endian (skipn 12 d)
  = byte_stream_copy_to_uint32_little_endian (skipn 12 (firstn 16 d)).
Proof.
  destruct d
    as [|b0 [|b1 [|b2 [|b3 [|b4 [|b5 [|b6 [|b7 [|b8 [|b9 [|b10 [|b11
        [|b12 [|b13 [|b14 [|b15 rest]]]]]]]]]]]]]]]]; reflexivity.
Qed.

(** A turn of the loop with the pointer at another buffer that starts
    with the same 16 bytes. *)
Lemma fill_v2_entry_at (chunk_size file_io_pool_entry tainted : Z)
    (st : v2_locals) (d : list byte) :
  firstn 16 d = firstn 16 (v2_table_entries_data st) ->
  fill_v2_entry chunk_size file_io_pool_entry tainted (v2_at st d)
  = match fill_v2_entry chunk_size file_io_pool_entry tainted st with
    | Ok st' => Ok (v2_at st' (skipn 16 d))
    | Err e => Err e
    end.
Proof.
  intros H. unfold fill_v2_entry. cbv zeta.
  cbn [v2_at v2_table_entries_data v2_table_entries_data_size
       table_entry_offset v2_storage_media_offset v2_chunks].
  rewrite (copy_to_uint64_firstn_16 d),
    (copy_to_uint32_skipn_8_firstn_16 d),
    (copy_to_uint32_skipn_12_firstn_16 d), H.
  rewrite <- (copy_to_uint64_firstn_16 (v2_table_entries_data st)),
    <- (copy_to_uint32_skipn_8_firstn_16 (v2_table_entries_data st)),
    <- (copy_to_uint32_skipn_12_firstn_16 (v2_table_entries_data st)).
  destruct (byte_stream_copy_to_uint64_little_endian _) as [o|e];
    [|reflexivity].
  cbn [bind].
  destruct (byte_stream_copy_to_uint32_little_endian (skipn 8 _)) as [s|e];
    [|reflexivity].
  cbn [bind].
  destruct (byte_stream_copy_to_uint32_little_endian (skipn 12 _)) as [f|e];
    [|reflexivity].
  cbn [bind]. destruct (append_chunk _ _ _ _ _ _ _) as [l|e]; reflexivity.
Qed.

Lemma fill_v2_loop_at (chunk_size file_io_pool_entry tainted : Z) (n : nat) :
  forall (st : v2_locals) (d : list byte),
    firstn (16 * n) d = firstn (16 * n) (v2_table_entries_data st) ->
    fill_v2_loop chunk_size file_io_pool_entry tainted n (v2_at st d)
    = match fill_v2_loop chunk_size file_io_pool_entry tainted n st with
      | Ok st' => Ok (v2_at st' (skipn (16 * n) d))
      | Err e => Err e
      end.
Proof.
  induction n as [|n IH]; intros st d H; [reflexivity|].
  cbn [fill_v2_loop].
  assert (H16 : firstn 16 d = firstn 16 (v2_table_entries_data st)).
  { apply (f_equal (firstn 16)) in H. rewrite !firstn_firstn in H.
    replace (Nat.min 16 (16 * S n)) with 16%nat in H by lia. exact H. }
  rewrite (fill_v2_entry_at _ _ _ st d H16).
  destruct (fill_v2_entry chunk_size file_io_pool_entry tainted st)
    as [st1|e] eqn:Hentry; [|reflexivity].
  cbn [bind]. apply fill_v2_entry_Ok in Hentry.
  destruct Hentry as (o & s & f & _ & _ & Hdata & _).
  assert (Hskip : skipn (16 * n) (skipn 16 d) = skipn (16 * S n) d)
    by (rewrite skipn_skipn; f_equal; lia).
  rewrite IH.
  - destruct (fill_v2_loop _ _ _ n st1); [|reflexivity].
    rewrite Hskip. reflexivity.
  - rewrite Hdata. rewrite !firstn_skipn_comm.
    replace (16 + 16 * n)%nat with (16 * S n)%nat by lia.
    rewrite H. reflexivity.
Qed.

(** X20: the version 2 fill reads the whole 16 byte entries that fit
    the size it is given and nothing after them: two buffers that start
    with the same bytes for these entries give the same list, or the same
    error. *)
Theorem fill_v2_reads_entries_only :
  forall (header_size : Z) (l : libfdata_list_t)
         (chunk_size file_io_pool_entry : Z)
         (table_section : libewf_section_t) (number_of_offsets : Z)
         (data data' : list byte) (data_size tainted : Z),
    firstn (16 * Z.to_nat (data_size / 16)) data
    = firstn (16 * Z.to_nat (data_size / 16)) data' ->
    libewf_chunk_group_fill_v2 header_size l chunk_size file_io_pool_entry
      table_section number_of_offsets data data_size tainted
    = libewf_chunk_group_fill_v2 header_size l chunk_size file_io_pool_entry
        table_section number_of_offsets data' data_size tainted.
Proof.
  intros header_size l chunk_size pool section N data data' data_size
    tainted H.
  unfold libewf_chunk_group_fill_v2.
  destruct (data_size >? SSIZE_MAX); [reflexivity|].
  unfold sizeof_ewf_table_entry_v2_t.
  match goal with
  | |- bind (fill_v2_loop _ _ _ ?n ?st0) _ = _ =>
      change (bind (fill_v2_loop chunk_size pool tainted n st0)
                (fun s => Ok (v2_chunks s))
              = bind (fill_v2_loop chunk_size pool tainted n
                        (v2_at st0 data'))
                  (fun s => Ok (v2_chunks s)));
      rewrite (fill_v2_loop_at chunk_size pool tainted n st0 data')
        by (symmetry; exact H);
      destruct (fill_v2_loop chunk_size pool tainted n st0); reflexivity
  end.
Qed.

Lemma fill_v2_reads_entries_only_witness :
  libewf_chunk_group_fill_v2 24 [] 0x8000 0 section_0x1000_0x2000 2
    table_v2_two_entries 35 0
  = libewf_chunk_group_fill_v2 24 [] 0x8000 0 section_0x1000_0x2000 2
      table_v2_two_entries_and_more 35 0.
Proof.
  apply (fill_v2_reads_entries_only 24 [] 0x8000 0 section_0x1000_0x2000 2
           table_v2_two_entries table_v2_two_entries_and_more 35 0).
  vm_compute. reflexivity.
Defined.

(** ** A version 2 table read back *)

(** X21: what a version 2 table keeps of a list: when a list is
    written as a version 2 table and the table is filled, untainted, into
    an empty list, the element read back for an element has the same
    IS_COMPRESSED and HAS_CHECKSUM flags, USES_PATTERN_FILL only when the
    element was also compressed, is not corrupted, and, unless it is such
    a pattern fill, has the offset and the size of the element as 64 and
    32 bit values. *)
Theorem fill_v2_of_generated_table :
  forall (l l' : libfdata_list_t) (buffer out : list byte)
         (buffer_size number_of_entries base_offset : Z)
         (header_size chunk_size file_io_pool_entry : Z)
         (table_section : libewf_section_t) (number_of_offsets : Z)
         (data_size tainted : Z) (k : nat) (e : element),
    0 <= number_of_entries < 2 ^ 32 ->
    libewf_chunk_group_generate_table_entries_data l 2 buffer buffer_size
      number_of_entries base_offset = Ok out ->
    libewf_chunk_group_fill_v2 header_size [] chunk_size file_io_pool_entry
      table_section number_of_offsets out data_size tainted = Ok l' ->
    Z.of_nat k < number_of_entries ->
    Z.of_nat k < data_size / 16 ->
    nth_error l k = Some e ->
    exists e', nth_error l' k = Some e' /\ v2_kept e e'.
Proof.
  intros l l' buffer out buffer_size N base header_size chunk_size pool
    section number_of_offsets data_size tainted k e HN Hgen Hfill Hk Hk' He.
  destruct (generate_entry_at _ _ _ _ _ _ _ _ _ HN Hgen Hk He)
    as (bytes & rest & Hbytes & Hskip).
  apply generate_table_entry_v2_Ok in Hbytes. subst bytes.
  change (Z.to_nat (table_entry_size_of 2)) with 16%nat in Hskip.
  apply table_entry_v2_generated in Hskip.
  destruct (fill_v2_element_at _ _ _ _ _ _ _ _ _ _ k Hfill Hk')
    as (e' & He' & (o & s & f & Hread & Hel)).
  rewrite Hskip in Hread. apply Ok_inj in Hread.
  assert (Ho : o = element_offset e mod 2 ^ 64) by congruence.
  assert (Hs : s = uint32 (element_size e) mod 2 ^ 32) by congruence.
  assert (Hf : f = v2_chunk_data_flags (element_flags e) mod 2 ^ 32)
    by congruence.
  clear Hread. rewrite v2_chunk_data_flags_small in Hf.
  unfold uint32 in Hs. rewrite Z.mod_mod in Hs by lia.
  cbv zeta in Hel. exists e'. split; [exact He'|].
  subst e' o s f. unfold v2_kept.
  cbn [element_flags element_offset element_size].
  rewrite fill_v2_range_flags_compressed, fill_v2_range_flags_checksum,
    fill_v2_range_flags_pattern_fill, fill_v2_range_flags_corrupted.
  rewrite v2_chunk_data_flags_compressed, v2_chunk_data_flags_checksum,
    v2_chunk_data_flags_pattern_fill.
  repeat split.
  - unfold fill_v2_data_range.
    rewrite fill_v2_range_flags_pattern_fill,
      v2_chunk_data_flags_compressed, v2_chunk_data_flags_pattern_fill, H.
    cbn [fst]. apply (int64_uint64 (element_offset e)).
  - unfold fill_v2_data_range.
    rewrite fill_v2_range_flags_pattern_fill,
      v2_chunk_data_flags_compressed, v2_chunk_data_flags_pattern_fill, H.
    reflexivity.
Qed.

Lemma fill_v2_of_generated_table_witness :
  exists e',
    nth_error two_elements_read_back 1 = Some e'
    /\ v2_kept
         {| element_file_index := 1; element_offset := 0x8110;
            element_size := 0x8000; element_flags := 0xd00;
            mapped_range := Some (0x8000, 0x8000) |} e'.
Proof.
  apply (fill_v2_of_generated_table four_elements two_elements_read_back
           (buffer_0xff 40) two_elements_v2_table 40 2 0x100 24 0x8000 0
           section_0x1000_0x2000 2 32 0 1%nat).
  - lia.
  - vm_compute. reflexivity.
  - vm_compute. reflexivity.
  - lia.
  - vm_compute. reflexivity.
  - vm_compute. reflexivity.
Defined.

(** ** The errors of the correct pass *)





(** ** An untainted correct pass *)

Lemma correct_v1_element_untainted (l l' : libfdata_list_t)
    (i file_io_pool_entry offset sz range_flags : Z) :
  0 <= i < 2 ^ 32 ->
  correct_v1_element l i file_io_pool_entry offset sz range_flags 0 0
  = Ok l' ->
  exists e',
    nth_error l' (Z.to_nat i) = Some e'
    /\ element_offset e' = offset
    /\ element_size e' = sz
    /\ has_flag (element_flags e') LIBEWF_RANGE_FLAG_IS_COMPRESSED
       = has_flag range_flags LIBEWF_RANGE_FLAG_IS_COMPRESSED.
Proof.
  intros Hi H. apply correct_v1_element_frame in H; [|exact Hi].
  destruct H as (_ & _ & _ & _ & previous & _ & Hnew).
  eexists. split; [exact Hnew|].
  destruct (v1_update_data_range _ _ _ _) eqn:Hupdate.
  - cbn [element_offset element_size element_flags]. auto.
  - unfold v1_update_data_range in Hupdate.
    destruct (v1_mismatch offset sz range_flags previous) eqn:Hm;
      [discriminate|].
    unfold v1_mismatch in Hm.
    destruct (Z.eqb_spec offset (element_offset previous)) as [Ho|];
      [|discriminate].
    destruct (Z.eqb_spec sz (element_size previous)) as [Hs|];
      [|discriminate].
    destruct (Z.eqb_spec
                (Z.land range_flags LIBEWF_RANGE_FLAG_IS_COMPRESSED)
                (Z.land (element_flags previous)
                   LIBEWF_RANGE_FLAG_IS_COMPRESSED)) as [Hf|];
      [|discriminate].
    apply land_IS_COMPRESSED_eq in Hf. auto.
Qed.

(** The untainted correct loop over entries whose offsets go up: it
    does not overflow, and it leaves, at the index of each entry, an
    element with the data range and the compression of the entry. *)
Lemma correct_v1_loop_untainted (file_io_pool_entry base_offset : Z)
    (data : list byte) (number_of_entries : Z) (n : nat) :
  v1_offsets_increase data number_of_entries ->
  forall (i : Z) (st st' : v1_locals),
    0 <= i -> i + Z.of_nat n <= 2 ^ 32 ->
    (i < number_of_entries ->
     overflow st = 0 /\ table_entry_v1 data i = Ok (stored_offset st)) ->
    correct_v1_loop file_io_pool_entry base_offset data 0 n i st = Ok st' ->
    (i + Z.of_nat n < number_of_entries ->
     overflow st' = 0
     /\ table_entry_v1 data (i + Z.of_nat n) = Ok (stored_offset st'))
    /\ forall k : nat,
         i <= Z.of_nat k < i + Z.of_nat n ->
         Z.of_nat k + 1 < number_of_entries ->
         forall x x',
           table_entry_v1 data (Z.of_nat k) = Ok x ->
           table_entry_v1 data (Z.of_nat k + 1) = Ok x' ->
           exists e',
             nth_error (chunks st') k = Some e'
             /\ v1_range_between base_offset x x' e'.
Proof.
  intros Hinc. induction n as [|n IH]; intros i st st' Hi Hin Hinv H.
  - cbn [correct_v1_loop] in H. apply Ok_inj in H. subst st'.
    rewrite Z.add_0_r. split; [exact Hinv|]. intros k Hk. lia.
  - cbn [correct_v1_loop] in H. bind_inv H. rename a into st1.
    assert (Hframe := H).
    apply correct_v1_loop_frame in Hframe; [|lia|lia].
    destruct Hframe as (_ & _ & Hframe).
    apply correct_v1_entry_Ok in Ha.
    destruct Ha as (x1 & Hx1 & Hst & Hov & _ & _ & Hel).
    assert (Hnext : i + 1 < number_of_entries ->
                    overflow st = 0
                    /\ table_entry_v1 data i = Ok (stored_offset st)
                    /\ v1_entry_size st x1
                       = (0, Z.land x1 0x7fffffff
                             - Z.land (stored_offset st) 0x7fffffff)
                    /\ v1_overflows st (v1_current_offset st)
                         (snd (v1_entry_size st x1)) = false).
    { intros Hlt. destruct Hinv as [Hov0 Hread]; [lia|].
      split; [exact Hov0|]. split; [exact Hread|].
      apply v1_entry_size_increasing; [exact Hov0|].
      apply (Hinc i); auto. }
    destruct (IH (i + 1) st1 st') as [Hend Hall]; [lia|lia| |exact H|].
    { intros Hlt. destruct Hnext as (_ & _ & _ & Hno); [lia|].
      rewrite Hov, Hno, Hst. destruct Hinv as [Hov0 _]; [lia|]. auto. }
    replace (i + Z.of_nat (S n)) with (i + 1 + Z.of_nat n) by lia.
    split; [exact Hend|].
    intros k Hk Hlt x x' Hx Hx'.
    destruct (Z.eq_dec (Z.of_nat k) i) as [Hki|Hki];
      [|apply (Hall k); auto; lia].
    rewrite Hframe by lia.
    destruct Hnext as (Hov0 & Hread & Hsize & _); [lia|].
    rewrite Hki in Hx, Hx'.
    assert (x = stored_offset st) by congruence.
    assert (x' = x1) by congruence. subst x x'.
    rewrite Hsize in Hel. cbn [fst snd] in Hel.
    apply correct_v1_element_untainted in Hel; [|lia].
    destruct Hel as (e' & He' & Ho & Hs & Hf).
    replace (Z.to_nat i) with k in He' by lia.
    exists e'. split; [exact He'|].
    pose proof (table_entry_v1_range _ _ _ Hread) as Hrange.
    unfold v1_range_between. rewrite Ho, Hs, Hf.
    rewrite correct_v1_range_flags_compressed.
    rewrite (v1_is_compressed_testbit st Hov0 Hrange).
    unfold v1_current_offset. rewrite Hov0.
    change (0 =? 0) with true. cbv iota. auto.
Qed.

(** X23: an untainted correct pass corrects: when the offsets the
    table stores go up from each entry to the next, the list the pass
    returns has, at the index of every entry that has a successor, an
    element at the base offset plus the offset of the entry, as long as
    the distance to the offset of the next entry, and compressed as the
    top bit of the entry tells, whatever the list held there. *)
Theorem correct_v1_untainted_corrects :
  forall (l l' : libfdata_list_t) (chunk_size file_io_pool_entry : Z)
         (table_section : libewf_section_t)
         (base_offset number_of_entries : Z) (data : list byte)
         (data_size : Z) (k : nat) (stored stored' : Z),
    0 <= number_of_entries < 2 ^ 32 ->
    libewf_chunk_group_correct_v1 l chunk_size file_io_pool_entry
      table_section base_offset number_of_entries data data_size 0
    = Ok l' ->
    v1_offsets_increase data number_of_entries ->
    Z.of_nat k + 1 < number_of_entries ->
    table_entry_v1 data (Z.of_nat k) = Ok stored ->
    table_entry_v1 data (Z.of_nat k + 1) = Ok stored' ->
    exists e',
      nth_error l' k = Some e'
      /\ v1_range_between base_offset stored stored' e'.
Proof.
  intros l l' chunk_size pool section base N data data_size k s s'
    HN H Hinc Hk Hs Hs'.
  unfold libewf_chunk_group_correct_v1 in H.
  destruct (base <? 0); [discriminate|].
  destruct (data_size >? SSIZE_MAX); [discriminate|].
  bind_inv H. rename a into stored0. bind_inv H. rename a into st.
  rewrite (uint32_small (N - 1)) in * by lia.
  apply (correct_v1_loop_untainted pool base data N _ Hinc) in Ha0;
    [|lia|lia|cbn [v1_initial overflow stored_offset]; auto].
  destruct Ha0 as [_ Hall].
  destruct (Hall k ltac:(lia) ltac:(lia) s s' Hs Hs') as (e' & He' & Hbetween).
  unfold correct_v1_last in H. rewrite last_chunk_data_offset_test in H.
  apply correct_v1_element_frame in H; [|lia].
  destruct H as (_ & _ & _ & Hother & _).
  exists e'. split; [|exact Hbetween].
  rewrite Hother by lia. exact He'.
Qed.

Lemma correct_v1_untainted_corrects_witness :
  exists e',
    nth_error four_elements_corrected 1 = Some e'
    /\ v1_range_between 0x100 0x10010 0x20010 e'.
Proof.
  apply (correct_v1_untainted_corrects four_elements four_elements_corrected
           0x8000 0 section_0x40110 0x100 4 table_four_chunks 16 1%nat
           0x10010 0x20010).
  - lia.
  - vm_compute. reflexivity.
  - intros k s s' Hk0 Hk Hs Hs'.
    assert (Hcases : k = 0 \/ k = 1 \/ k = 2) by lia.
    destruct Hcases as [-> | [-> | ->]];
      vm_compute in Hs, Hs'; apply Ok_inj in Hs; apply Ok_inj in Hs';
      subst s s'; vm_compute; reflexivity.
  - lia.
  - vm_compute. reflexivity.
  - vm_compute. reflexivity.
Defined.

(** ** The last element of the version 1 fill *)




(** ** A version 1 table read back *)

(** The table written for a list whose offsets go up stores offsets
    that go up. *)
Lemma generate_v1_offsets_increase (l : libfdata_list_t) (data : list byte)
    (data_size number_of_entries base_offset : Z) (out : list byte) :
  0 <= number_of_entries < 2 ^ 32 ->
  libewf_chunk_group_generate_table_entries_data l 1 data data_size
    number_of_entries base_offset = Ok out ->
  offsets_increase base_offset l number_of_entries ->
  v1_offsets_increase out number_of_entries.
Proof.
  intros HN H Hinc j s s' Hj Hlt Hs Hs'.
  assert (Hlist : number_of_entries <= Z.of_nat (length l)).
  { assert (Hloop := H). apply generate_Ok in Hloop.
    destruct Hloop as [Hfv Hloop].
    apply generate_loop_frame in Hloop;
      [|intros e bytes; apply generate_table_entry_length; exact Hfv
       |lia|lia].
    destruct Hloop as (Hidx & _). destruct Hidx as [_ Hidx]; lia. }
  destruct (nth_error l (Z.to_nat j)) as [e|] eqn:He;
    [|apply nth_error_None in He; lia].
  destruct (nth_error l (S (Z.to_nat j))) as [e'|] eqn:He';
    [|apply nth_error_None in He'; lia].
  destruct (generate_v1_entry_read _ _ _ _ _ _ (Z.to_nat j) e HN H)
    as [Hfit Hread]; [lia|exact He|].
  destruct (generate_v1_entry_read _ _ _ _ _ _ (S (Z.to_nat j)) e' HN H)
    as [Hfit' Hread']; [lia|exact He'|].
  rewrite Z2Nat.id in Hread by lia.
  replace (Z.of_nat (S (Z.to_nat j))) with (j + 1) in Hread' by lia.
  assert (s = v1_table_offset base_offset e) by congruence.
  assert (s' = v1_table_offset base_offset e') by congruence.
  subst s s'.
  destruct (v1_table_offset_bits base_offset e Hfit) as (_ & -> & _).
  destruct (v1_table_offset_bits base_offset e' Hfit') as (_ & -> & _).
  apply (Hinc (Z.to_nat j)); [lia|exact He|exact He'].
Qed.

(** X25: what a version 1 table keeps of a list whose offsets go up:
    when the list is written as a version 1 table and the table is
    filled into an empty list with the same base offset, the element read
    back for an element that has a successor has its offset and its
    IS_COMPRESSED flag, HAS_CHECKSUM when it is not compressed, is not
    corrupted, and is as long as the distance to the offset of the
    successor: the size of the element is not kept. *)
Theorem fill_v1_of_generated_table :
  forall (l l' : libfdata_list_t) (buffer out : list byte)
         (buffer_size number_of_entries base_offset : Z)
         (chunk_size file_io_pool_entry : Z)
         (table_section : libewf_section_t) (data_size tainted : Z)
         (k : nat) (e next : element),
    0 <= number_of_entries < 2 ^ 32 ->
    libewf_chunk_group_generate_table_entries_data l 1 buffer buffer_size
      number_of_entries base_offset = Ok out ->
    libewf_chunk_group_fill_v1 [] chunk_size file_io_pool_entry table_section
      base_offset number_of_entries out data_size tainted = Ok l' ->
    offsets_increase base_offset l number_of_entries ->
    Z.of_nat k + 1 < number_of_entries ->
    nth_error l k = Some e ->
    nth_error l (S k) = Some next ->
    exists e', nth_error l' k = Some e' /\ v1_kept base_offset e next e'.
Proof.
  intros l l' buffer out buffer_size N base chunk_size pool section
    data_size tainted k e next HN Hgen Hfill Hinc Hk He Hnext.
  pose proof (generate_v1_offsets_increase _ _ _ _ _ _ HN Hgen Hinc)
    as Hout.
  destruct (generate_v1_entry_read _ _ _ _ _ _ k e HN Hgen)
    as [Hfit Hread]; [lia|exact He|].
  destruct (generate_v1_entry_read _ _ _ _ _ _ (S k) next HN Hgen)
    as [Hfit' Hread']; [lia|exact Hnext|].
  replace (Z.of_nat (S k)) with (Z.of_nat k + 1) in Hread' by lia.
  unfold libewf_chunk_group_fill_v1 in Hfill.
  destruct (base <? 0); [discriminate|].
  destruct (data_size >? SSIZE_MAX); [discriminate|].
  bind_inv Hfill. rename a into stored0. bind_inv Hfill. rename a into st.
  rewrite (uint32_small (N - 1)) in Ha0 by lia.
  apply (fill_v1_loop_increasing _ _ _ _ _ N) in Ha0;
    [|exact Hout|lia|cbn [v1_initial overflow stored_offset]; auto].
  destruct Ha0 as (_ & added & Hadd & Hlen & Hall).
  apply fill_v1_last_Ok in Hfill. destruct Hfill as [_ ->].
  cbn [v1_initial chunks app] in Hadd. rewrite Hadd.
  destruct (nth_error added k) as [e'|] eqn:He';
    [|apply nth_error_None in He'; lia].
  exists e'. split; [rewrite nth_error_app1 by lia; exact He'|].
  specialize (Hall k e' He' ltac:(lia) _ _ Hread Hread').
  destruct Hall as (Ho & Hs & Hc & Hh & Hcor).
  destruct (v1_table_offset_bits base e Hfit) as (_ & Hland & Hbit).
  destruct (v1_table_offset_bits base next Hfit') as (_ & Hland' & _).
  rewrite Hland in Ho, Hs. rewrite Hland' in Hs. rewrite Hbit in Hc, Hh.
  unfold v1_kept. split; [|auto].
  rewrite Ho, Z.add_comm, int64_add_l. f_equal. lia.
Qed.

Lemma fill_v1_of_generated_table_witness :
  exists e',
    nth_error four_elements_read_back 2 = Some e'
    /\ v1_kept 0x100
         {| element_file_index := 1; element_offset := 0x10110;
            element_size := 0x123; element_flags := 0x2;
            mapped_range := Some (0x10000, 0x8000) |}
         {| element_file_index := 1; element_offset := 0x10233;
            element_size := 0x8000; element_flags := 0x100;
            mapped_range := Some (0x18000, 0x8000) |} e'.
Proof.
  apply (fill_v1_of_generated_table four_elements four_elements_read_back
           (buffer_0xff 20) four_elements_v1_table 20 4 0x100 0x8000 0
           section_0x40110 16 0 2%nat).
  - lia.
  - vm_compute. reflexivity.
  - vm_compute. reflexivity.
  - intros k e e' Hk He He'.
    assert (Hcases : k = 0%nat \/ k = 1%nat \/ k = 2%nat) by lia.
    destruct Hcases as [-> | [-> | ->]];
      vm_compute in He, He';
      apply (f_equal (fun o => match o with Some x => x | None => e end))
        in He;
      apply (f_equal (fun o => match o with Some x => x | None => e' end))
        in He';
      subst e e'; vm_compute; reflexivity.
  - lia.
  - vm_compute. reflexivity.
  - vm_compute. reflexivity.
Defined.

(** ** A filled list written back *)

(** X26: writing back what was filled restores the table: when the
    list the version 1 fill made from a table is generated as a version 1
    table with the same base offset, every entry of the generated table is
    the entry of the table the list was filled from. *)
Theorem generate_of_filled_list_restores_entries :
  forall (chunk_size file_io_pool_entry : Z)
         (table_section : libewf_section_t)
         (base_offset number_of_entries : Z) (data : list byte)
         (data_size tainted : Z) (filled : libfdata_list_t)
         (buffer out : list byte) (buffer_size k : Z),
    0 <= number_of_entries < 2 ^ 32 ->
    libewf_chunk_group_fill_v1 [] chunk_size file_io_pool_entry table_section
      base_offset number_of_entries data data_size tainted = Ok filled ->
    libewf_chunk_group_generate_table_entries_data filled 1 buffer
      buffer_size number_of_entries base_offset = Ok out ->
    0 <= k < number_of_entries ->
    table_entry_v1 out k = table_entry_v1 data k.
Proof.
  intros chunk_size file_io_pool_entry table_section base_offset
    number_of_entries data data_size tainted filled buffer out buffer_size k
    HN Hfill Hgen Hk.
  unfold libewf_chunk_group_fill_v1 in Hfill.
  destruct (base_offset <? 0); [discriminate|].
  destruct (data_size >? SSIZE_MAX); [discriminate|].
  bind_inv Hfill. rename a into stored0. rename Ha into Hread0.
  bind_inv Hfill. rename a into st. rename Ha into Hloop.
  apply fill_v1_last_Ok in Hfill.
  cbv zeta in Hfill. destruct Hfill as [Hroom Hfilled].
  destruct (fill_v1_loop_appends _ _ _ _ _ _ _ _ _ Hloop)
    as (added & Hadd & Hlen).
  cbn [v1_initial chunks app] in Hadd.
  rewrite Hadd, Hlen in Hroom. unfold INT_MAX in Hroom.
  assert (HN1 : 1 <= number_of_entries).
  { destruct (Z.eq_dec number_of_entries 0) as [->|Hne]; [|lia].
    exfalso. change (uint32 (0 - 1)) with (2 ^ 32 - 1) in Hroom. lia. }
  rewrite (uint32_small (number_of_entries - 1)) in * by lia.
  set (n := Z.to_nat (number_of_entries - 1)) in *.
  set (last := {| element_file_index := file_io_pool_entry |}) in Hfilled.
  rewrite Hadd in Hfilled.
  assert (Hlength : length filled = S n)
    by (rewrite Hfilled, length_app, Hlen; cbn [length]; lia).
  assert (Hgenerated : forall (j : nat) (e : element),
            nth_error filled j = Some e ->
            v1_offset_fits base_offset e
            /\ table_entry_v1 out (Z.of_nat j)
               = Ok (v1_table_offset base_offset e)).
  { intros j e He.
    assert (Hj : (j < length filled)%nat)
      by (apply nth_error_Some; congruence).
    apply (generate_v1_entry_read filled buffer buffer_size
             number_of_entries base_offset out j e HN Hgen); [lia|exact He]. }
  assert (Hfits : Forall (v1_offset_fits base_offset) added).
  { apply Forall_forall. intros e Hin.
    apply In_nth_error in Hin. destruct Hin as [j Hj].
    apply (Hgenerated j). rewrite Hfilled.
    rewrite nth_error_app1; [exact Hj|].
    apply nth_error_Some. congruence. }
  destruct (fill_v1_loop_generated chunk_size file_io_pool_entry base_offset
              data tainted n 0 (v1_initial [] stored0) st added)
    as (Hread_n & Hpast & Hstored); auto.
  { intros H. exfalso. apply H. reflexivity. }
  pose proof (table_entry_v1_range _ _ _ Hread_n) as Hrange_n.
  assert (Hlast_fit : v1_offset_fits base_offset last).
  { apply (Hgenerated n). rewrite Hfilled.
    rewrite nth_error_app2 by lia.
    replace (n - length added)%nat with 0%nat by lia. reflexivity. }
  destruct ((fun H1 H2 =>
               v1_table_offset_of_entry base_offset st last Hrange_n Hpast
                 H1 H2 Hlast_fit)
              eq_refl (fill_v1_range_flags_compressed _ _ _))
    as (_ & Hlast_offset).
  destruct (nth_error filled (Z.to_nat k)) as [e|] eqn:He.
  2:{ apply nth_error_None in He. lia. }
  destruct (Hgenerated _ _ He) as [_ Hout].
  rewrite Z2Nat.id in Hout by lia. rewrite Hout. symmetry.
  rewrite Hfilled in He.
  destruct (Nat.lt_ge_cases (Z.to_nat k) (length added)) as [Hlt|Hge].
  - rewrite nth_error_app1 in He by exact Hlt.
    specialize (Hstored _ _ He).
    rewrite Z2Nat.id in Hstored by lia. exact Hstored.
  - rewrite nth_error_app2 in He by exact Hge.
    replace (Z.to_nat k - length added)%nat with 0%nat in He by lia.
    cbn [nth_error] in He.
    assert (e = last) by congruence. subst e.
    rewrite Hlast_offset.
    replace k with (0 + Z.of_nat n) by lia. exact Hread_n.
Qed.

Lemma generate_of_filled_list_restores_entries_witness :
  table_entry_v1 four_chunks_written_back 2
  = table_entry_v1 table_four_chunks 2.
Proof.
  apply (generate_of_filled_list_restores_entries 0x10000 0 section_0x40110
           0x100 4 table_four_chunks 16 0 four_chunks_filled
           (buffer_0xff 20) four_chunks_written_back 20 2).
  - lia.
  - vm_compute. reflexivity.
  - vm_compute. reflexivity.
  - lia.
Defined.
